(** * Bi-LSTM POS tagger: data preparation and training orchestration

    A shallow embedding of [postagger.py]: vocabulary and label-taxonomy
    construction ([make_dict]), padded batch formation ([create_one_batch],
    [create_batches]), the prediction rule of the classification head
    ([ClassifyLayer.forward]), the rendering of predictions for the external
    scorer ([eval_model]) and the epoch loop with its best-checkpoint
    decision ([train_model], [train_and_test]).

    Conventions of the embedding:
    - Python exceptions are values of [exn]; a fallible computation returns
      a [result].
    - A Python [dict] is an insertion-ordered association list ([pydict]):
      assigning to an existing key keeps the key's position and replaces
      its value, exactly as CPython does, so [items()] and [json.dump]
      order can be read off the list.
    - [random.shuffle] is an oracle: the order it leaves the index list in
      is an explicit argument of the function that calls it.
    - Python floats that are only compared (scores, F1 figures) are
      rationals.
    - Tensors of ids are lists of rows of naturals; the ids are taken to
      fit the 64-bit integers of a [LongTensor].
    - The neural network, the embedding layer and the optimizer are opaque:
      a type of model states with a training step and an evaluation-mode
      forward pass, built by functions that can raise.
    - Operations on the file system (creating the directory, opening,
      writing and removing files) are events of a trace and are taken to
      succeed. *)

From Stdlib Require Import Ascii QArith.
From stdpp Require Import gmap strings list sorting.

Open Scope string_scope.
Open Scope list_scope.
Open Scope nat_scope.

(** ** Python prelude *)

Module Py.

Inductive exn : Type :=
| IndexError
| KeyError
| TypeError
| ValueError
| AssertionError
| ZeroDivisionError
| RuntimeError
| NotImplementedError.

Inductive result (A : Type) : Type :=
| Ok (a : A)
| Raise (e : exn).

Arguments Ok {A} a.
Arguments Raise {A} e.

Definition bind {A B : Type} (m : result A) (k : A → result B) : result B :=
  match m with
  | Ok a => k a
  | Raise e => Raise e
  end.

Definition is_ok {A : Type} (m : result A) : bool :=
  match m with Ok _ => true | Raise _ => false end.

(** [o] when it is there, the exception [e] otherwise. *)
Definition or_raise {A : Type} (e : exn) (o : option A) : result A :=
  match o with
  | Some a => Ok a
  | None => Raise e
  end.

(** [[x[i] for i in lst]] with non-negative indices: [IndexError] as soon
    as one index is out of range. *)
Definition index_all {A : Type} (x : list A) (lst : list nat) : result (list A) :=
  or_raise IndexError (mapM (λ i, x !! i) lst).

(** [max(l)], which raises [ValueError] on an empty list. *)
Definition py_max (l : list nat) : result nat :=
  match l with
  | [] => Raise ValueError
  | _ => Ok (max_list l)
  end.

(** [enumerate(l)] *)
Definition enumerate {A : Type} (l : list A) : list (nat * A) := imap pair l.

(** [x[start:end]] for [0 <= start <= end]. *)
Definition slice {A : Type} (x : list A) (start_id end_id : nat) : list A :=
  take (end_id - start_id) (drop start_id x).

(** *** Insertion-ordered dictionaries *)

Definition pydict (K V : Type) : Type := list (K * V).

Section Dict.
Context {K V : Type} `{EqDecision K}.

(** [d.get(k, None)] *)
Fixpoint dict_get (k : K) (d : pydict K V) : option V :=
  match d with
  | [] => None
  | (k', v) :: d' => if decide (k = k') then Some v else dict_get k d'
  end.

(** [d[k] = v] *)
Fixpoint dict_set (k : K) (v : V) (d : pydict K V) : pydict K V :=
  match d with
  | [] => [(k, v)]
  | (k', v') :: d' =>
      if decide (k = k') then (k, v) :: d' else (k', v') :: dict_set k v d'
  end.

(** [len(d)] *)
Definition dict_len (d : pydict K V) : nat := length d.

(** [d.items()] *)
Definition dict_items (d : pydict K V) : list (K * V) := d.

(** [dict(pairs)] *)
Definition dict_of_items (pairs : list (K * V)) : pydict K V :=
  fold_left (λ d kv, dict_set kv.1 kv.2 d) pairs [].

(** [d[k]], which raises [KeyError] on a missing key. *)
Definition dict_item (k : K) (d : pydict K V) : result V :=
  or_raise KeyError (dict_get k d).
End Dict.

(** *** Sorting

    [sorted] and [list.sort] are stable.  [insert_sorted] puts an element
    in front of the first element that is not smaller, so an element keeps
    its place before the equal elements that followed it. *)

Section Sorted.
Context {A : Type} (le : A → A → bool).

Fixpoint insert_sorted (a : A) (l : list A) : list A :=
  match l with
  | [] => [a]
  | b :: l' => if le a b then a :: b :: l' else b :: insert_sorted a l'
  end.

Definition sorted (l : list A) : list A := foldr insert_sorted [] l.
End Sorted.

(** [sorted(l, key=key)] for an integer key. *)
Definition sorted_by_key {A : Type} (key : A → Z) (l : list A) : list A :=
  sorted (λ a b, (key a <=? key b)%Z) l.

(** *** Strings *)

(** [s.replace(old, '')] for a two-character [old]: every occurrence,
    scanning from the left, not only a leading one. *)
Fixpoint remove2 (c1 c2 : Ascii.ascii) (s : string) : string :=
  match s with
  | EmptyString => EmptyString
  | String a s' =>
      match s' with
      | String b s'' =>
          if (Ascii.eqb a c1 && Ascii.eqb b c2)%bool then remove2 c1 c2 s''
          else String a (remove2 c1 c2 s')
      | EmptyString => String a EmptyString
      end
  end.

End Py.

Export Py.

(** [result] is a monad; stdpp's [x ← m; k] notation is used for it. *)
#[global] Instance result_ret : MRet result := @Ok.
#[global] Instance result_bind : MBind result := λ A B k m, Py.bind m k.
#[global] Instance result_fmap : FMap result := λ A B f m, Py.bind m (λ a, Ok (f a)).

(** A [for] loop over [l] that threads the loop state [s]; in [result] an
    exception ends the loop. *)
Fixpoint for_each {M : Type → Type} `{!MBind M, !MRet M} {S A : Type}
    (body : S → A → M S) (s : S) (l : list A) : M S :=
  match l with
  | [] => mret s
  | a :: l' => s' ← body s a; for_each body s' l'
  end.

(** Computations with side effects: the events emitted so far, in order,
    and the value returned or the exception raised.  Events emitted before
    an exception stay emitted. *)
Definition eff (E A : Type) : Type := (list E * result A)%type.

#[global] Instance eff_ret {E} : MRet (eff E) := λ A a, ([], Ok a).
#[global] Instance eff_bind {E} : MBind (eff E) := λ A B k m,
  match m.2 with
  | Ok a => (m.1 ++ (k a).1, (k a).2)
  | Raise e => (m.1, Raise e)
  end.

Definition emit {E : Type} (e : E) : eff E unit := ([e], Ok ()).
Definition lift {E A : Type} (r : result A) : eff E A := ([], r).

(** [a > b] on floats that are numbers. *)
Definition Qgtb (a b : Q) : bool := negb (Qle_bool a b).

(** ** Vocabulary and label taxonomy: [make_dict] *)

(** A corpus is a list of sentences (lists of tokens) or of tag sequences. *)
Abbreviation corpus := (list (list string)).

(** [flatten]: list of lists to list. *)
Definition flatten (l : corpus) : list string := concat l.

(** [purify]: remove [B-] and [I-] from every item and collect the set. *)
Definition purify_item (item : string) : string :=
  remove2 "I"%char "-"%char (remove2 "B"%char "-"%char item).

Definition purify (l : gset string) : gset string :=
  list_to_set (purify_item <$> elements l).

(** Lines 80-91: the sorted list of base labels.  [label_file] is [None]
    when [opt.label_set_path] is empty, and otherwise holds
    [reader.read().strip().split('\n')] for the file at that path.  The
    tag arguments default to [None] in the source. *)
Definition label_set_of (label_file : option (list string))
    (train_y dev_y test_y : option corpus) : result (list string) :=
  match label_file with
  | Some lines => Ok (sorted String.leb lines)
  | None =>
      tr ← or_raise TypeError train_y;
      dv ← or_raise TypeError dev_y;
      ts ← or_raise TypeError test_y;
      Ok (sorted String.leb
            (elements (purify (list_to_set (flatten tr))
                       ∪ purify (list_to_set (flatten dv))
                       ∪ purify (list_to_set (flatten ts)))))
  end.

(** Lines 66-69 and 90: the sorted distinct training tokens. *)
Definition word_set_of (train_x : corpus) : list string :=
  sorted String.leb (elements (list_to_set (C := gset string) (flatten train_x))).

(** Lines 95-96. *)
Definition build_word2id (word_set : list string) : pydict string nat :=
  fold_left (λ word2id word, dict_set word (dict_len word2id) word2id)
            (["<oov>"; "<pad>"] ++ word_set) [].

(** Lines 97-101. *)
Definition build_label2id (label_set : list string) : pydict string nat :=
  let label2id : pydict string nat := [] in
  let label2id := dict_set "<pad>" (dict_len label2id) label2id in
  let label2id := dict_set "O" (dict_len label2id) label2id in
  fold_left
    (λ label2id label,
       let label2id := dict_set ("B-" +:+ label) (dict_len label2id) label2id in
       dict_set ("I-" +:+ label) (dict_len label2id) label2id)
    label_set label2id.

(** Line 102. *)
Definition build_id2label (label2id : pydict string nat) : pydict nat string :=
  dict_of_items ((λ kv, (kv.2, kv.1)) <$> dict_items label2id).

Definition make_dict (label_file : option (list string)) (train_x : corpus)
    (train_y dev_y test_y : option corpus)
  : result (pydict string nat * pydict string nat * pydict nat string) :=
  label_set ← label_set_of label_file train_y dev_y test_y;
  let word2id := build_word2id (word_set_of train_x) in
  let label2id := build_label2id label_set in
  Ok (word2id, label2id, build_id2label label2id).


(** ** Batching: [create_one_batch] and [create_batches] *)

(** A two-dimensional tensor of ids: a list of rows. *)
Abbreviation tensor := (list (list nat)).

(** [torch.LongTensor(rows, cols).fill_(v)] *)
Definition full (rows cols v : nat) : tensor := replicate rows (replicate cols v).

(** [t[i][j] = v], which raises [IndexError] out of range. *)
Definition tensor_set (t : tensor) (i j v : nat) : result tensor :=
  row ← or_raise IndexError (t !! i);
  if decide (j < length row) then Ok (<[i := <[j := v]> row]> t)
  else Raise IndexError.

(** Lines 144-146 and 148-150: the two nested [enumerate] loops that write
    the id of every token (tag) into the tensor. *)
Definition fill_tensor (value : string → result nat) (t : tensor) (x : corpus)
  : result tensor :=
  for_each
    (λ t ix,
       for_each (λ t jx, v ← value jx.2; tensor_set t ix.1 jx.1 v)
                t (enumerate ix.2))
    t (enumerate x).

(** The sort key [-len(x[l])] of lines 133 and 162; the indices sorted come
    from [range(len(x))]. *)
Definition neg_len (x : corpus) (l : nat) : Z := (- Z.of_nat (length (x !!! l)))%Z.

(** [create_one_batch]; the transfer of the tensors to the GPU
    ([use_cuda]) is not modelled. *)
Definition create_one_batch (x y : corpus) (word2id label2id : pydict string nat)
    (sort : bool) (oov pad label_pad : string)
  : result (tensor * tensor * list nat) :=
  let batch_size := length x in
  let lst := seq 0 batch_size in
  let lst := if sort then sorted_by_key (neg_len x) lst else lst in
  x ← index_all x lst;
  y ← index_all y lst;
  lens ← index_all (length <$> x) lst;
  max_len ← py_max lens;
  match dict_get oov word2id, dict_get pad word2id with
  | Some oov_id, Some pad_id =>
      batch_x ← fill_tensor (λ x_ij, Ok (default oov_id (dict_get x_ij word2id)))
                            (full batch_size max_len pad_id) x;
      label_pad_id ← or_raise TypeError (dict_get label_pad label2id);
      batch_y ← fill_tensor (λ y_ij, dict_item y_ij label2id)
                            (full batch_size max_len label_pad_id) y;
      Ok (batch_x, batch_y, lens)
  | _, _ => Raise AssertionError
  end.

(** The four lists [batches_x, batches_y, batches_lens, batches_text] that
    the loop of lines 172-181 appends to, and [sum_len]. *)
Record batches : Type := Batches {
  batches_x : list tensor;
  batches_y : list tensor;
  batches_lens : list (list nat);
  batches_text : list corpus;
  sum_len : nat
}.

(** Lines 172-181, one iteration. *)
Definition batch_step (x y : corpus) (text : option corpus) (batch_size : nat)
    (word2id label2id : pydict string nat) (sort : bool) (b : batches) (i : nat)
  : result batches :=
  let start_id := i * batch_size in
  let end_id := (i + 1) * batch_size in
  '(bx, by_, blens) ← create_one_batch (slice x start_id end_id)
                        (slice y start_id end_id) word2id label2id sort
                        "<oov>" "<pad>" "<pad>";
  Ok {| batches_x := batches_x b ++ [bx];
        batches_y := batches_y b ++ [by_];
        batches_lens := batches_lens b ++ [blens];
        batches_text := match text with
                        | Some text => batches_text b ++ [slice text start_id end_id]
                        | None => batches_text b
                        end;
        sum_len := sum_len b + sum_list blens |}.

(** Lines 183-191: the reordering of the batches by [pos_lst]. *)
Definition reorder_batches (text : option corpus) (pos_lst : list nat) (b : batches)
  : result (list tensor * list tensor * list (list nat) * option (list corpus)) :=
  bxs ← index_all (batches_x b) pos_lst;
  bys ← index_all (batches_y b) pos_lst;
  btext ← index_all (batches_text b) pos_lst;
  blens ← index_all (batches_lens b) pos_lst;
  btext ← match text with
          | Some _ => Some <$> index_all btext pos_lst
          | None => Ok None
          end;
  Ok (bxs, bys, blens, btext).

(** [create_batches].  [shuffled] is the order [random.shuffle] leaves
    [range(len(x))] in (line 160, used when [shuffle]); [pos_shuffled] the
    order it leaves [range(nbatch)] in (line 185, used when [sort]).  The
    result has a text component exactly when [text] was supplied.
    [batch_size] is a natural number; [batch_size = 0] raises at the
    division of line 168. *)
Definition create_batches (x y : corpus) (batch_size : nat)
    (word2id label2id : pydict string nat) (sort shuffle : bool)
    (text : option corpus) (shuffled pos_shuffled : list nat)
  : result (list tensor * list tensor * list (list nat) * option (list corpus)) :=
  let lst := seq 0 (length x) in
  let lst := if shuffle then shuffled else lst in
  let lst := if sort then sorted_by_key (neg_len x) lst else lst in
  x ← index_all x lst;
  y ← index_all y lst;
  text ← match text with
         | Some text => Some <$> index_all text lst
         | None => Ok None
         end;
  if decide (batch_size = 0) then Raise ZeroDivisionError else
  let nbatch :=
    Z.to_nat ((Z.of_nat (length x) - 1) `div` Z.of_nat batch_size + 1) in
  b ← for_each (batch_step x y text batch_size word2id label2id sort)
               (Batches [] [] [] [] 0) (seq 0 nbatch);
  out ← (if sort then reorder_batches text pos_shuffled b
         else Ok (batches_x b, batches_y b, batches_lens b,
                  match text with Some _ => Some (batches_text b) | None => None end));
  (* line 193 divides by [len(x)] *)
  if decide (length x = 0) then Raise ZeroDivisionError else Ok out.

(** ** The classification head: [ClassifyLayer.forward] *)

Module ClassifyLayer.

(** [torch.max(row, dim)] over one row of scores: the index of a maximal
    value, the first one here where several are maximal; a row without
    entries cannot be reduced. *)
Fixpoint argmax_from (best_i : nat) (best : Q) (i : nat) (row : list Q) : nat :=
  match row with
  | [] => best_i
  | q :: row' =>
      if Qgtb q best then argmax_from i q (S i) row'
      else argmax_from best_i best (S i) row'
  end.

Definition argmax (row : list Q) : result nat :=
  match row with
  | [] => Raise RuntimeError
  | q :: row' => Ok (argmax_from 0 q 1 row')
  end.

Section Forward.
(** The encoder output at one position, the linear layer, the
    log-softmax over the tags of one position and the weighted
    negative log-likelihood are opaque. *)
Context {feature : Type}.
Variable hidden2tag : feature → list Q.
Variable logsoftmax : list Q → list Q.
Variable criterion : list (list (list Q)) → tensor → Q.

(** [forward]: [training] is [self.training]; the result is
    [(tag_result, loss)]. *)
Definition forward (training : bool) (label2id : pydict string nat)
    (label_pad : string) (x : list (list feature)) (y : tensor)
  : result (tensor * Q) :=
  let tag_scores : list (list (list Q)) := fmap (M := list) hidden2tag <$> x in
  let tag_scores :=
    if training then fmap (M := list) logsoftmax <$> tag_scores
    else tag_scores in
  pad_id ← dict_item label_pad label2id;
  tag_result ←
    (if decide (pad_id = 0)
     then mapM (M := result)
            (mapM (M := result) (λ scores, argmax (drop 1 scores))) tag_scores
     else mapM (M := result) (mapM (M := result) argmax) tag_scores);
  let tag_result : tensor := fmap (M := list) S <$> tag_result in
  if training then Ok (tag_result, criterion tag_scores y)
  else Ok (tag_result, 0%Q).
End Forward.

End ClassifyLayer.

(** ** Run configuration *)

(** The fields of [opt] that the modelled code reads.  [label_file] stands
    for [opt.label_set_path] together with the lines read from it (see
    [label_set_of]); [model_dir] is [opt.model]; [word_embedding] is the
    path of [--word_embedding], empty by default. *)
Record options : Type := Options {
  label_file : option (list string);
  model_dir : string;
  output : option string;
  script : string;
  batch_size : nat;
  max_epoch : nat;
  lr_decay : Q;
  word_embedding : string
}.

(** [os.path.join(dir, name)] for a directory name without a trailing
    separator. *)
Definition path_join (dir name : string) : string := dir +:+ "/" +:+ name.

(** ** The evaluator: [eval_model] *)

(** What [eval_model] does to the outside world. *)
Inductive io_event : Type :=
| OpenWrite (path : string)          (* codecs.open(path, 'wb') *)
| Mkstemp (path : string)            (* tempfile.mkstemp, opened for writing *)
| Print (line : string)              (* print(line, file=fpo) *)
| Close                              (* fpo.close() *)
| RunScorer (script path : string)   (* perl script < path, waited for *)
| Remove (path : string).            (* os.remove(path) *)

Section Evaluator.
(** The network with its parameters is opaque: [forward_eval] is
    [model.forward(x, y)[0].data] in evaluation mode.  [scorer script
    lines] is the outcome of lines 319-333: the scoring script run over a
    file holding [lines], and precision, recall and F1 parsed from the
    second line it prints.  [tmp_path] is the name [mkstemp] returns. *)
Context {Model : Type}.
Variable forward_eval : Model → tensor → tensor → tensor.
Variable scorer : string → list string → result (Q * Q * Q).
Variable tmp_path : string.

(** Line 314: the format string [{1} {2} {3}] prints the arguments 1, 2
    and 3 of [format(k + 1, word, true_tag, predict_tag)]. *)
Definition format_line (k : nat) (word true_tag predict_tag : string) : string :=
  word +:+ " " +:+ true_tag +:+ " " +:+ predict_tag.

(** Lines 309-314: the lines of one sentence.  The loop state is the
    content written to the file so far. *)
Definition print_sentence (id2label : pydict nat string)
    (file : list string) (text_b : list string) (y_b out_b : list nat)
  : eff io_event (list string) :=
  for_each
    (λ file kw,
       let '(k, (word, (true_tag, predict_tag))) := kw in
       true_tag ← lift (dict_item true_tag id2label);
       predict_tag ← lift (dict_item predict_tag id2label);
       let line := format_line (k + 1) word true_tag predict_tag in
       _ ← emit (Print line);
       mret (file ++ [line]))
    file (enumerate (zip text_b (zip y_b out_b))).

(** Lines 305-316: one batch. *)
Definition print_batch (model : Model) (id2label : pydict nat string)
    (file : list string) (b : tensor * (tensor * (list nat * corpus)))
  : eff io_event (list string) :=
  let '(x, (y, (lens, text))) := b in
  let output_data := forward_eval model x y in
  for_each
    (λ file bid,
       text_b ← lift (or_raise IndexError (text !! bid));
       y_b ← lift (or_raise IndexError (y !! bid));
       out_b ← lift (or_raise IndexError (output_data !! bid));
       file ← print_sentence id2label file text_b y_b out_b;
       _ ← emit (Print EmptyString);
       mret (file ++ [EmptyString]))
    file (seq 0 (length x)).

Definition eval_model (model : Model) (valid_x valid_y : list tensor)
    (valid_lens : list (list nat)) (valid_text : list corpus)
    (id2label : pydict nat string) (opt : options)
  : eff io_event (Q * Q * Q) :=
  let output_path := default tmp_path (output opt) in
  _ ← emit (match output opt with
            | Some path => OpenWrite path
            | None => Mkstemp tmp_path
            end);
  file ← for_each (print_batch model id2label) []
           (zip valid_x (zip valid_y (zip valid_lens valid_text)));
  _ ← emit Close;
  _ ← emit (RunScorer (script opt) output_path);
  scores ← lift (scorer (script opt) file);
  _ ← emit (Remove output_path);
  mret scores.
End Evaluator.

(** ** The training orchestrator: [train_model] and [train_and_test] *)

(** What is written by [json.dump] at start-up. *)
Inductive artifact : Type :=
| WordDict (word2id : pydict string nat)
| LabelDict (label2id : pydict string nat)
| Config (opt : options).

(** What the orchestrator does to the outside world. *)
Inductive event (Model : Type) : Type :=
| Step (x y : tensor)                     (* lines 358-364 on one batch *)
| Evaluated (io : list io_event)          (* one call of eval_model *)
| LogValid (epoch : nat) (dev_f1 : Q)     (* line 374 *)
| Save (path : string) (state : Model)    (* torch.save(model.state_dict(), path) *)
| LogTest (epoch : nat) (p r f1 : Q)      (* lines 382-384 *)
| Makedirs (path : string)                (* os.makedirs, EEXIST ignored *)
| Dump (path : string) (content : artifact)   (* open(path, 'w'), json.dump, close *)
| LogFinal (best_valid test_result : Q).  (* lines 455-456 *)

Arguments Step {Model} x y.
Arguments Evaluated {Model} io.
Arguments LogValid {Model} epoch dev_f1.
Arguments Save {Model} path state.
Arguments LogTest {Model} epoch p r f1.
Arguments Makedirs {Model} path.
Arguments Dump {Model} path content.
Arguments LogFinal {Model} best_valid test_result.

(** A call of [eval_model] seen from the orchestrator. *)
Definition evaluated {Model A : Type} (m : eff io_event A) : eff (event Model) A :=
  ([Evaluated m.1], m.2).

Section Orchestrator.
(** [Model] is the state of the network's parameters together with the
    optimizer.  [train_step] is one iteration of the loop of lines
    356-370: gradient reset, forward and backward pass, gradient
    clipping, optimizer step and the periodic log line.  [decay_lr] is
    line 450.  [Embedding] is the embedding layer.  [glove_embedding] is
    lines 111-125 of [load_embedding]: the GloVe vectors are loaded and
    copied into a new embedding layer for the vocabulary.  [build_model]
    is lines 416-419, the network around the embedding layer with
    [nclasses] tags, and [build_optimizer] lines 435-438, the optimizer
    bound to its parameters.  The three call into the libraries and can
    raise. *)
Context {Model Embedding : Type}.
Variable forward_eval : Model → tensor → tensor → tensor.
Variable scorer : string → list string → result (Q * Q * Q).
Variable tmp_path : string.
Variable train_step : Model → tensor → tensor → list nat → result Model.
Variable decay_lr : Model → Q → Model.
Variable glove_embedding : options → pydict string nat → result Embedding.
Variable build_model :
  options → Embedding → nat → pydict string nat → result Model.
Variable build_optimizer : options → Model → result Model.

(** A split as [create_batches] returns it with its text. *)
Record dataset : Type := Dataset {
  data_x : list tensor;
  data_y : list tensor;
  data_lens : list (list nat);
  data_text : list corpus
}.

(** [train_model].  [lst] is the order [random.shuffle] leaves
    [range(len(train_x))] in (line 351).  The model is updated in place
    in the source and returned here with [(best_valid, test_f1_score)]. *)
Definition train_model (epoch : nat) (model : Model)
    (train_x train_y : list tensor) (train_lens : list (list nat))
    (valid test : dataset) (ix2label : pydict nat string)
    (best_valid test_f1_score : Q) (opt : options) (lst : list nat)
  : eff (event Model) (Model * Q * Q) :=
  train_x ← lift (index_all train_x lst);
  train_y ← lift (index_all train_y lst);
  train_lens ← lift (index_all train_lens lst);
  model ← for_each
             (λ model b,
                let '(x, (y, lens)) := b in
                _ ← emit (Step x y);
                lift (train_step model x y lens))
             model (zip train_x (zip train_y train_lens));
  '(dev_precision, dev_recall, dev_f1_score) ←
    evaluated (eval_model forward_eval scorer tmp_path model
                 (data_x valid) (data_y valid) (data_lens valid)
                 (data_text valid) ix2label opt);
  _ ← emit (LogValid epoch dev_f1_score);
  if Qgtb dev_f1_score best_valid then
    _ ← emit (Save (path_join (model_dir opt) "model.pl") model);
    let best_valid := dev_f1_score in
    '(test_precision, test_recall, test_f1_score) ←
      evaluated (eval_model forward_eval scorer tmp_path model
                   (data_x test) (data_y test) (data_lens test)
                   (data_text test) ix2label opt);
    _ ← emit (LogTest epoch test_precision test_recall test_f1_score);
    mret (model, best_valid, test_f1_score)
  else mret (model, best_valid, test_f1_score).

(** Lines 442-450: the body of the epoch loop.  [epoch_shuffle epoch] is
    the order [random.shuffle] produces in that epoch. *)
Definition epoch_body (train_x train_y : list tensor)
    (train_lens : list (list nat)) (valid test : dataset)
    (id2label : pydict nat string) (opt : options)
    (epoch_shuffle : nat → list nat) (st : Model * Q * Q) (epoch : nat)
  : eff (event Model) (Model * Q * Q) :=
  let '(model, best_valid, test_result) := st in
  '(model, best_valid, test_result) ←
    train_model epoch model train_x train_y train_lens valid test
                id2label best_valid test_result opt (epoch_shuffle epoch);
  let model :=
    if Qgtb (lr_decay opt) 0 then decay_lr model (lr_decay opt) else model in
  mret (model, best_valid, test_result).

(** Lines 440-454. *)
Definition epoch_loop (train_x train_y : list tensor)
    (train_lens : list (list nat)) (valid test : dataset)
    (id2label : pydict nat string) (opt : options)
    (epoch_shuffle : nat → list nat) (model : Model)
  : eff (event Model) (Model * Q * Q) :=
  for_each (epoch_body train_x train_y train_lens valid test id2label opt
                       epoch_shuffle)
           (model, -(100000000 # 1), -(100000000 # 1))%Q
           (seq 0 (max_epoch opt)).

(** [create_batches] called with a text, as [train_and_test] does. *)
Definition create_dataset (x y : corpus) (batch_size : nat)
    (word2id label2id : pydict string nat) (sort shuffle : bool)
    (shuffled pos_shuffled : list nat) : result dataset :=
  '(bx, by_, blens, btext) ←
    create_batches x y batch_size word2id label2id sort shuffle (Some x)
                   shuffled pos_shuffled;
  Ok (Dataset bx by_ blens (default [] btext)).

(** [load_embedding]: line 109 raises [NotImplementedError] when
    [opt.word_embedding] is not empty. *)
Definition load_embedding (opt : options) (word2id : pydict string nat)
  : result Embedding :=
  if decide (word_embedding opt ≠ EmptyString) then Raise NotImplementedError
  else glove_embedding opt word2id.

(** [train_and_test], from the loaded data on.  [shuffled] and
    [pos_shuffled] are the two shuffles of the training-set call of
    [create_batches].  The source returns nothing; the two figures of its
    last log lines are the value here. *)
Definition train_and_test (opt : options)
    (train_x train_y dev_x dev_y test_x test_y : corpus)
    (shuffled pos_shuffled : list nat) (epoch_shuffle : nat → list nat)
  : eff (event Model) (Q * Q) :=
  '(word2id, label2id, id2label) ←
    lift (make_dict (label_file opt) train_x
                    (Some train_y) (Some dev_y) (Some test_y));
  let nclasses := dict_len label2id in
  embedding_layer ← lift (load_embedding opt word2id);
  train ← lift (create_dataset train_x train_y (batch_size opt)
                  word2id label2id true true shuffled pos_shuffled);
  dev ← lift (create_dataset dev_x dev_y (batch_size opt)
                word2id label2id false false [] []);
  test ← lift (create_dataset test_x test_y (batch_size opt)
                 word2id label2id false false [] []);
  model ← lift (build_model opt embedding_layer nclasses label2id);
  _ ← emit (Makedirs (model_dir opt));
  _ ← emit (Dump (path_join (model_dir opt) "word2id.dict") (WordDict word2id));
  _ ← emit (Dump (path_join (model_dir opt) "label2id.dict") (LabelDict label2id));
  _ ← emit (Dump (path_join (model_dir opt) "config.dict") (Config opt));
  model ← lift (build_optimizer opt model);
  '(model, best_valid, test_result) ←
    epoch_loop (data_x train) (data_y train) (data_lens train) dev test
               id2label opt epoch_shuffle model;
  _ ← emit (LogFinal best_valid test_result);
  mret (best_valid, test_result).
End Orchestrator.

(** ** The loss weights of the classification head: [ClassifyLayer.__init__] *)

Module ClassifyLayerInit.

(** Lines 209-210: a weight of one for every tag, then zero for the pad
    label.  [label2id[label_pad]] raises [KeyError] for a missing label and
    the assignment [IndexError] for an id that is not below [num_tags]. *)
Definition tag_weights (num_tags : nat) (label2id : pydict string nat)
    (label_pad : string) : result (list Q) :=
  let tag_weights := replicate num_tags 1%Q in
  pad_id ← dict_item label_pad label2id;
  if decide (pad_id < num_tags) then Ok (<[pad_id := 0%Q]> tag_weights)
  else Raise IndexError.

End ClassifyLayerInit.

(** ** Reading a CoNLL file: [load_conll_data]

    Python strings are modelled by [string]: a character is a code point
    below 256.  The file is its content, the value of [reader.read()]. *)

Module PyStr.

(** [c.isspace()]: the code points below 256 that Python 3 takes for
    whitespace. *)
Definition is_space (c : Ascii.ascii) : bool :=
  let n := Ascii.nat_of_ascii c in
  ((9 <=? n) && (n <=? 13)) || ((28 <=? n) && (n <=? 32))
  || (n =? 133) || (n =? 160).

(** The line feed. *)
Definition newline : Ascii.ascii := Ascii.ascii_of_nat 10.

(** Put a character in front of the first piece of a split. *)
Definition cons_head (a : Ascii.ascii) (pieces : list string) : list string :=
  match pieces with
  | w :: ws => String a w :: ws
  | [] => [String a EmptyString]
  end.

(** [s.split(c)] for a one-character separator [c], as the pieces between
    the characters that satisfy [p]: every such character separates, and
    empty pieces are kept. *)
Fixpoint split_by (p : Ascii.ascii → bool) (s : string) : list string :=
  match s with
  | EmptyString => [EmptyString]
  | String a s' => if p a then EmptyString :: split_by p s' else cons_head a (split_by p s')
  end.

(** [s.split(sep)] for a separator of the two characters [c1 c2]: the
    occurrences are found from the left and do not overlap. *)
Fixpoint split2 (c1 c2 : Ascii.ascii) (s : string) : list string :=
  match s with
  | EmptyString => [EmptyString]
  | String a s' =>
      match s' with
      | String b s'' =>
          if (Ascii.eqb a c1 && Ascii.eqb b c2)%bool then EmptyString :: split2 c1 c2 s''
          else cons_head a (split2 c1 c2 s')
      | EmptyString => [String a EmptyString]
      end
  end.

(** [s.lstrip()], [s.rstrip()] and [s.strip()] *)
Fixpoint lstrip (s : string) : string :=
  match s with
  | EmptyString => EmptyString
  | String a s' => if is_space a then lstrip s' else s
  end.

Fixpoint rstrip (s : string) : string :=
  match s with
  | EmptyString => EmptyString
  | String a s' =>
      match rstrip s' with
      | EmptyString => if is_space a then EmptyString else String a EmptyString
      | r => String a r
      end
  end.

Definition strip (s : string) : string := rstrip (lstrip s).

(** [s.split()]: the pieces between runs of whitespace, none of them
    empty. *)
Definition split (s : string) : list string :=
  filter (λ w, w ≠ EmptyString) (split_by is_space s).

End PyStr.

(** Lines 33-37, one line of a sentence: a line that is not blank adds its
    word and its label; unpacking anything but two fields raises
    [ValueError]. *)
Definition load_conll_pair (wl : list string * list string) (word_label_pair : string)
  : result (list string * list string) :=
  let '(words, labels) := wl in
  if decide (PyStr.strip word_label_pair ≠ EmptyString) then
    match PyStr.split (PyStr.strip word_label_pair) with
    | [word; label] => Ok (words ++ [word], labels ++ [label])
    | _ => Raise ValueError
    end
  else Ok (words, labels).

(** Lines 29-39, one block of the file. *)
Definition load_conll_sentence (dl : corpus * corpus) (sent : string)
  : result (corpus * corpus) :=
  let '(data_set, label_set) := dl in
  let word_label_pairs := PyStr.split_by (Ascii.eqb PyStr.newline) sent in
  '(words, labels) ← for_each load_conll_pair ([], []) word_label_pairs;
  Ok (data_set ++ [words], label_set ++ [labels]).

(** [load_conll_data] on the content of the file. *)
Definition load_conll_data (content : string) : result (corpus * corpus) :=
  let lines := PyStr.split2 PyStr.newline PyStr.newline content in
  for_each load_conll_sentence ([], []) lines.

(** * Properties *)

(** ** Specification vocabulary *)

(** The entries of [label2id] that follow the two reserved ones: for each
    base label its [B-] and [I-] variant at adjacent ids, from [n] on. *)
Fixpoint bio_entries (n : nat) (labels : list string) : list (string * nat) :=
  match labels with
  | [] => []
  | label :: labels' =>
      ("B-" +:+ label, n) :: ("I-" +:+ label, S n) :: bio_entries (S (S n)) labels'
  end.





(** A row of ids padded on the right to [max_len]. *)
Definition pad_to (max_len pad : nat) (ids : list nat) : list nat :=
  ids ++ replicate (max_len - length ids) pad.

(** The ids of the tokens of a sentence, with the out-of-vocabulary
    fallback, and the ids of its tags. *)
Definition word_ids (word2id : pydict string nat) (oov_id : nat)
    (x_i : list string) : list nat :=
  (λ w, default oov_id (dict_get w word2id)) <$> x_i.

Definition tag_ids (label2id : pydict string nat) (y_i : list string) : list nat :=
  (λ tag, default 0 (dict_get tag label2id)) <$> y_i.

(** Every example has as many tags as tokens. *)
Definition aligned (x y : corpus) : Prop :=
  Forall2 (λ x_i y_i : list string, length x_i = length y_i) x y.

(** Every tag has an id. *)
Definition known_tags (label2id : pydict string nat) (y : corpus) : Prop :=
  Forall (Forall (λ tag, is_Some (dict_get tag label2id))) y.

(** The order in which [create_one_batch] and [create_batches] arrange the
    examples they are given. *)
Definition batch_order (sort : bool) (x : corpus) (lst : list nat) : list nat :=
  if sort then sorted_by_key (neg_len x) lst else lst.

(** The number of batches of line 168, on naturals. *)
Definition nbatch_of (n batch_size : nat) : nat :=
  Z.to_nat ((Z.of_nat n - 1) `div` Z.of_nat batch_size + 1).

(** Batch [i] as the loop of lines 172-181 builds it. *)
Definition batch_at (x y : corpus) (batch_size : nat)
    (word2id label2id : pydict string nat) (sort : bool) (i : nat)
  : result (tensor * tensor * list nat) :=
  create_one_batch (slice x (i * batch_size) ((i + 1) * batch_size))
                   (slice y (i * batch_size) ((i + 1) * batch_size))
                   word2id label2id sort "<oov>" "<pad>" "<pad>".

(** The vocabularies have the reserved entries. *)
Definition reserved_ids (word2id label2id : pydict string nat) : Prop :=
  is_Some (dict_get "<oov>" word2id) ∧ is_Some (dict_get "<pad>" word2id) ∧
  is_Some (dict_get "<pad>" label2id).

(** A small corpus for the scenarios: five examples, the vocabulary of
    [make_dict] for them and a label taxonomy with one base label. *)
Module Demo.
Definition x : corpus := [["a"]; ["a"; "b"; "z"]; ["b"; "a"]; ["a"; "a"; "a"; "a"]; ["b"]].
Definition y : corpus :=
  [["O"]; ["O"; "B-X"; "I-X"]; ["O"; "O"]; ["O"; "O"; "O"; "O"]; ["B-X"]].
Definition word2id : pydict string nat :=
  [("<oov>", 0); ("<pad>", 1); ("a", 2); ("b", 3)].
Definition label2id : pydict string nat :=
  [("<pad>", 0); ("O", 1); ("B-X", 2); ("I-X", 3)].
End Demo.

(** The name of a tag id, for ids that [id2label] knows. *)
Definition tag_name (id2label : pydict nat string) (idx : nat) : string :=
  default EmptyString (dict_get idx id2label).

(** The lines of one sentence: one per token, [word true_tag predict_tag]. *)
Definition sentence_lines (id2label : pydict nat string)
    (text_b : list string) (y_b out_b : list nat) : list string :=
  (λ wtp : string * (nat * nat),
     wtp.1 +:+ " " +:+ tag_name id2label wtp.2.1 +:+ " " +:+ tag_name id2label wtp.2.2)
  <$> zip text_b (zip y_b out_b).

(** The lines of one batch: every sentence followed by an empty line. *)
Definition batch_lines (id2label : pydict nat string)
    (text : corpus) (y out : tensor) : list string :=
  concat ((λ tyo : list string * (list nat * list nat),
             sentence_lines id2label tyo.1 tyo.2.1 tyo.2.2 ++ [EmptyString])
          <$> zip text (zip y out)).

(** A sentence that can be rendered: a gold and a predicted tag id for
    every token, all of them with a name. *)
Definition renderable_sentence (id2label : pydict nat string)
    (text_b : list string) (y_b out_b : list nat) : Prop :=
  length text_b ≤ length y_b ∧ length text_b ≤ length out_b ∧
  Forall (λ t, is_Some (dict_get t id2label)) (take (length text_b) y_b) ∧
  Forall (λ p, is_Some (dict_get p id2label)) (take (length text_b) out_b).

(** A batch that can be rendered: a text, a gold row and a predicted row
    for every row of the token tensor. *)
Definition renderable_batch (id2label : pydict nat string)
    (x : tensor) (text : corpus) (y out : tensor) : Prop :=
  length text = length x ∧ length y = length x ∧ length out = length x ∧
  Forall (λ tyo : list string * (list nat * list nat),
            renderable_sentence id2label tyo.1 tyo.2.1 tyo.2.2)
         (zip text (zip y out)).

(** *** Reading a trace of the orchestrator *)

Section Traces.
Context {Model : Type}.

(** The batches of the training steps, in order. *)
Definition steps_of (tr : list (event Model)) : list (tensor * tensor) :=
  omap (λ ev, match ev with Step x y => Some (x, y) | _ => None end) tr.

(** The validation F1 figures logged. *)
Definition valid_f1_of (tr : list (event Model)) : list Q :=
  omap (λ ev, match ev with LogValid _ f1 => Some f1 | _ => None end) tr.

(** The checkpoints written. *)
Definition saves_of (tr : list (event Model)) : list (string * Model) :=
  omap (λ ev, match ev with Save path state => Some (path, state) | _ => None end) tr.

(** The test scores logged. *)
Definition tests_of (tr : list (event Model)) : list (Q * Q * Q) :=
  omap (λ ev, match ev with LogTest _ p r f1 => Some (p, r, f1) | _ => None end) tr.

(** The calls of [eval_model]. *)
Definition evals_of (tr : list (event Model)) : list (list io_event) :=
  omap (λ ev, match ev with Evaluated io => Some io | _ => None end) tr.

(** The files written by [json.dump]. *)
Definition dumps_of (tr : list (event Model)) : list (string * artifact) :=
  omap (λ ev, match ev with Dump path content => Some (path, content) | _ => None end) tr.

(** The files a call of [eval_model] opens for writing (lines 297-302). *)
Definition opened_by (io : list io_event) : list string :=
  omap (λ ev, match ev with
              | OpenWrite path => Some path
              | Mkstemp path => Some path
              | _ => None
              end) io.

(** The names of the files written, in order: by [json.dump], by
    [torch.save] and by the calls of [eval_model]. *)
Definition files_written (tr : list (event Model)) : list string :=
  concat ((λ ev, match ev with
                 | Dump path _ => [path]
                 | Save path _ => [path]
                 | Evaluated io => opened_by io
                 | _ => []
                 end) <$> tr).

(** An event of the epoch loop that writes no other file than the
    checkpoint [checkpoint] and the evaluation output [eval_file]. *)
Definition loop_event (checkpoint eval_file : string) (ev : event Model) : Prop :=
  match ev with
  | Step _ _ | LogValid _ _ | LogTest _ _ _ _ => True
  | Evaluated io => opened_by io = [eval_file]
  | Save path _ => path = checkpoint
  | Makedirs _ | Dump _ _ | LogFinal _ _ => False
  end.

(** The events of the training steps on the batches [bs]. *)
Definition step_events (bs : list (tensor * (tensor * list nat))) : list (event Model) :=
  (λ b, Step b.1 b.2.1) <$> bs.

(** The ways one call of [train_model] can go, by the events it leaves and
    what it returns or raises: the shuffled batches are [bs], the best
    validation F1 so far is [best_valid], the test F1 reported so far is
    [test_f1_score] and the checkpoint file is [path]. *)
Inductive epoch_shape (epoch : nat) (best_valid test_f1_score : Q) (path : string)
    (bs : list (tensor * (tensor * list nat)))
  : list (event Model) → result (Model * Q * Q) → Prop :=
| training_raises done e :
    done `prefix_of` bs →
    epoch_shape epoch best_valid test_f1_score path bs (step_events done) (Raise e)
| validation_raises io e :
    epoch_shape epoch best_valid test_f1_score path bs
      (step_events bs ++ [Evaluated io]) (Raise e)
| no_new_record io model dev_f1 :
    Qgtb dev_f1 best_valid = false →
    epoch_shape epoch best_valid test_f1_score path bs
      (step_events bs ++ [Evaluated io; LogValid epoch dev_f1])
      (Ok (model, best_valid, test_f1_score))
| test_raises io saved dev_f1 io' e :
    Qgtb dev_f1 best_valid = true →
    epoch_shape epoch best_valid test_f1_score path bs
      (step_events bs
       ++ [Evaluated io; LogValid epoch dev_f1; Save path saved; Evaluated io'])
      (Raise e)
| new_record io saved model dev_f1 io' p r test_f1 :
    Qgtb dev_f1 best_valid = true →
    epoch_shape epoch best_valid test_f1_score path bs
      (step_events bs
       ++ [Evaluated io; LogValid epoch dev_f1; Save path saved; Evaluated io';
           LogTest epoch p r test_f1])
      (Ok (model, dev_f1, test_f1)).
End Traces.

(** The iterations of a loop, one after the other: the state each one
    starts from and what it does, up to the last one or to the first that
    raises. *)
Fixpoint loop_runs {E S A : Type} (body : S → A → eff E S) (s : S) (l : list A)
  : list (S * eff E S) :=
  match l with
  | [] => []
  | a :: l' =>
      (s, body s a)
      :: match (body s a).2 with
         | Ok s' => loop_runs body s' l'
         | Raise _ => []
         end
  end.

(** The sentinel that [best_valid] starts from, [-1e8]. *)
Definition no_score : Q := -(100000000 # 1).

(** The scenario of the specification: validation F1 70.0, 72.5, 72.5 and
    68.0 in four epochs.  The model state counts the training steps, the
    network predicts that count as the tag of every token, and the scorer
    reads the scores off the first line it is given. *)
Module Scenario.
Definition forward_eval (model : nat) (x y : tensor) : tensor :=
  (λ row : list nat, (λ _ : nat, model) <$> row) <$> y.

Definition scorer (script : string) (file : list string) : result (Q * Q * Q) :=
  match file with
  | line :: _ =>
      if String.eqb line "d A A" then Ok (70 # 1, 70 # 1, 70 # 1)%Q
      else if String.eqb line "d A B" then Ok (72 # 1, 73 # 1, 145 # 2)%Q
      else if String.eqb line "d A C" then Ok (73 # 1, 72 # 1, 145 # 2)%Q
      else if String.eqb line "d A D" then Ok (68 # 1, 68 # 1, 68 # 1)%Q
      else if String.eqb line "t A A" then Ok (60 # 1, 60 # 1, 60 # 1)%Q
      else if String.eqb line "t A B" then Ok (65 # 1, 65 # 1, 65 # 1)%Q
      else Raise ValueError
  | [] => Raise IndexError
  end.

Definition train_step (model : nat) (x y : tensor) (lens : list nat) : result nat :=
  Ok (S model).

Definition decay_lr (model : nat) (factor : Q) : nat := model.

Definition id2label : pydict nat string :=
  [(0, "<pad>"); (1, "A"); (2, "B"); (3, "C"); (4, "D")].

Definition opt : options := Options None "model" None "conlleval.pl" 2 4 0 EmptyString.

Definition valid : dataset := Dataset [[[2]]] [[[1]]] [[1]] [[["d"]]].
Definition test : dataset := Dataset [[[2]]] [[[1]]] [[1]] [[["t"]]].

(** The four epochs, with one training batch. *)
Definition runs : list ((nat * Q * Q) * eff (event nat) (nat * Q * Q)) :=
  loop_runs
    (epoch_body forward_eval scorer "tmp" train_step decay_lr
                [[[2; 3]]] [[[1; 1]]] [[2]] valid test id2label opt (λ _, [0]))
    (0, no_score, no_score) (seq 0 (max_epoch opt)).
End Scenario.

(** A run of [train_and_test] on four one-token sentences in batches of
    two, with the network, the scorer and the label names of [Scenario]. *)
Module SmallRun.
Definition x : corpus := [["a"]; ["b"]; ["c"]; ["d"]].
Definition y : corpus := [["B-A"]; ["I-A"]; ["B-A"]; ["I-A"]].
Definition opt (epochs : nat) : options :=
  Options (Some ["A"]) "model" None "conlleval.pl" 2 epochs 0 EmptyString.

(** [epoch_shuffle] leaves the two batches swapped in the first epoch and
    in order in the second. *)
Definition epoch_shuffle (epoch : nat) : list nat :=
  match epoch with 0 => [1; 0] | _ => [0; 1] end.

Definition run (epochs : nat) : eff (event nat) (Q * Q) :=
  train_and_test (Embedding := unit) (λ _ _ y, y) (λ _ _, Ok (0, 0, 0)%Q) "tmp"
    Scenario.train_step Scenario.decay_lr
    (λ _ _, Ok ()) (λ _ _ _ _, Ok 0) (λ _ model, Ok model) (opt epochs)
    x y [["d"]] [["B-A"]] [["t"]] [["B-A"]] [0; 1; 2; 3] [0; 1] epoch_shuffle.
End SmallRun.

(** The examples of a batch, read back from its tensors: every row cut at
    the length recorded for it, tokens paired with tags. *)
Definition batch_examples (bx by_ : tensor) (lens : list nat)
  : list (list nat * list nat) :=
  zip (zip_with take lens bx) (zip_with take lens by_).

(** The examples of all batches. *)
Definition batches_examples (bxs bys : list tensor) (blens : list (list nat))
  : list (list nat * list nat) :=
  concat (zip_with (λ bx yl, batch_examples bx yl.1 yl.2) bxs (zip bys blens)).

(** The examples of a corpus as ids. *)
Definition corpus_examples (word2id label2id : pydict string nat) (oov_id : nat)
    (x y : corpus) : list (list nat * list nat) :=
  zip (word_ids word2id oov_id <$> x) (tag_ids label2id <$> y).

(** A corpus in which no sentence is longer than the one before it. *)
Definition descending (x : corpus) : Prop :=
  ∀ i a b, x !! i = Some a → x !! S i = Some b → length b ≤ length a.

(** A tag of the BIO scheme: ["O"], or [B-] or [I-] in front of a base
    label that [purify] leaves as it is. *)
Definition bio_tag (tag : string) : Prop :=
  tag = "O" ∨ ∃ l, purify_item l = l ∧ (tag = "B-" +:+ l ∨ tag = "I-" +:+ l).

(** The loop of lines 95-96 from a dictionary that holds the two reserved
    entries: every id it assigns is 2 or more, so the ids 0 and 1 stay with
    the reserved tokens for as long as these are not assigned again. *)
Definition reserved_kept (d : pydict string nat) : Prop :=
  2 ≤ dict_len d ∧
  ∀ w i, dict_get w d = Some i → i < 2 →
         (i = 0 ∧ w = "<oov>") ∨ (i = 1 ∧ w = "<pad>").

(** The consecutive chunks of [batch_size] items that lines 172-173 cut a
    list into. *)
Definition chunks {A : Type} (batch_size : nat) (l : list A) : list (list A) :=
  (λ i, slice l (i * batch_size) ((i + 1) * batch_size))
  <$> seq 0 (nbatch_of (length l) batch_size).

(** Chunk [i] of a corpus as a batch, its examples in the order they have:
    the ids of every sentence and of its tags, padded to the longest
    sentence of the chunk, and the lengths of the sentences. *)
Definition batch_of_chunk (x y : corpus) (batch_size : nat)
    (word2id label2id : pydict string nat) (oov_id pad_id label_pad_id : nat)
    (i : nat) : tensor * tensor * list nat :=
  let sx := slice x (i * batch_size) ((i + 1) * batch_size) in
  let sy := slice y (i * batch_size) ((i + 1) * batch_size) in
  (pad_to (max_list (length <$> sx)) pad_id ∘ word_ids word2id oov_id <$> sx,
   pad_to (max_list (length <$> sx)) label_pad_id ∘ tag_ids label2id <$> sy,
   length <$> sx).

(** What a rendering loop has done when it stops: it has printed [lines]
    and nothing else, and it has either come to its end, with the file
    grown by these lines, or been ended by a failed lookup. *)
Definition printed (file lines : list string) (r : eff io_event (list string)) : Prop :=
  r.1 = Print <$> lines ∧
  (r.2 = Ok (file ++ lines) ∨ r.2 = Raise IndexError ∨ r.2 = Raise KeyError).

(** The best validation F1 of line 377 over a sequence of validation F1
    figures: a figure replaces the best one so far only when it is strictly
    greater. *)
Definition running_best (fs : list Q) (best0 : Q) : Q :=
  fold_left (λ best f, if Qgtb f best then f else best) fs best0.

(** The F1 of the last test evaluation, if there was one. *)
Definition last_test (ts : list (Q * Q * Q)) (test0 : Q) : Q :=
  match last ts with
  | Some (_, _, f1) => f1
  | None => test0
  end.

(** Every character of a string satisfies [p]. *)
Fixpoint all_chars (p : Ascii.ascii → bool) (s : string) : bool :=
  match s with
  | EmptyString => true
  | String a s' => p a && all_chars p s'
  end.

(** A token as a CoNLL file holds it: not empty and without whitespace. *)
Definition tidy_token (w : string) : Prop :=
  w ≠ EmptyString ∧ all_chars (λ c, negb (PyStr.is_space c)) w = true.

(** The lines of a file, block by block. *)
Definition conll_lines (content : string) : list string :=
  concat (PyStr.split_by (Ascii.eqb PyStr.newline)
          <$> PyStr.split2 PyStr.newline PyStr.newline content).

(** A line that [load_conll_data] accepts: blank, or two fields. *)
Definition conll_line_ok (line : string) : Prop :=
  PyStr.strip line = EmptyString ∨ length (PyStr.split (PyStr.strip line)) = 2.

(** [sep.join(pieces)] *)
Fixpoint join (sep : string) (pieces : list string) : string :=
  match pieces with
  | [] => EmptyString
  | p :: ps =>
      match ps with
      | [] => p
      | _ :: _ => p +:+ sep +:+ join sep ps
      end
  end.

(** A corpus written as a CoNLL file: one line [word label] per token,
    the sentences separated by an empty line. *)
Definition conll_render (x y : corpus) : string :=
  join (String PyStr.newline (String PyStr.newline EmptyString))
       (zip_with (λ words labels,
                    join (String PyStr.newline EmptyString)
                         (zip_with (λ word label, word +:+ " " +:+ label) words labels))
                 x y).

(** Every line feed of a string is followed by a character that is none. *)
Fixpoint block_ok (s : string) : bool :=
  match s with
  | EmptyString => true
  | String a s' =>
      (if Ascii.eqb a PyStr.newline
       then match s' with
            | EmptyString => false
            | String b _ => negb (Ascii.eqb b PyStr.newline)
            end
       else true) && block_ok s'
  end.

(** The lines of a corpus in the order of its sentences: for every token
    the word, its tag and the name of the tag predicted for it, and an
    empty line after every sentence. *)
Definition corpus_lines (id2label : pydict nat string) (x y : corpus) (outs : tensor)
  : list string :=
  concat ((λ s : list string * (list string * list nat),
             ((λ wtp : string * (string * nat),
                 wtp.1 +:+ " " +:+ wtp.2.1 +:+ " " +:+ tag_name id2label wtp.2.2)
              <$> zip s.1 (zip s.2.1 s.2.2)) ++ [EmptyString])
          <$> zip x (zip y outs)).

(** ** The prelude *)

Section PreludeFacts.
Context {A : Type}.

Lemma bind_Ok_inv {B : Type} (m : result A) (k : A → result B) (b : B) :
  m ≫= k = Ok b → ∃ a, m = Ok a ∧ k a = Ok b.
Proof. destruct m as [a|e]; [intros H; by exists a | discriminate]. Qed.

Lemma index_all_Ok (x : list A) (lst : list nat) (l : list A) :
  index_all x lst = Ok l ↔ Forall2 (λ i a, x !! i = Some a) lst l.
Proof.
  unfold index_all. rewrite <- mapM_Some.
  destruct (mapM _ lst); simpl; split; intros H; by simplify_eq.
Qed.

Lemma index_all_seq (x : list A) : index_all x (seq 0 (length x)) = Ok x.
Proof.
  apply index_all_Ok. apply Forall2_lookup. intros i.
  destruct (x !! i) as [a|] eqn:Hx.
  - rewrite (lookup_seq_lt 0 (length x) i) by eauto using lookup_lt_Some.
    by constructor.
  - rewrite lookup_seq_ge by by apply lookup_ge_None. constructor.
Qed.

Lemma sorted_perm (le : A → A → bool) (l : list A) : sorted le l ≡ₚ l.
Proof.
  assert (Hins : ∀ a k, insert_sorted le a k ≡ₚ a :: k).
  { intros a k. induction k as [|b k IH]; simpl; [done|].
    destruct (le a b); [done|]. rewrite IH. apply Permutation_swap. }
  induction l as [|a l IH]; simpl; [done|]. by rewrite Hins, IH.
Qed.

(** A list that is in order already is left as it is: the sort is
    stable. *)
Lemma sorted_id (le : A → A → bool) (l : list A) :
  Sorted (λ a b, le a b = true) l → sorted le l = l.
Proof.
  induction 1 as [|a l Hs IH Hhd]; simpl; [done|].
  rewrite IH. destruct Hhd as [|b l Hab]; simpl; [done|]. by rewrite Hab.
Qed.
End PreludeFacts.

(** ** Dictionaries *)

Section DictFacts.
Context {K V : Type} `{EqDecision K}.
Implicit Types (d : pydict K V) (k : K) (v : V).

Lemma dict_get_None k d : dict_get k d = None ↔ k ∉ d.*1.
Proof.
  induction d as [|[k' v'] d IH]; simpl.
  - split; [intros _; apply not_elem_of_nil | done].
  - rewrite not_elem_of_cons. destruct (decide (k = k')) as [Heq|Hne].
    + split; [discriminate | intros [? _]; done].
    + rewrite IH. split; [by intros ? | by intros [_ ?]].
Qed.

Lemma dict_get_Some k v d : dict_get k d = Some v → (k, v) ∈ d.
Proof.
  induction d as [|[k' v'] d IH]; simpl; [done|].
  destruct (decide (k = k')) as [->|]; intros H.
  - simplify_eq. apply list_elem_of_here.
  - apply list_elem_of_further; auto.
Qed.

Lemma dict_get_NoDup k v d : NoDup d.*1 → (k, v) ∈ d → dict_get k d = Some v.
Proof.
  induction d as [|[k' v'] d IH]; simpl; intros Hnd Hin.
  - by apply elem_of_nil in Hin.
  - apply NoDup_cons in Hnd as [Hk' Hnd]. apply elem_of_cons in Hin as [Heq|Hin].
    + simplify_eq. by rewrite decide_True.
    + rewrite decide_False; [auto|]. intros ->. apply Hk'.
      apply (list_elem_of_fmap_2 fst) in Hin. done.
Qed.

(** Assigning to a key that is not there appends the entry. *)
Lemma dict_set_fresh k v d : k ∉ d.*1 → dict_set k v d = d ++ [(k, v)].
Proof.
  induction d as [|[k' v'] d IH]; simpl; [done|].
  rewrite not_elem_of_cons. intros [Hne Hk].
  rewrite decide_False by done. by rewrite IH.
Qed.

End DictFacts.

(** ** [make_dict]: the label taxonomy *)

Lemma bio_entries_length n labels : length (bio_entries n labels) = 2 * length labels.
Proof. revert n. induction labels as [|l labels IH]; intros n; simpl; [done|]. rewrite IH. lia. Qed.

Lemma bio_entries_keys n labels key :
  key ∈ (bio_entries n labels).*1 ↔
  ∃ label, label ∈ labels ∧ (key = "B-" +:+ label ∨ key = "I-" +:+ label).
Proof.
  revert n. induction labels as [|l labels IH]; intros n; simpl.
  - split; [intros H; by apply elem_of_nil in H | intros (? & H & _); by apply elem_of_nil in H].
  - rewrite !elem_of_cons, IH. split.
    + intros [->|[->|(l' & Hl' & Hk)]].
      * exists l. split; [left|]; auto.
      * exists l. split; [left|]; auto.
      * exists l'. split; [right|]; auto.
    + intros (l' & Hl' & Hk). apply elem_of_cons in Hl' as [->|Hl'].
      * destruct Hk; auto.
      * right; right. eauto.
Qed.


Lemma bio_entries_NoDup_keys n labels : NoDup labels → NoDup (bio_entries n labels).*1.
Proof.
  revert n. induction labels as [|l labels IH]; intros n Hnd; simpl; [constructor|].
  apply NoDup_cons in Hnd as [Hl Hnd].
  apply NoDup_cons. split; [|apply NoDup_cons; split; [|by apply IH]].
  - rewrite not_elem_of_cons. split; [discriminate|].
    rewrite bio_entries_keys. intros (l' & Hl' & [Heq|Heq]); simplify_eq/=. done.
  - rewrite bio_entries_keys. intros (l' & Hl' & [Heq|Heq]); simplify_eq/=. done.
Qed.


(** The loop of lines 99-101 appends the [B-]/[I-] pairs of distinct labels
    that are not in the dictionary yet. *)
Lemma label_loop_fresh labels (d : pydict string nat) :
  NoDup labels →
  (∀ key, key ∈ d.*1 → key ∉ (bio_entries 0 labels).*1) →
  fold_left
    (λ label2id label,
       let label2id := dict_set ("B-" +:+ label) (dict_len label2id) label2id in
       dict_set ("I-" +:+ label) (dict_len label2id) label2id)
    labels d
  = d ++ bio_entries (length d) labels.
Proof.
  revert d. induction labels as [|l labels IH]; intros d Hnd Hd; simpl.
  - by rewrite app_nil_r.
  - apply NoDup_cons in Hnd as [Hl Hnd].
    assert (HB : "B-" +:+ l ∉ d.*1).
    { intros H. apply (Hd _ H). simpl. apply list_elem_of_here. }
    assert (HI : "I-" +:+ l ∉ d.*1).
    { intros H. apply (Hd _ H). simpl. apply list_elem_of_further, list_elem_of_here. }
    rewrite (dict_set_fresh _ _ d) by done. unfold dict_len. rewrite length_app. simpl.
    rewrite dict_set_fresh.
    2:{ rewrite fmap_app, elem_of_app. simpl. intros [H|H]; [done|].
        apply list_elem_of_singleton in H. simplify_eq/=. }
    rewrite IH; [ | done | ].
    + rewrite <- !app_assoc. simpl. rewrite !length_app. simpl.
      by replace (length d + 1) with (S (length d)) by lia;
         replace (length d + 2) with (S (S (length d))) by lia.
    + intros key Hkey Hin.
      rewrite !fmap_app, !elem_of_app in Hkey. simpl in Hkey.
      destruct Hkey as [[Hkey|Hkey]|Hkey].
      * apply (Hd _ Hkey). simpl. do 2 apply list_elem_of_further.
        apply bio_entries_keys. by apply bio_entries_keys in Hin.
      * apply list_elem_of_singleton in Hkey.
        apply bio_entries_keys in Hin as (l' & Hl' & [Heq|Heq]); by simplify_eq/=.
      * apply list_elem_of_singleton in Hkey.
        apply bio_entries_keys in Hin as (l' & Hl' & [Heq|Heq]); by simplify_eq/=.
Qed.

Lemma build_label2id_distinct labels :
  NoDup labels →
  build_label2id labels = [("<pad>", 0); ("O", 1)] ++ bio_entries 2 labels.
Proof.
  intros Hnd. unfold build_label2id. simpl.
  rewrite label_loop_fresh; [done | done |].
  intros key Hkey Hin. apply bio_entries_keys in Hin as (l & _ & Hl).
  simpl in Hkey. rewrite !elem_of_cons in Hkey.
  destruct Hkey as [->|[->|Hkey]]; [destruct Hl; simplify_eq/=.. |].
  by apply elem_of_nil in Hkey.
Qed.

Lemma sorted_Sorted {A : Type} (le : A → A → bool) (l : list A) :
  (∀ a b, le a b = true ∨ le b a = true) →
  Sorted (λ a b, le a b = true) (sorted le l).
Proof.
  intros Htotal.
  assert (Hins : ∀ a k, Sorted (λ a b, le a b = true) k →
                        Sorted (λ a b, le a b = true) (insert_sorted le a k)).
  { intros a k Hk. induction Hk as [|b k Hk IH Hhd]; simpl.
    - repeat constructor.
    - destruct (le a b) eqn:Hab.
      + constructor; [by constructor | by constructor].
      + constructor; [exact IH|].
        destruct Hhd as [|c k Hbc]; simpl.
        * constructor. destruct (Htotal a b); congruence.
        * destruct (le a c); constructor; [|done].
          destruct (Htotal a b); congruence. }
  induction l as [|a l IH]; simpl; [constructor | by apply Hins].
Qed.

Lemma elem_of_purify (tags : list string) (b : string) :
  b ∈ purify (list_to_set tags) ↔ ∃ tag, tag ∈ tags ∧ b = purify_item tag.
Proof.
  unfold purify. rewrite elem_of_list_to_set, list_elem_of_fmap.
  split; intros (tag & Hb & Htag); exists tag; split; try done.
  - by rewrite elem_of_elements, elem_of_list_to_set in Htag.
  - by rewrite elem_of_elements, elem_of_list_to_set.
Qed.


Lemma remove2_nil (c1 c2 : Ascii.ascii) : remove2 c1 c2 EmptyString = EmptyString.
Proof. done. Qed.

Lemma remove2_drop (c1 c2 : Ascii.ascii) (s : string) :
  remove2 c1 c2 (String c1 (String c2 s)) = remove2 c1 c2 s.
Proof. simpl. by rewrite !Ascii.eqb_refl. Qed.

Lemma remove2_keep (c1 c2 a : Ascii.ascii) (s : string) :
  a ≠ c1 → remove2 c1 c2 (String a s) = String a (remove2 c1 c2 s).
Proof.
  intros Hne. destruct s as [|b s]; [done|].
  cbn [remove2]. by rewrite (proj2 (Ascii.eqb_neq a c1) Hne).
Qed.

Lemma purify_item_B (l : string) : purify_item ("B-" +:+ l) = purify_item l.
Proof.
  unfold purify_item. change ("B-" +:+ l) with (String "B" (String "-" l)).
  by rewrite remove2_drop.
Qed.

Lemma purify_item_I (l : string) : purify_item ("I-" +:+ l) = purify_item l.
Proof.
  unfold purify_item. change ("I-" +:+ l) with (String "I" (String "-" l)).
  rewrite (remove2_keep "B" "-" "I") by done.
  rewrite (remove2_keep "B" "-" "-") by done. by rewrite remove2_drop.
Qed.






(** ** [create_one_batch]: padding *)

Section IndexFacts.
Context {A : Type}.

Lemma index_all_total (x : list A) (lst : list nat) :
  Forall (λ i, i < length x) lst → ∃ l, index_all x lst = Ok l.
Proof.
  induction 1 as [|i lst Hi _ [l IH]].
  - by exists [].
  - apply lookup_lt_is_Some in Hi as [a Ha]. exists (a :: l).
    apply index_all_Ok. constructor; [done | by apply index_all_Ok].
Qed.

Lemma index_all_length (x : list A) (lst : list nat) (l : list A) :
  index_all x lst = Ok l → length l = length lst.
Proof. intros H. apply index_all_Ok in H. symmetry. by eapply Forall2_length. Qed.

(** Indexing by a permutation of [range(len(x))] succeeds and permutes. *)
Lemma index_all_perm (x : list A) (lst : list nat) :
  lst ≡ₚ seq 0 (length x) →
  ∃ l, index_all x lst = Ok l ∧ l ≡ₚ x.
Proof.
  intros Hp.
  destruct (index_all_total x lst) as [l Hl].
  { rewrite Hp. apply Forall_seq. lia. }
  exists l. split; [done|].
  apply index_all_Ok in Hl.
  destruct (Permutation_Forall2 Hp Hl) as (l' & Hll' & Hl').
  apply index_all_Ok in Hl'. rewrite index_all_seq in Hl'. by simplify_eq.
Qed.

Lemma index_all_lookup (x : list A) (lst : list nat) (l : list A) i k :
  index_all x lst = Ok l → lst !! i = Some k → l !! i = x !! k.
Proof.
  intros H Hi. apply index_all_Ok in H.
  destruct (Forall2_lookup_l _ _ _ _ _ H Hi) as (a & Ha & Hk). by rewrite Ha, Hk.
Qed.
End IndexFacts.

Lemma index_all_zip {A B : Type} (x : list A) (y : list B) (lst : list nat)
    (tx : list A) (ty : list B) :
  index_all x lst = Ok tx → index_all y lst = Ok ty →
  index_all (zip x y) lst = Ok (zip tx ty).
Proof.
  rewrite !index_all_Ok. intros Hx. revert ty.
  induction Hx as [|i a lst tx Hi _ IH]; intros ty Hy; inversion Hy; subst; simpl.
  - constructor.
  - constructor; [by apply lookup_zip_Some | by apply IH].
Qed.

Lemma bind_Ok {A B : Type} (a : A) (k : A → result B) : (Ok a ≫= k) = k a.
Proof. done. Qed.

Lemma bind_Raise {A B : Type} (e : exn) (k : A → result B) : (Raise e ≫= k) = Raise e.
Proof. done. Qed.

(** Run a computation over the results already known. *)
Ltac run_result := repeat (rewrite ?bind_Ok, ?bind_Raise; cbv beta).

Lemma for_each_result_cons {S A : Type} (body : S → A → result S) s a l :
  for_each body s (a :: l) = body s a ≫= λ s', for_each body s' l.
Proof. done. Qed.

Section FillTensor.
Context (value : string → result nat).

Lemma tensor_set_Ok (t : tensor) (i j v : nat) (row : list nat) :
  t !! i = Some row → j < length row →
  tensor_set t i j v = Ok (<[i := <[j := v]> row]> t).
Proof. intros Ht Hj. unfold tensor_set. rewrite Ht. simpl. by rewrite decide_True. Qed.

(** The inner loop writes the ids of one sentence over the left end of
    row [i] and leaves the rest of the row as it was. *)
Lemma fill_row (i : nat) (ws : list string) (vs : list nat) :
  Forall2 (λ w v, value w = Ok v) ws vs →
  ∀ (pre post : list nat) (t : tensor),
    t !! i = Some (pre ++ post) → length ws ≤ length post →
    for_each (λ t (jx : nat * string), v ← value jx.2; tensor_set t i jx.1 v)
             t (imap (λ j w, (length pre + j, w)) ws)
    = Ok (<[i := pre ++ vs ++ drop (length vs) post]> t).
Proof.
  induction 1 as [|w v ws vs Hv _ IH]; intros pre post t Ht Hlen; simpl.
  - rewrite drop_0, list_insert_id; done.
  - destruct post as [|p post]; simpl in Hlen; [lia|].
    rewrite Hv. simpl.
    rewrite (tensor_set_Ok _ _ _ _ _ Ht) by (rewrite length_app; simpl; lia).
    simpl. rewrite insert_app_r. simpl.
    rewrite (imap_ext _ (λ j w, (length (pre ++ [v]) + j, w))).
    2:{ intros j ? _. simpl. rewrite length_app. simpl. f_equal. lia. }
    rewrite (IH (pre ++ [v]) post).
    + rewrite list_insert_insert_eq. by rewrite <- app_assoc.
    + rewrite list_lookup_insert_eq by eauto using lookup_lt_Some.
      by rewrite <- app_assoc.
    + lia.
Qed.

(** The outer loop over a freshly filled tensor: every sentence becomes
    its ids followed by the fill value. *)
Lemma fill_rows (m pad : nat) (xs : corpus) (vss : tensor) :
  Forall2 (Forall2 (λ w v, value w = Ok v)) xs vss →
  Forall (λ x_i, length x_i ≤ m) xs →
  ∀ (done : tensor) (k : nat),
    length xs ≤ k →
    for_each
      (λ t (ix : nat * list string),
         for_each (λ t (jx : nat * string), v ← value jx.2; tensor_set t ix.1 jx.1 v)
                  t (enumerate ix.2))
      (done ++ replicate k (replicate m pad))
      (imap (λ i x_i, (length done + i, x_i)) xs)
    = Ok (done ++ (pad_to m pad <$> vss)
               ++ replicate (k - length xs) (replicate m pad)).
Proof.
  induction 1 as [|x_i vs xs vss Hvs _ IH]; intros Hm done k Hk; simpl.
  - by rewrite Nat.sub_0_r.
  - apply Forall_cons in Hm as [Hx_i Hm].
    destruct k as [|k]; simpl in Hk; [lia|]. simpl.
    pose proof (fill_row (length done + 0) x_i vs Hvs [] (replicate m pad)
                  (done ++ replicate m pad :: replicate k (replicate m pad))) as Hrow.
    simpl in Hrow. change (imap _ x_i) with (enumerate x_i) in Hrow. rewrite Hrow.
    2:{ rewrite lookup_app_r by lia. by replace (length done + 0 - length done) with 0 by lia. }
    2:{ by rewrite length_replicate. }
    simpl. rewrite insert_app_r. simpl.
    rewrite (imap_ext _ (λ i x_i, (length (done ++ [pad_to m pad vs]) + i, x_i))).
    2:{ intros j ? _. simpl. rewrite length_app. simpl. f_equal. lia. }
    replace (done ++ (vs ++ drop (length vs) (replicate m pad)) :: replicate k (replicate m pad))
      with ((done ++ [pad_to m pad vs]) ++ replicate k (replicate m pad)).
    2:{ rewrite <- app_assoc. simpl. unfold pad_to. by rewrite drop_replicate. }
    rewrite IH by (done || lia). by rewrite <- app_assoc.
Qed.

Lemma fill_tensor_full (m pad : nat) (x : corpus) (vss : tensor) :
  Forall2 (Forall2 (λ w v, value w = Ok v)) x vss →
  Forall (λ x_i, length x_i ≤ m) x →
  fill_tensor value (full (length x) m pad) x = Ok (pad_to m pad <$> vss).
Proof.
  intros Hv Hm. unfold fill_tensor, full.
  pose proof (fill_rows m pad x vss Hv Hm [] (length x) (le_n _)) as H.
  simpl in H. change (imap _ x) with (enumerate x) in H.
  rewrite H. by rewrite Nat.sub_diag, app_nil_r.
Qed.
End FillTensor.

Lemma max_list_perm (l k : list nat) : l ≡ₚ k → max_list l = max_list k.
Proof.
  intros Hp. destruct l as [|a l].
  - by apply Permutation_nil_l in Hp as ->.
  - assert (Hk : k ≠ []) by (intros ->; by apply Permutation_nil_r in Hp).
    apply Nat.le_antisymm; apply max_list_elem_of_le.
    + rewrite <- Hp. by apply max_list_elem_of.
    + rewrite Hp. by apply max_list_elem_of.
Qed.

Lemma batch_order_perm sort x lst : batch_order sort x lst ≡ₚ lst.
Proof. destruct sort; simpl; [apply sorted_perm | done]. Qed.

(** What [create_one_batch] returns on a well-formed batch: the examples
    in batch order, each row padded to the longest example. *)
Lemma create_one_batch_Ok (x y : corpus) (word2id label2id : pydict string nat)
    (sort : bool) (oov pad label_pad : string) (oov_id pad_id label_pad_id : nat) :
  x ≠ [] →
  dict_get oov word2id = Some oov_id →
  dict_get pad word2id = Some pad_id →
  dict_get label_pad label2id = Some label_pad_id →
  aligned x y → known_tags label2id y →
  ∃ x' y' lens,
    index_all x (batch_order sort x (seq 0 (length x))) = Ok x' ∧
    index_all y (batch_order sort x (seq 0 (length x))) = Ok y' ∧
    index_all (length <$> x') (batch_order sort x (seq 0 (length x))) = Ok lens ∧
    aligned x' y' ∧
    create_one_batch x y word2id label2id sort oov pad label_pad
    = Ok (pad_to (max_list (length <$> x)) pad_id ∘ word_ids word2id oov_id <$> x',
          pad_to (max_list (length <$> x)) label_pad_id ∘ tag_ids label2id <$> y',
          lens).
Proof.
  intros Hne Hoov Hpad Hlpad Hal Hknown.
  unfold create_one_batch. fold (batch_order sort x (seq 0 (length x))).
  set (lst := batch_order sort x (seq 0 (length x))).
  assert (Hlst : lst ≡ₚ seq 0 (length x)) by apply batch_order_perm.
  destruct (index_all_perm x lst Hlst) as (x' & Hx' & Hpx).
  destruct (index_all_perm y lst) as (y' & Hy' & Hpy).
  { by rewrite <- (Forall2_length _ _ _ Hal). }
  assert (Hlenx' : length x' = length x) by by rewrite Hpx.
  destruct (index_all_perm (length <$> x') lst) as (lens & Hlens & Hpl).
  { by rewrite length_fmap, Hlenx'. }
  assert (Hal' : aligned x' y').
  { apply Forall2_same_length_lookup_2.
    - by rewrite (index_all_length _ _ _ Hx'), (index_all_length _ _ _ Hy').
    - intros i x_i y_i Hxi Hyi.
      destruct (lookup_lt_is_Some_2 lst i) as [k Hk].
      { rewrite <- (index_all_length _ _ _ Hx'). eauto using lookup_lt_Some. }
      rewrite (index_all_lookup _ _ _ _ _ Hx' Hk) in Hxi.
      rewrite (index_all_lookup _ _ _ _ _ Hy' Hk) in Hyi.
      by apply (Forall2_lookup_lr _ _ _ _ _ _ Hal Hxi Hyi). }
  exists x', y', lens. do 4 (split; [done|]).
  rewrite Hx'. run_result. rewrite Hy'. run_result. rewrite Hlens. run_result.
  assert (Hmax : max_list lens = max_list (length <$> x)).
  { apply max_list_perm. by rewrite Hpl, Hpx. }
  assert (Hlens_ne : lens ≠ []).
  { intros ->. apply Permutation_length in Hpl, Hpx.
    rewrite length_fmap in Hpl. simpl in Hpl. destruct x; [done | simpl in *; lia]. }
  replace (py_max lens) with (Ok (max_list lens)) by by destruct lens.
  run_result. rewrite Hoov, Hpad, Hmax.
  assert (Hlong : Forall (λ x_i : list string, length x_i ≤ max_list (length <$> x)) x').
  { rewrite Hpx. apply Forall_forall. intros x_i Hin.
    apply max_list_elem_of_le, list_elem_of_fmap. eauto. }
  rewrite <- Hlenx'.
  rewrite (fill_tensor_full _ _ _ x' (word_ids word2id oov_id <$> x')); [|
    apply Forall2_fmap_r, Forall_Forall2_diag, Forall_forall; intros x_i _;
    apply Forall2_fmap_r, Forall_Forall2_diag, Forall_forall; by intros w _ | done].
  run_result. rewrite Hlpad. simpl or_raise. run_result.
  replace (length x') with (length y') by (symmetry; by eapply Forall2_length).
  rewrite (fill_tensor_full _ _ _ y' (tag_ids label2id <$> y')).
  - run_result. by rewrite <- !list_fmap_compose.
  - apply Forall2_fmap_r, Forall_Forall2_diag.
    assert (Hk' : known_tags label2id y') by (unfold known_tags; by rewrite Hpy).
    eapply Forall_impl; [exact Hk'|]. intros y_i Hy_i. simpl.
    apply Forall2_fmap_r, Forall_Forall2_diag.
    eapply Forall_impl; [exact Hy_i|]. intros tag [idx Hidx]. simpl.
    unfold dict_item. by rewrite Hidx.
  - apply Forall_forall. intros y_i Hin.
    apply list_elem_of_lookup in Hin as [i Hi].
    destruct (Forall2_lookup_r _ _ _ _ _ Hal' Hi) as (x_i & Hxi & <-).
    eapply (proj1 (Forall_forall _ _) Hlong), list_elem_of_lookup_2, Hxi.
Qed.

Lemma pad_to_length (m pad : nat) (ids : list nat) :
  length ids ≤ m → length (pad_to m pad ids) = m.
Proof. intros H. unfold pad_to. rewrite length_app, length_replicate. lia. Qed.

Lemma pad_to_lookup_l (m pad : nat) (ids : list nat) (j : nat) :
  j < length ids → pad_to m pad ids !! j = ids !! j.
Proof. intros H. unfold pad_to. by rewrite lookup_app_l. Qed.

Lemma pad_to_lookup_r (m pad : nat) (ids : list nat) (j : nat) :
  length ids ≤ j < m → pad_to m pad ids !! j = Some pad.
Proof.
  intros H. unfold pad_to. rewrite lookup_app_r by lia.
  apply lookup_replicate_2. lia.
Qed.

(** C3.  On a non-empty batch whose examples have as many tags as tokens
    and whose tags all have an id, [create_one_batch] returns; row [i] of
    both tensors belongs to the example that the batch order puts at [i];
    the positions below the length of that example hold the [word2id] id of
    its tokens (the out-of-vocabulary id for a token without one) and the
    [label2id] id of its tags, and the positions from there up to the
    longest length in the batch hold the pad id and the pad-label id. *)
Theorem create_one_batch_padding (x y : corpus)
    (word2id label2id : pydict string nat) (sort : bool)
    (oov pad label_pad : string) (oov_id pad_id label_pad_id : nat) :
  x ≠ [] →
  dict_get oov word2id = Some oov_id →
  dict_get pad word2id = Some pad_id →
  dict_get label_pad label2id = Some label_pad_id →
  aligned x y → known_tags label2id y →
  ∃ batch_x batch_y lens,
    create_one_batch x y word2id label2id sort oov pad label_pad
      = Ok (batch_x, batch_y, lens) ∧
    length batch_x = length x ∧ length batch_y = length x ∧
    batch_order sort x (seq 0 (length x)) ≡ₚ seq 0 (length x) ∧
    ∀ i l x_l y_l,
      batch_order sort x (seq 0 (length x)) !! i = Some l →
      x !! l = Some x_l → y !! l = Some y_l →
      ∃ row_x row_y,
        batch_x !! i = Some row_x ∧ batch_y !! i = Some row_y ∧
        length row_x = max_list (length <$> x) ∧
        length row_y = max_list (length <$> x) ∧
        length x_l ≤ max_list (length <$> x) ∧
        (∀ j w, x_l !! j = Some w →
                row_x !! j = Some (default oov_id (dict_get w word2id))) ∧
        (∀ j, length x_l ≤ j < max_list (length <$> x) → row_x !! j = Some pad_id) ∧
        (∀ j tag, y_l !! j = Some tag →
                  is_Some (dict_get tag label2id) ∧ row_y !! j = dict_get tag label2id) ∧
        (∀ j, length x_l ≤ j < max_list (length <$> x) →
              row_y !! j = Some label_pad_id).
Proof.
  intros Hne Hoov Hpad Hlpad Hal Hknown.
  destruct (create_one_batch_Ok x y word2id label2id sort oov pad label_pad
              oov_id pad_id label_pad_id) as (x' & y' & lens & Hx' & Hy' & _ & _ & Hrun);
    try done.
  pose proof (batch_order_perm sort x (seq 0 (length x))) as Hperm.
  assert (Hlen : length (batch_order sort x (seq 0 (length x))) = length x)
    by by rewrite Hperm, length_seq.
  eexists _, _, _. split; [exact Hrun|].
  rewrite !length_fmap, (index_all_length _ _ _ Hx'), (index_all_length _ _ _ Hy').
  do 3 (split; [done|]).
  intros i l x_l y_l Hi Hxl Hyl.
  pose proof (index_all_lookup _ _ _ _ _ Hx' Hi) as Hxi. rewrite Hxl in Hxi.
  pose proof (index_all_lookup _ _ _ _ _ Hy' Hi) as Hyi. rewrite Hyl in Hyi.
  assert (Hxy : length x_l = length y_l)
    by apply (Forall2_lookup_lr _ _ _ _ _ _ Hal Hxl Hyl).
  assert (Hshort : length x_l ≤ max_list (length <$> x)).
  { apply max_list_elem_of_le, list_elem_of_fmap. exists x_l.
    split; [done | by eapply list_elem_of_lookup_2]. }
  assert (Hknown_l : Forall (λ tag, is_Some (dict_get tag label2id)) y_l).
  { eapply (proj1 (Forall_forall _ _) Hknown), list_elem_of_lookup_2, Hyl. }
  eexists _, _. rewrite !list_lookup_fmap, Hxi, Hyi. simpl.
  unfold word_ids, tag_ids.
  do 2 (split; [done|]).
  split; [apply pad_to_length; by rewrite length_fmap|].
  split; [apply pad_to_length; rewrite length_fmap; lia|].
  split; [done|]. split; [|split; [|split]].
  - intros j w Hj. rewrite pad_to_lookup_l.
    + by rewrite list_lookup_fmap, Hj.
    + rewrite length_fmap. eauto using lookup_lt_Some.
  - intros j Hj. apply pad_to_lookup_r. by rewrite length_fmap.
  - intros j tag Hj.
    assert (Htag : is_Some (dict_get tag label2id)).
    { eapply (proj1 (Forall_forall _ _) Hknown_l), list_elem_of_lookup_2, Hj. }
    split; [done|]. rewrite pad_to_lookup_l.
    + rewrite list_lookup_fmap, Hj. simpl.
      by destruct Htag as [idx ->].
    + rewrite length_fmap. eauto using lookup_lt_Some.
  - intros j Hj. apply pad_to_lookup_r. rewrite length_fmap. lia.
Qed.

Lemma create_one_batch_padding_witness :
  ∃ batch_x batch_y lens,
    create_one_batch [["a"]; ["b"; "zz"]] [["O"]; ["B-X"; "I-X"]]
      [("<oov>", 0); ("<pad>", 1); ("a", 2); ("b", 3)]
      [("<pad>", 0); ("O", 1); ("B-X", 2); ("I-X", 3)]
      true "<oov>" "<pad>" "<pad>"
    = Ok (batch_x, batch_y, lens) ∧
    length batch_x = 2 ∧ length batch_y = 2.
Proof.
  destruct (create_one_batch_padding [["a"]; ["b"; "zz"]] [["O"]; ["B-X"; "I-X"]]
              [("<oov>", 0); ("<pad>", 1); ("a", 2); ("b", 3)]
              [("<pad>", 0); ("O", 1); ("B-X", 2); ("I-X", 3)]
              true "<oov>" "<pad>" "<pad>" 0 1 0)
    as (bx & by_ & lens & Hrun & Hlx & Hly & _).
  - discriminate.
  - reflexivity.
  - reflexivity.
  - reflexivity.
  - repeat constructor.
  - repeat constructor; eexists; reflexivity.
  - exists bx, by_, lens. split; [exact Hrun|]. split; [exact Hlx | exact Hly].
Defined.

(** The lengths returned with the tensors are those of the reordered
    examples indexed by [lst] once more (line 137): when the sort moves an
    example, they are not in the order of the rows.  Here the rows hold
    the sentences of two tokens and of one token, and the lengths returned
    are 1 and 2.  [create_batches] hands over examples that its own sort
    has already put in descending order, which the stable sort of line 133
    leaves in place. *)
Lemma create_one_batch_lens_reindexed :
  create_one_batch [["a"]; ["a"; "b"]] [["O"]; ["O"; "B-X"]]
    Demo.word2id Demo.label2id true "<oov>" "<pad>" "<pad>"
  = Ok ([[2; 3]; [2; 1]], [[1; 2]; [1; 0]], [1; 2]).
Proof. by vm_compute. Qed.

(** ** [create_batches] *)

Lemma nbatch_of_spec (n batch_size : nat) :
  1 ≤ n → 1 ≤ batch_size →
  nbatch_of n batch_size = (n - 1) / batch_size + 1.
Proof.
  intros Hn Hb. unfold nbatch_of.
  replace (Z.of_nat n - 1)%Z with (Z.of_nat (n - 1)) by lia.
  rewrite <- Nat2Z.inj_div. lia.
Qed.

(** [nbatch] is the ceiling of [n / batch_size]. *)
Lemma nbatch_of_ceil (n batch_size : nat) :
  1 ≤ n → 1 ≤ batch_size →
  (nbatch_of n batch_size - 1) * batch_size < n ≤ nbatch_of n batch_size * batch_size.
Proof.
  intros Hn Hb. rewrite nbatch_of_spec by done.
  pose proof (Nat.div_mod (n - 1) batch_size ltac:(lia)) as Hdm.
  pose proof (Nat.mod_upper_bound (n - 1) batch_size ltac:(lia)) as Hmod.
  nia.
Qed.

Lemma nbatch_of_chunk_start (n batch_size i : nat) :
  1 ≤ n → 1 ≤ batch_size → i < nbatch_of n batch_size → i * batch_size < n.
Proof.
  intros Hn Hb Hi. pose proof (nbatch_of_ceil n batch_size Hn Hb). nia.
Qed.

Lemma batch_step_Ok (x y : corpus) (text : option corpus) (batch_size : nat)
    (word2id label2id : pydict string nat) (sort : bool) (b : batches) (i : nat)
    (bx by_ : tensor) (blens : list nat) :
  batch_at x y batch_size word2id label2id sort i = Ok (bx, by_, blens) →
  batch_step x y text batch_size word2id label2id sort b i
  = Ok {| batches_x := batches_x b ++ [bx];
          batches_y := batches_y b ++ [by_];
          batches_lens := batches_lens b ++ [blens];
          batches_text :=
            match text with
            | Some text =>
                batches_text b ++ [slice text (i * batch_size) ((i + 1) * batch_size)]
            | None => batches_text b
            end;
          sum_len := sum_len b + sum_list blens |}.
Proof. unfold batch_at, batch_step. by intros ->. Qed.

(** The loop of lines 172-181 appends batch after batch. *)
Lemma batch_loop (x y : corpus) (text : option corpus) (batch_size : nat)
    (word2id label2id : pydict string nat) (sort : bool)
    (idxs : list nat) (rs : list (tensor * tensor * list nat)) :
  Forall2 (λ i r, batch_at x y batch_size word2id label2id sort i = Ok r) idxs rs →
  ∀ b,
    for_each (batch_step x y text batch_size word2id label2id sort) b idxs
    = Ok {| batches_x := batches_x b ++ rs.*1.*1;
            batches_y := batches_y b ++ rs.*1.*2;
            batches_lens := batches_lens b ++ rs.*2;
            batches_text :=
              match text with
              | Some text =>
                  batches_text b
                  ++ ((λ i, slice text (i * batch_size) ((i + 1) * batch_size)) <$> idxs)
              | None => batches_text b
              end;
            sum_len := sum_len b + sum_list (sum_list <$> rs.*2) |}.
Proof.
  induction 1 as [|i [[bx by_] blens] idxs rs Hr _ IH]; intros b.
  - simpl. destruct b, text; simpl; by rewrite ?app_nil_r, Nat.add_0_r.
  - rewrite for_each_result_cons, (batch_step_Ok _ _ _ _ _ _ _ _ _ _ _ _ Hr).
    run_result. rewrite IH. simpl.
    destruct text; by rewrite <- !app_assoc, <- Nat.add_assoc.
Qed.

Lemma Forall_exists_results {A B : Type} (f : A → result B) (l : list A) :
  Forall (λ a, ∃ b, f a = Ok b) l → ∃ bs, Forall2 (λ a b, f a = Ok b) l bs.
Proof.
  induction 1 as [|a l [b Hb] _ [bs IH]]; [by exists [] | exists (b :: bs); by constructor].
Qed.

Section SliceFacts.
Context {A : Type}.

Lemma slice_lookup (x : list A) (start_id end_id j : nat) :
  j < end_id - start_id → slice x start_id end_id !! j = x !! (start_id + j).
Proof. intros H. unfold slice. by rewrite lookup_take_lt, lookup_drop. Qed.

Lemma slice_length (x : list A) (start_id end_id : nat) :
  length (slice x start_id end_id) = (end_id - start_id) `min` (length x - start_id).
Proof. unfold slice. by rewrite length_take, length_drop. Qed.

Lemma slice_nonempty (x : list A) (start_id end_id : nat) :
  start_id < end_id → start_id < length x → slice x start_id end_id ≠ [].
Proof.
  intros H1 H2 Heq. apply (f_equal length) in Heq.
  rewrite slice_length in Heq. simpl in Heq. lia.
Qed.

Lemma slice_elem_of (x : list A) (start_id end_id : nat) (a : A) :
  a ∈ slice x start_id end_id → a ∈ x.
Proof.
  unfold slice. intros H. apply list_elem_of_lookup in H as [j Hj].
  apply lookup_take_Some in Hj as [Hj _]. rewrite lookup_drop in Hj.
  by eapply list_elem_of_lookup_2.
Qed.
End SliceFacts.

Lemma aligned_slice (x y : corpus) (start_id end_id : nat) :
  aligned x y → aligned (slice x start_id end_id) (slice y start_id end_id).
Proof. intros H. unfold aligned, slice. by apply Forall2_take, Forall2_drop. Qed.

Lemma known_tags_slice (label2id : pydict string nat) (y : corpus) (start_id end_id : nat) :
  known_tags label2id y → known_tags label2id (slice y start_id end_id).
Proof.
  unfold known_tags. rewrite !Forall_forall. intros H y_i Hin.
  eapply H, slice_elem_of, Hin.
Qed.

(** Every batch of a well-formed corpus can be built. *)
Lemma batch_at_Ok (x y : corpus) (batch_size : nat)
    (word2id label2id : pydict string nat) (sort : bool) (i : nat) :
  1 ≤ batch_size → i * batch_size < length x →
  reserved_ids word2id label2id → aligned x y → known_tags label2id y →
  ∃ r, batch_at x y batch_size word2id label2id sort i = Ok r.
Proof.
  intros Hb Hi ([oov_id Hoov] & [pad_id Hpad] & [lpad_id Hlpad]) Hal Hknown.
  destruct (create_one_batch_Ok
              (slice x (i * batch_size) ((i + 1) * batch_size))
              (slice y (i * batch_size) ((i + 1) * batch_size))
              word2id label2id sort "<oov>" "<pad>" "<pad>" oov_id pad_id lpad_id)
    as (x' & y' & lens & _ & _ & _ & _ & Hrun); try done.
  - apply slice_nonempty; [lia | done].
  - by apply aligned_slice.
  - by apply known_tags_slice.
  - eexists. exact Hrun.
Qed.

Lemma aligned_index_all (x y x' y' : corpus) (lst : list nat) :
  aligned x y → index_all x lst = Ok x' → index_all y lst = Ok y' → aligned x' y'.
Proof.
  intros Hal Hx' Hy'. apply Forall2_same_length_lookup_2.
  - by rewrite (index_all_length _ _ _ Hx'), (index_all_length _ _ _ Hy').
  - intros i x_i y_i Hxi Hyi.
    destruct (lookup_lt_is_Some_2 lst i) as [k Hk].
    { rewrite <- (index_all_length _ _ _ Hx'). eauto using lookup_lt_Some. }
    rewrite (index_all_lookup _ _ _ _ _ Hx' Hk) in Hxi.
    rewrite (index_all_lookup _ _ _ _ _ Hy' Hk) in Hyi.
    by apply (Forall2_lookup_lr _ _ _ _ _ _ Hal Hxi Hyi).
Qed.

(** Without a text the loop never appends to [batches_text]. *)
Lemma batch_loop_without_text (x y : corpus) (batch_size : nat)
    (word2id label2id : pydict string nat) (sort : bool) (idxs : list nat) :
  ∀ b b',
    for_each (batch_step x y None batch_size word2id label2id sort) b idxs = Ok b' →
    batches_text b' = batches_text b.
Proof.
  induction idxs as [|i idxs IH]; intros b b' Hrun.
  - by injection Hrun as <-.
  - rewrite for_each_result_cons in Hrun.
    apply bind_Ok_inv in Hrun as (b1 & Hstep & Hrun).
    rewrite (IH _ _ Hrun). unfold batch_step in Hstep.
    apply bind_Ok_inv in Hstep as ([[bx by_] blens] & _ & Hb1).
    by injection Hb1 as <-.
Qed.

Lemma index_all_nil_nonempty {A : Type} (lst : list nat) :
  lst ≠ [] → index_all (A := A) [] lst = Raise IndexError.
Proof. by destruct lst. Qed.

(** Every batch of a well-formed corpus is built, in whatever order the
    shuffle and the sort arrange the examples. *)
Lemma batches_built (x y : corpus) (batch_size : nat)
    (word2id label2id : pydict string nat) (sort : bool) (lst : list nat) :
  x ≠ [] → 1 ≤ batch_size → lst ≡ₚ seq 0 (length x) →
  reserved_ids word2id label2id → aligned x y → known_tags label2id y →
  ∃ x' y' rs,
    index_all x lst = Ok x' ∧ index_all y lst = Ok y' ∧
    x' ≡ₚ x ∧ y' ≡ₚ y ∧ aligned x' y' ∧
    Forall2 (λ i r, batch_at x' y' batch_size word2id label2id sort i = Ok r)
            (seq 0 (nbatch_of (length x') batch_size)) rs.
Proof.
  intros Hne Hb Hlst Hres Hal Hknown.
  destruct (index_all_perm x lst Hlst) as (x' & Hx' & Hpx).
  destruct (index_all_perm y lst) as (y' & Hy' & Hpy).
  { by rewrite <- (Forall2_length _ _ _ Hal). }
  assert (Hal' : aligned x' y') by eauto using aligned_index_all.
  assert (Hn : 1 ≤ length x').
  { rewrite Hpx. destruct x; [done | simpl; lia]. }
  destruct (Forall_exists_results
              (batch_at x' y' batch_size word2id label2id sort)
              (seq 0 (nbatch_of (length x') batch_size))) as [rs Hrs].
  { apply Forall_seq. intros i Hi. apply batch_at_Ok; try done.
    - apply nbatch_of_chunk_start; [done | done | lia].
    - unfold known_tags. by rewrite Hpy. }
  by exists x', y', rs.
Qed.

(** C10.  With a non-empty corpus and a batch size of at least one,
    [create_batches] returns only if the batches are not sorted or a text
    is supplied; with [sort=True] and [text=None] a well-formed corpus
    gets as far as line 189, where the empty [batches_text] is indexed,
    and the call ends in [IndexError]. *)
Theorem create_batches_sort_needs_text (x y : corpus) (batch_size : nat)
    (word2id label2id : pydict string nat) (shuffle : bool)
    (shuffled pos_shuffled : list nat) :
  x ≠ [] → 1 ≤ batch_size →
  (shuffle = true → shuffled ≡ₚ seq 0 (length x)) →
  pos_shuffled ≡ₚ seq 0 (nbatch_of (length x) batch_size) →
  (∀ sort text r,
     create_batches x y batch_size word2id label2id sort shuffle text
                    shuffled pos_shuffled = Ok r →
     sort = false ∨ is_Some text) ∧
  (reserved_ids word2id label2id → aligned x y → known_tags label2id y →
   create_batches x y batch_size word2id label2id true shuffle None
                  shuffled pos_shuffled = Raise IndexError).
Proof.
  intros Hne Hb Hshuf Hpos.
  assert (Hn : 1 ≤ length x) by (destruct x; [done | simpl; lia]).
  assert (Hpos_ne : pos_shuffled ≠ []).
  { intros ->. apply Permutation_length in Hpos. rewrite length_seq in Hpos.
    rewrite nbatch_of_spec in Hpos by done. simpl in Hpos. lia. }
  split.
  - intros [|] [text|] r Hrun; eauto. exfalso.
    unfold create_batches in Hrun.
    apply bind_Ok_inv in Hrun as (x' & _ & Hrun).
    apply bind_Ok_inv in Hrun as (y' & _ & Hrun).
    rewrite bind_Ok in Hrun. destruct (decide (batch_size = 0)); [done|].
    apply bind_Ok_inv in Hrun as (b & Hloop & Hrun).
    apply bind_Ok_inv in Hrun as (out & Hout & _).
    apply batch_loop_without_text in Hloop. simpl in Hloop.
    unfold reorder_batches in Hout.
    apply bind_Ok_inv in Hout as (bxs & _ & Hout).
    apply bind_Ok_inv in Hout as (bys & _ & Hout).
    rewrite Hloop, index_all_nil_nonempty in Hout by done. done.
  - intros Hres Hal Hknown. unfold create_batches.
    set (lst := if shuffle then shuffled else seq 0 (length x)).
    assert (Hlst : sorted_by_key (neg_len x) lst ≡ₚ seq 0 (length x)).
    { unfold sorted_by_key. rewrite (sorted_perm _ lst). subst lst.
      destruct shuffle; auto. }
    destruct (batches_built x y batch_size word2id label2id true _
                Hne Hb Hlst Hres Hal Hknown)
      as (x' & y' & rs & -> & -> & Hpx & _ & _ & Hrs).
    run_result. rewrite decide_False by lia.
    fold (nbatch_of (length x') batch_size).
    rewrite (batch_loop _ _ _ _ _ _ _ _ _ Hrs). run_result.
    unfold reorder_batches. simpl.
    assert (Hlen : length rs = nbatch_of (length x) batch_size).
    { rewrite <- (Forall2_length _ _ _ Hrs), length_seq. by rewrite Hpx. }
    destruct (index_all_perm rs.*1.*1 pos_shuffled) as (bxs & -> & _).
    { by rewrite !length_fmap, Hlen. }
    destruct (index_all_perm rs.*1.*2 pos_shuffled) as (bys & -> & _).
    { by rewrite !length_fmap, Hlen. }
    run_result. by rewrite index_all_nil_nonempty.
Qed.

Lemma create_batches_sort_needs_text_witness :
  create_batches [["a"]; ["b"; "a"]; ["b"]] [["O"]; ["B-X"; "I-X"]; ["O"]] 2
    [("<oov>", 0); ("<pad>", 1); ("a", 2); ("b", 3)]
    [("<pad>", 0); ("O", 1); ("B-X", 2); ("I-X", 3)]
    true true None [2; 0; 1] [1; 0]
  = Raise IndexError.
Proof.
  apply (create_batches_sort_needs_text
           [["a"]; ["b"; "a"]; ["b"]] [["O"]; ["B-X"; "I-X"]; ["O"]] 2
           [("<oov>", 0); ("<pad>", 1); ("a", 2); ("b", 3)]
           [("<pad>", 0); ("O", 1); ("B-X", 2); ("I-X", 3)]
           true [2; 0; 1] [1; 0]).
  - discriminate.
  - lia.
  - intros _. apply (bool_decide_unpack _). vm_compute. reflexivity.
  - apply (bool_decide_unpack _). vm_compute. reflexivity.
  - repeat split; eexists; reflexivity.
  - repeat constructor.
  - repeat constructor; eexists; reflexivity.
Defined.

(** What line 183-191 do when a text is supplied: the token, label and
    length batches are reordered by [pos_lst] once, the text batches
    twice. *)
Lemma reorder_batches_with_text (text : corpus) (pos_lst : list nat) (b : batches)
    (bxs bys : list tensor) (blens : list (list nat)) (btext : option (list corpus)) :
  reorder_batches (Some text) pos_lst b = Ok (bxs, bys, blens, btext) →
  index_all (batches_x b) pos_lst = Ok bxs ∧
  index_all (batches_y b) pos_lst = Ok bys ∧
  index_all (batches_lens b) pos_lst = Ok blens ∧
  ∃ once twice,
    index_all (batches_text b) pos_lst = Ok once ∧
    index_all once pos_lst = Ok twice ∧ btext = Some twice.
Proof.
  unfold reorder_batches. intros H.
  apply bind_Ok_inv in H as (bxs' & Hx & H).
  apply bind_Ok_inv in H as (bys' & Hy & H).
  apply bind_Ok_inv in H as (once & Ht & H).
  apply bind_Ok_inv in H as (blens' & Hl & H).
  apply bind_Ok_inv in H as (btext' & Htt & H).
  injection H as <- <- <- <-.
  do 3 (split; [done|]). exists once.
  destruct (index_all once pos_lst) as [twice|] eqn:Htwice; [|done].
  exists twice. by injection Htt as <-.
Qed.

(** C5, the claim fails on the code.  Five examples in batches of two,
    sorted by length, with the batch order [1, 2, 0]: the first token
    batch holds ["b a"] and ["b"], the first text batch the sentence
    ["a"]; no position has the text of its token batch. *)
Theorem create_batches_text_misaligned :
  create_batches Demo.x Demo.y 2 Demo.word2id Demo.label2id true true
                 (Some Demo.x) [4; 3; 2; 1; 0] [1; 2; 0]
  = Ok ([[[3; 2]; [3; 1]]; [[2]]; [[2; 2; 2; 2]; [2; 3; 0; 1]]],
        [[[1; 1]; [2; 0]]; [[1]]; [[1; 1; 1; 1]; [1; 2; 3; 0]]],
        [[2; 1]; [1]; [4; 3]],
        Some [[["a"]];
              [["a"; "a"; "a"; "a"]; ["a"; "b"; "z"]];
              [["b"; "a"]; ["b"]]]).
Proof. by vm_compute. Qed.

(** C2, the claim fails on the code.  With the default arguments
    ([sort=True], [shuffle=True], [text=None]) five examples at batch size
    two give no batches: even when both shuffles leave the order as it is,
    the call ends in [IndexError]. *)
Theorem create_batches_default_arguments :
  create_batches Demo.x Demo.y 2 Demo.word2id Demo.label2id true true None
                 [0; 1; 2; 3; 4] [0; 1; 2]
  = Raise IndexError.
Proof. by vm_compute. Qed.

(** ** [create_batches]: coverage *)

Section SortedFacts.
Context {A : Type} (R : A → A → Prop).

Lemma Sorted_consecutive (l : list A) :
  Sorted R l ↔ ∀ i a b, l !! i = Some a → l !! S i = Some b → R a b.
Proof.
  split.
  - induction 1 as [|a l _ IH Hhd]; intros i a' b' Ha Hb; [done|].
    destruct i as [|i]; simpl in *.
    + injection Ha as <-. destruct Hhd as [|b l Hab]; [done|].
      by injection Hb as <-.
    + by eapply IH.
  - induction l as [|a l IH]; intros Hl; [constructor|].
    constructor.
    + apply IH. intros i a' b' Ha Hb. by apply (Hl (S i)).
    + destruct l as [|b l]; constructor. by apply (Hl 0).
Qed.
End SortedFacts.

Lemma sorted_by_key_consecutive {A : Type} (key : A → Z) (l : list A) :
  ∀ i a b, sorted_by_key key l !! i = Some a → sorted_by_key key l !! S i = Some b →
           (key a ≤ key b)%Z.
Proof.
  intros i a b Ha Hb.
  assert (Htotal : ∀ c d, (key c <=? key d)%Z = true ∨ (key d <=? key c)%Z = true).
  { intros c d. destruct (Zle_bool_total (key c) (key d)); auto. }
  pose proof (sorted_Sorted (λ c d, (key c <=? key d)%Z) l Htotal) as Hs.
  apply Z.leb_le.
  exact (proj1 (Sorted_consecutive _ _) Hs i a b Ha Hb).
Qed.

(** Indexing a corpus by indices sorted by [-len] leaves it descending. *)
Lemma index_all_descending (x x' : corpus) (lst : list nat) :
  index_all x (sorted_by_key (neg_len x) lst) = Ok x' → descending x'.
Proof.
  intros Hx' i a b Ha Hb. apply index_all_Ok in Hx'.
  destruct (Forall2_lookup_r _ _ _ _ _ Hx' Ha) as (j & Hj & Hja).
  destruct (Forall2_lookup_r _ _ _ _ _ Hx' Hb) as (j' & Hj' & Hjb).
  pose proof (sorted_by_key_consecutive _ _ _ _ _ Hj Hj') as Hkey.
  unfold neg_len in Hkey.
  rewrite (list_lookup_total_correct _ _ _ Hja),
    (list_lookup_total_correct _ _ _ Hjb) in Hkey. lia.
Qed.

Lemma descending_slice (x : corpus) (start_id end_id : nat) :
  descending x → descending (slice x start_id end_id).
Proof.
  intros Hx i a b Ha Hb. unfold slice in *.
  apply lookup_take_Some in Ha as [Ha _]. apply lookup_take_Some in Hb as [Hb _].
  rewrite lookup_drop in Ha, Hb. apply (Hx (start_id + i)); [done|].
  by replace (S (start_id + i)) with (start_id + S i) by lia.
Qed.

(** The stable sort of [create_one_batch] leaves a descending batch as it
    is. *)
Lemma batch_order_descending (sort : bool) (x : corpus) :
  sort = false ∨ descending x →
  batch_order sort x (seq 0 (length x)) = seq 0 (length x).
Proof.
  intros Hx. destruct sort; [|done]. destruct Hx as [|Hx]; [done|]. simpl.
  apply sorted_id, Sorted_consecutive. intros i a b Ha Hb.
  apply lookup_seq in Ha as [-> Hi]. apply lookup_seq in Hb as [-> Hi'].
  simpl. apply Z.leb_le. unfold neg_len.
  destruct (lookup_lt_is_Some_2 x i Hi) as [xa Hxa].
  destruct (lookup_lt_is_Some_2 x (S i) Hi') as [xb Hxb].
  rewrite (list_lookup_total_correct _ _ _ Hxa), (list_lookup_total_correct _ _ _ Hxb).
  pose proof (Hx i xa xb Hxa Hxb). lia.
Qed.

(** In a corpus that [create_batches] has arranged, batch [i] is chunk [i]
    in order: its rows are the padded ids of the examples of the chunk and
    its lengths are their lengths. *)
Lemma batch_at_in_order (x y : corpus) (batch_size : nat)
    (word2id label2id : pydict string nat) (sort : bool) (i : nat)
    (oov_id pad_id label_pad_id : nat) :
  1 ≤ batch_size → i * batch_size < length x →
  dict_get "<oov>" word2id = Some oov_id →
  dict_get "<pad>" word2id = Some pad_id →
  dict_get "<pad>" label2id = Some label_pad_id →
  aligned x y → known_tags label2id y →
  sort = false ∨ descending x →
  let sx := slice x (i * batch_size) ((i + 1) * batch_size) in
  let sy := slice y (i * batch_size) ((i + 1) * batch_size) in
  batch_at x y batch_size word2id label2id sort i
  = Ok (pad_to (max_list (length <$> sx)) pad_id ∘ word_ids word2id oov_id <$> sx,
        pad_to (max_list (length <$> sx)) label_pad_id ∘ tag_ids label2id <$> sy,
        length <$> sx).
Proof.
  intros Hb Hi Hoov Hpad Hlpad Hal Hknown Hdesc sx sy.
  destruct (create_one_batch_Ok sx sy word2id label2id sort "<oov>" "<pad>" "<pad>"
              oov_id pad_id label_pad_id)
    as (x' & y' & lens & Hx' & Hy' & Hlens & _ & Hrun); try done.
  - apply slice_nonempty; [lia | done].
  - by apply aligned_slice.
  - by apply known_tags_slice.
  - rewrite batch_order_descending in Hx', Hy', Hlens.
    2,3,4: destruct Hdesc; [by left | right; by apply descending_slice].
    assert (Hlen : length sy = length sx).
    { symmetry. eapply Forall2_length, aligned_slice, Hal. }
    rewrite index_all_seq in Hx'. injection Hx' as <-.
    rewrite <- Hlen, index_all_seq in Hy'. injection Hy' as <-.
    rewrite <- (length_fmap length sx), index_all_seq in Hlens. injection Hlens as <-.
    exact Hrun.
Qed.

Section ChunkFacts.
Context {A : Type}.

(** The chunks of a list, one after the other, are the list. *)
Lemma concat_slices (l : list A) (batch_size nbatch : nat) :
  length l ≤ nbatch * batch_size →
  concat ((λ i, slice l (i * batch_size) ((i + 1) * batch_size)) <$> seq 0 nbatch) = l.
Proof.
  intros Hlen.
  enough (Hgen : ∀ k,
            concat ((λ i, slice l (i * batch_size) ((i + 1) * batch_size)) <$> seq 0 k)
            = take (k * batch_size) l)
    by (rewrite Hgen; by apply take_ge).
  induction k as [|k IH]; [done|].
  rewrite seq_S, fmap_app, concat_app, IH. simpl. rewrite app_nil_r.
  unfold slice. replace ((k + 1) * batch_size - k * batch_size) with batch_size by lia.
  rewrite take_take_drop. f_equal. lia.
Qed.

Lemma slice_zip {B : Type} (l : list A) (k : list B) (start_id end_id : nat) :
  slice (zip l k) start_id end_id = zip (slice l start_id end_id) (slice k start_id end_id).
Proof.
  unfold slice. by rewrite <- zip_with_take, <- zip_with_drop.
Qed.

Lemma concat_perm (ls ks : list (list A)) : ls ≡ₚ ks → concat ls ≡ₚ concat ks.
Proof.
  induction 1 as [|l ls ks _ IH|l l' ls|ls ks ms _ IH1 _ IH2]; simpl.
  - done.
  - by rewrite IH.
  - rewrite !app_assoc. f_equiv. apply Permutation_app_comm.
  - by rewrite IH1.
Qed.

Lemma fmap_concat {B : Type} (f : A → B) (ls : list (list A)) :
  f <$> concat ls = concat (fmap (M := list) f <$> ls).
Proof. induction ls as [|l ls IH]; [done|]. simpl. by rewrite fmap_app, IH. Qed.

Lemma index_all_fmap {B : Type} (f : A → B) (l : list A) (lst : list nat) (l' : list A) :
  index_all l lst = Ok l' → index_all (f <$> l) lst = Ok (f <$> l').
Proof.
  rewrite !index_all_Ok. intros H. apply Forall2_fmap_r.
  eapply Forall2_impl; [exact H|]. intros i a Ha. simpl.
  by rewrite list_lookup_fmap, Ha.
Qed.
End ChunkFacts.

(** Cutting the padded rows at the lengths gives the ids back. *)
Lemma trim_padded_rows (f : list string → list nat) (m pad : nat) (s : corpus) :
  (∀ a, length (f a) = length a) →
  zip_with take (length <$> s) (pad_to m pad ∘ f <$> s) = f <$> s.
Proof.
  intros Hf. induction s as [|a s IH]; [done|].
  rewrite !fmap_cons. cbn [zip_with]. rewrite IH. f_equal.
  unfold pad_to. simpl. by rewrite <- (Hf a), take_app_length.
Qed.

Lemma batches_examples_triples (rs : list (tensor * tensor * list nat)) :
  batches_examples rs.*1.*1 rs.*1.*2 rs.*2
  = concat ((λ r, batch_examples r.1.1 r.1.2 r.2) <$> rs).
Proof.
  unfold batches_examples. f_equal.
  induction rs as [|[[bx by_] lens] rs IH]; [done|].
  rewrite !fmap_cons. cbn [zip zip_with fst snd]. f_equal. exact IH.
Qed.

(** X20.  Batch coverage.  When a text is supplied, whether the examples
    are shuffled and sorted or not, [create_batches] returns for every
    well-formed non-empty corpus and every batch size of at least one: as
    many batches as the ceiling of [n / batch_size], of the sizes of the
    chunks; the examples read back from the batches are, up to their
    order, the examples of the corpus, none lost and none twice, and so
    are the sentences of the text batches. *)
Lemma create_batches_coverage (x y text : corpus) (batch_size : nat)
    (word2id label2id : pydict string nat) (sort shuffle : bool)
    (shuffled pos_shuffled : list nat) (oov_id pad_id label_pad_id : nat) :
  x ≠ [] → 1 ≤ batch_size →
  (shuffle = true → shuffled ≡ₚ seq 0 (length x)) →
  (sort = true → pos_shuffled ≡ₚ seq 0 (nbatch_of (length x) batch_size)) →
  dict_get "<oov>" word2id = Some oov_id →
  dict_get "<pad>" word2id = Some pad_id →
  dict_get "<pad>" label2id = Some label_pad_id →
  aligned x y → known_tags label2id y → length text = length x →
  ∃ bxs bys blens btext,
    create_batches x y batch_size word2id label2id sort shuffle (Some text)
                   shuffled pos_shuffled = Ok (bxs, bys, blens, Some btext) ∧
    length bxs = nbatch_of (length x) batch_size ∧
    length <$> bxs
      ≡ₚ (λ i, batch_size `min` (length x - i * batch_size))
         <$> seq 0 (nbatch_of (length x) batch_size) ∧
    batches_examples bxs bys blens
      ≡ₚ corpus_examples word2id label2id oov_id x y ∧
    concat btext ≡ₚ text.
Proof.
  intros Hne Hb Hshuf Hpos Hoov Hpad Hlpad Hal Hknown Htext.
  assert (Hn : 1 ≤ length x) by (destruct x; [done | simpl; lia]).
  unfold create_batches.
  set (lst0 := if shuffle then shuffled else seq 0 (length x)).
  fold (batch_order sort x lst0). set (lst := batch_order sort x lst0).
  assert (Hlst : lst ≡ₚ seq 0 (length x)).
  { subst lst lst0. rewrite batch_order_perm. destruct shuffle; auto. }
  destruct (index_all_perm x lst Hlst) as (x' & Hx' & Hpx).
  destruct (index_all_perm y lst) as (y' & Hy' & Hpy).
  { by rewrite <- (Forall2_length _ _ _ Hal). }
  destruct (index_all_perm text lst) as (t' & Ht' & Hpt); [by rewrite Htext|].
  assert (Hal' : aligned x' y') by eauto using aligned_index_all.
  assert (Hknown' : known_tags label2id y') by (unfold known_tags; by rewrite Hpy).
  assert (Hlen' : length x' = length x) by by rewrite Hpx.
  assert (Hdesc : sort = false ∨ descending x').
  { subst lst. destruct sort; [right | by left]. by eapply index_all_descending. }
  rewrite Hx', Hy', Ht'. run_result. simpl fmap. run_result.
  rewrite decide_False by lia. fold (nbatch_of (length x') batch_size).
  rewrite Hlen'. set (nbatch := nbatch_of (length x) batch_size).
  set (chunk := λ (A : Type) (l : list A) (i : nat),
                  slice l (i * batch_size) ((i + 1) * batch_size)).
  set (rs := (λ i,
                (pad_to (max_list (length <$> chunk _ x' i)) pad_id
                 ∘ word_ids word2id oov_id <$> chunk _ x' i,
                 pad_to (max_list (length <$> chunk _ x' i)) label_pad_id
                 ∘ tag_ids label2id <$> chunk _ y' i,
                 length <$> chunk _ x' i)) <$> seq 0 nbatch).
  assert (Hrs : Forall2 (λ i r, batch_at x' y' batch_size word2id label2id sort i = Ok r)
                        (seq 0 nbatch) rs).
  { subst rs. apply Forall2_fmap_r, Forall_Forall2_diag, Forall_seq.
    intros i Hi. simpl. apply batch_at_in_order; try done.
    rewrite Hlen'. apply nbatch_of_chunk_start; [done | done | lia]. }
  rewrite (batch_loop _ _ _ _ _ _ _ _ _ Hrs). run_result. simpl.
  set (tb := (λ i, chunk _ t' i) <$> seq 0 nbatch).
  assert (Hcover : ∀ (A : Type) (l : list A),
            length l = length x → concat ((λ i, chunk A l i) <$> seq 0 nbatch) = l).
  { intros A l Hl. apply concat_slices. rewrite Hl.
    apply (nbatch_of_ceil (length x) batch_size); done. }
  assert (Hex : concat ((λ r : tensor * tensor * list nat,
                           batch_examples r.1.1 r.1.2 r.2) <$> rs)
                ≡ₚ corpus_examples word2id label2id oov_id x y).
  { subst rs. rewrite <- list_fmap_compose.
    rewrite (list_fmap_ext _ (λ i, prod_map (word_ids word2id oov_id) (tag_ids label2id)
                                    <$> chunk _ (zip x' y') i)).
    2:{ intros _ i _. simpl. unfold batch_examples.
        rewrite (trim_padded_rows (word_ids word2id oov_id))
          by (intros a; apply length_fmap).
        assert (Hlens : length <$> chunk _ x' i = length <$> chunk _ y' i).
        { apply list_eq_Forall2, Forall2_fmap.
          eapply Forall2_impl; [apply aligned_slice, Hal' | done]. }
        rewrite Hlens, (trim_padded_rows (tag_ids label2id))
          by (intros a; apply length_fmap).
        unfold chunk. by rewrite slice_zip, prod_map_zip. }
    transitivity (prod_map (word_ids word2id oov_id) (tag_ids label2id)
                  <$> concat ((λ i, chunk _ (zip x' y') i) <$> seq 0 nbatch)).
    { by rewrite fmap_concat, <- list_fmap_compose. }
    rewrite Hcover.
    2:{ rewrite length_zip, Hlen'. rewrite <- (Forall2_length _ _ _ Hal'), Hlen'. lia. }
    rewrite prod_map_zip. unfold corpus_examples.
    rewrite <- !prod_map_zip. apply fmap_Permutation.
    destruct (index_all_perm (zip x y) lst) as (z & Hz & Hpz).
    { rewrite length_zip, <- (Forall2_length _ _ _ Hal). by rewrite Nat.min_id. }
    rewrite (index_all_zip _ _ _ _ _ Hx' Hy') in Hz. by injection Hz as <-. }
  assert (Hsizes : length <$> rs.*1.*1
                   = (λ i, batch_size `min` (length x - i * batch_size)) <$> seq 0 nbatch).
  { subst rs. rewrite <- !list_fmap_compose. apply list_fmap_ext. intros _ i _. simpl.
    rewrite !length_fmap. unfold chunk. rewrite slice_length, Hlen'.
    replace ((i + 1) * batch_size - i * batch_size) with batch_size by lia. done. }
  assert (Htb : concat tb = t').
  { subst tb. apply Hcover. by rewrite Hpt. }
  assert (Hnonzero : length x' ≠ 0) by lia.
  destruct sort.
  - specialize (Hpos eq_refl). unfold reorder_batches. simpl.
    assert (Hlen_rs : length rs = nbatch) by (subst rs; by rewrite length_fmap, length_seq).
    destruct (index_all_perm rs pos_shuffled) as (rs' & Hrs' & Hprs); [by rewrite Hlen_rs|].
    rewrite (index_all_fmap _ _ _ _ (index_all_fmap _ _ _ _ Hrs')).
    rewrite (index_all_fmap _ _ _ _ (index_all_fmap _ _ _ _ Hrs')).
    rewrite (index_all_fmap _ _ _ _ Hrs'). run_result.
    change ((λ i, slice t' (i * batch_size) ((i + 1) * batch_size)) <$> seq 0 nbatch)
      with tb.
    destruct (index_all_perm tb pos_shuffled) as (tb1 & -> & Hptb1).
    { subst tb. by rewrite length_fmap, length_seq. }
    run_result.
    destruct (index_all_perm tb1 pos_shuffled) as (tb2 & -> & Hptb2).
    { rewrite Hptb1. subst tb. by rewrite length_fmap, length_seq. }
    simpl fmap. run_result.
    eexists _, _, _, _. destruct (decide (length x = 0)) as [Hz|_]; [lia|].
    split; [done|].
    split; [by rewrite !length_fmap, Hprs|].
    split; [by rewrite Hprs, Hsizes|].
    split; [by rewrite batches_examples_triples, Hprs|].
    rewrite (concat_perm _ _ Hptb2), (concat_perm _ _ Hptb1), Htb. done.
  - change ((λ i, slice t' (i * batch_size) ((i + 1) * batch_size)) <$> seq 0 nbatch)
      with tb.
    eexists _, _, _, _. destruct (decide (length x = 0)) as [Hz|_]; [lia|].
    split; [done|].
    split; [subst rs; by rewrite !length_fmap, length_seq|].
    split; [by rewrite Hsizes|].
    split; [by rewrite batches_examples_triples|].
    by rewrite Htb.
Qed.

Lemma create_batches_coverage_witness :
  ∃ bxs bys blens btext,
    create_batches Demo.x Demo.y 2 Demo.word2id Demo.label2id true true
                   (Some Demo.x) [3; 0; 4; 1; 2] [2; 0; 1]
      = Ok (bxs, bys, blens, Some btext) ∧
    length bxs = 3 ∧
    length <$> bxs ≡ₚ [2; 2; 1] ∧
    batches_examples bxs bys blens
      ≡ₚ corpus_examples Demo.word2id Demo.label2id 0 Demo.x Demo.y ∧
    concat btext ≡ₚ Demo.x.
Proof.
  apply (create_batches_coverage Demo.x Demo.y Demo.x 2 Demo.word2id Demo.label2id
           true true [3; 0; 4; 1; 2] [2; 0; 1] 0 1 0).
  - discriminate.
  - lia.
  - intros _. apply (bool_decide_unpack _). vm_compute. reflexivity.
  - intros _. apply (bool_decide_unpack _). vm_compute. reflexivity.
  - reflexivity.
  - reflexivity.
  - reflexivity.
  - repeat constructor.
  - repeat constructor; eexists; reflexivity.
  - reflexivity.
Defined.

(** The scenario of the specification, with a text supplied: five
    examples at batch size two give three batches of sizes 2, 2 and 1,
    each with its examples from the longest to the shortest. *)
Lemma create_batches_five_by_two :
  ∃ bxs bys blens btext,
    create_batches Demo.x Demo.y 2 Demo.word2id Demo.label2id true true
                   (Some Demo.x) [0; 1; 2; 3; 4] [0; 1; 2]
      = Ok (bxs, bys, blens, btext) ∧
    length <$> bxs = [2; 2; 1] ∧ blens = [[4; 3]; [2; 1]; [1]].
Proof. eexists _, _, _, _. split; [by vm_compute|]. done. Qed.

(** ** Comparisons of scores *)

Lemma Qgtb_lt (a b : Q) : Qgtb a b = true ↔ (b < a)%Q.
Proof.
  unfold Qgtb. rewrite negb_true_iff, <- not_true_iff_false, Qle_bool_iff.
  split; [apply Qnot_le_lt | apply Qlt_not_le].
Qed.

Lemma Qgtb_le (a b : Q) : Qgtb a b = false ↔ (a <= b)%Q.
Proof. unfold Qgtb. by rewrite negb_false_iff, Qle_bool_iff. Qed.

(** ** [ClassifyLayer.forward] *)

Lemma mapM_result_Ok {A B : Type} (f : A → result B) (l : list A) (k : list B) :
  mapM f l = Ok k ↔ Forall2 (λ a b, f a = Ok b) l k.
Proof.
  revert k. induction l as [|a l IH]; intros k; simpl.
  - split; [intros [= <-]; constructor | by inversion 1].
  - split.
    + intros H. apply bind_Ok_inv in H as (b & Hb & H).
      apply bind_Ok_inv in H as (k' & Hk' & H). injection H as <-.
      constructor; [done | by apply IH].
    + inversion 1 as [|? b ? k' Hb Hk']; subst.
      apply IH in Hk'. rewrite Hb. run_result. rewrite Hk'. by run_result.
Qed.

Module ClassifyLayerFacts.
Import ClassifyLayer.

(** [argmax_from] keeps the position of the largest score seen so far. *)
Lemma argmax_from_max (row : list Q) :
  ∀ (pre : list Q) (best_i : nat) (best : Q),
    pre !! best_i = Some best →
    (∀ j u, pre !! j = Some u → (u <= best)%Q) →
    ∃ v, (pre ++ row) !! argmax_from best_i best (length pre) row = Some v ∧
         ∀ j u, (pre ++ row) !! j = Some u → (u <= v)%Q.
Proof.
  induction row as [|q row IH]; intros pre best_i best Hbest Hmax; simpl.
  - exists best. rewrite app_nil_r. eauto.
  - replace (pre ++ q :: row) with ((pre ++ [q]) ++ row) by by rewrite <- app_assoc.
    replace (S (length pre)) with (length (pre ++ [q]))
      by (rewrite length_app; simpl; lia).
    destruct (Qgtb q best) eqn:Hq.
    + apply IH.
      * by rewrite lookup_app_r, Nat.sub_diag.
      * intros j u Hj. apply lookup_app_Some in Hj as [Hj|[_ Hj]].
        -- apply Qlt_le_weak. eapply Qle_lt_trans; [by eapply Hmax | by apply Qgtb_lt].
        -- apply list_lookup_singleton_Some in Hj as [_ <-]. apply Qle_refl.
    + apply IH.
      * by apply lookup_app_l_Some.
      * intros j u Hj. apply lookup_app_Some in Hj as [Hj|[_ Hj]].
        -- by eapply Hmax.
        -- apply list_lookup_singleton_Some in Hj as [_ <-]. by apply Qgtb_le.
Qed.

(** [argmax] returns the position of a largest score of the row. *)
Lemma argmax_max (row : list Q) (r : nat) :
  argmax row = Ok r →
  ∃ v, row !! r = Some v ∧ ∀ j u, row !! j = Some u → (u <= v)%Q.
Proof.
  destruct row as [|q row]; [done|]. intros [= <-].
  apply (argmax_from_max row [q] 0 q); [done|].
  intros j u Hj. apply list_lookup_singleton_Some in Hj as [_ <-]. apply Qle_refl.
Qed.

Section Forward.
Context {feature : Type}.
Variable hidden2tag : feature → list Q.
Variable logsoftmax : list Q → list Q.
Variable criterion : list (list (list Q)) → tensor → Q.

(** Evaluation mode with the pad label at id 0: every prediction is the
    id of a highest-scoring tag among the tags other than the pad label,
    and never the pad id. *)
Lemma forward_eval_pad_first (label2id : pydict string nat) (label_pad : string)
    (x : list (list feature)) (y tag_result : tensor) (loss : Q) :
  dict_get label_pad label2id = Some 0 →
  forward hidden2tag logsoftmax criterion false label2id label_pad x y
    = Ok (tag_result, loss) →
  Forall2 (Forall2 (λ feat tag,
             tag ≠ 0 ∧
             ∃ v, hidden2tag feat !! tag = Some v ∧
                  ∀ j u, 1 ≤ j → hidden2tag feat !! j = Some u → (u <= v)%Q))
          x tag_result.
Proof.
  intros Hpad. unfold forward, dict_item. rewrite Hpad. simpl or_raise.
  rewrite bind_Ok. rewrite decide_True by done. intros H.
  apply bind_Ok_inv in H as (tags & Htags & H). injection H as <- _.
  apply mapM_result_Ok, Forall2_fmap_l in Htags. apply Forall2_fmap_r.
  eapply Forall2_impl; [exact Htags|]. clear Htags.
  intros row tags_row Hrow. simpl in Hrow.
  apply mapM_result_Ok, Forall2_fmap_l in Hrow. apply Forall2_fmap_r.
  eapply Forall2_impl; [exact Hrow|]. clear Hrow.
  intros feat r Hr. simpl in Hr. split; [done|].
  apply argmax_max in Hr as (v & Hv & Hmax). rewrite lookup_drop in Hv.
  exists v. split; [done|]. intros j u Hj Hu.
  apply (Hmax (j - 1)). rewrite lookup_drop. by replace (1 + (j - 1)) with j by lia.
Qed.

(** Evaluation mode with the pad label at another id: line 226 still
    adds one, so every prediction is one more than the position of a
    highest-scoring tag. *)
Lemma forward_eval_pad_elsewhere (label2id : pydict string nat) (label_pad : string)
    (pad_id : nat) (x : list (list feature)) (y tag_result : tensor) (loss : Q) :
  dict_get label_pad label2id = Some pad_id → pad_id ≠ 0 →
  forward hidden2tag logsoftmax criterion false label2id label_pad x y
    = Ok (tag_result, loss) →
  Forall2 (Forall2 (λ feat tag, ∃ r, argmax (hidden2tag feat) = Ok r ∧ tag = S r))
          x tag_result.
Proof.
  intros Hpad Hne. unfold forward, dict_item. rewrite Hpad. simpl or_raise.
  rewrite bind_Ok. rewrite decide_False by done. intros H.
  apply bind_Ok_inv in H as (tags & Htags & H). injection H as <- _.
  apply mapM_result_Ok, Forall2_fmap_l in Htags. apply Forall2_fmap_r.
  eapply Forall2_impl; [exact Htags|]. clear Htags.
  intros row tags_row Hrow. simpl in Hrow.
  apply mapM_result_Ok, Forall2_fmap_l in Hrow. apply Forall2_fmap_r.
  eapply Forall2_impl; [exact Hrow|]. clear Hrow.
  intros feat r Hr. simpl in Hr. eauto.
Qed.
End Forward.

End ClassifyLayerFacts.

(** C7, the claim fails on the code.  With the pad label at id 2 and the
    scores 5, 1, 0 for the tags 0, 1, 2 of one position, the highest-scoring
    tag is tag 0, and [forward] in evaluation mode predicts tag 1. *)
Theorem forward_eval_shifts_plain_argmax :
  ClassifyLayer.argmax [5%Q; 1%Q; 0%Q] = Ok 0 ∧
  ClassifyLayer.forward (λ scores : list Q, scores) (λ scores, scores) (λ _ _, 0%Q)
    false [("O", 0); ("B-X", 1); ("<pad>", 2)] "<pad>"
    [[[5%Q; 1%Q; 0%Q]]] [[0]]
  = Ok ([[1]], 0%Q).
Proof. split; by vm_compute. Qed.

(** ** Effects *)

Section EffFacts.
Context {E A B : Type}.

Lemma eff_bind_Ok (tr : list E) (a : A) (k : A → eff E B) :
  ((tr, Ok a) : eff E A) ≫= k = (tr ++ (k a).1, (k a).2).
Proof. done. Qed.

Lemma eff_bind_Raise (tr : list E) (e : exn) (k : A → eff E B) :
  ((tr, Raise e) : eff E A) ≫= k = (tr, Raise e).
Proof. done. Qed.

Lemma eff_bind_emit (ev : E) (k : unit → eff E B) :
  emit ev ≫= k = (ev :: (k ()).1, (k ()).2).
Proof. done. Qed.

Lemma eff_bind_lift_Ok (a : A) (k : A → eff E B) : lift (Ok a) ≫= k = k a.
Proof. unfold lift. rewrite eff_bind_Ok. simpl. by destruct (k a). Qed.

Lemma eff_bind_lift_Raise (e : exn) (k : A → eff E B) :
  lift (Raise e) ≫= k = ([], Raise e).
Proof. done. Qed.
End EffFacts.

Lemma for_each_eff_cons {E S A : Type} (body : S → A → eff E S) s a l :
  for_each body s (a :: l) = body s a ≫= λ s', for_each body s' l.
Proof. done. Qed.

(** A loop that only appends lines to the file it writes. *)
Lemma print_loop {A : Type} (body : list string → A → eff io_event (list string))
    (lines_of : A → list string) (l : list A) :
  (∀ file a, a ∈ l → body file a = (Print <$> lines_of a, Ok (file ++ lines_of a))) →
  ∀ file,
    for_each body file l
    = (Print <$> concat (lines_of <$> l), Ok (file ++ concat (lines_of <$> l))).
Proof.
  induction l as [|a l IH]; intros Hbody file.
  - simpl. by rewrite app_nil_r.
  - rewrite for_each_eff_cons, Hbody by apply list_elem_of_here.
    rewrite eff_bind_Ok, IH by (intros; apply Hbody; by apply list_elem_of_further).
    simpl. by rewrite fmap_app, app_assoc.
Qed.

(** A loop over [range(len(l))] that appends the lines of the element at
    each index. *)
Lemma print_loop_range {A : Type} (body : list string → nat → eff io_event (list string))
    (lines_of : A → list string) (l : list A) :
  ∀ start,
    (∀ file i a, l !! i = Some a →
       body file (start + i) = (Print <$> lines_of a, Ok (file ++ lines_of a))) →
    ∀ file,
      for_each body file (seq start (length l))
      = (Print <$> concat (lines_of <$> l), Ok (file ++ concat (lines_of <$> l))).
Proof.
  induction l as [|a l IH]; intros start Hbody file.
  - simpl. by rewrite app_nil_r.
  - simpl seq. rewrite for_each_eff_cons.
    rewrite <- (Nat.add_0_r start) at 1. rewrite (Hbody file 0 a) by done.
    rewrite eff_bind_Ok, (IH (S start)).
    + simpl. by rewrite fmap_app, app_assoc.
    + intros file' i a' Hi. rewrite <- (Hbody file' (S i) a') by done. f_equal. lia.
Qed.

Lemma concat_singletons_enumerate {A B : Type} (h : nat → A → B) (z : list A) :
  concat ((λ kw : nat * A, [h kw.1 kw.2]) <$> enumerate z) = imap h z.
Proof.
  unfold enumerate.
  enough (Hgen : ∀ f : nat → nat,
            concat ((λ kw : nat * A, [h kw.1 kw.2]) <$> imap (λ k a, (f k, a)) z)
            = imap (λ k a, h (f k) a) z) by apply (Hgen id).
  induction z as [|a z IH]; intros f; [done|].
  rewrite !imap_cons. simpl. f_equal. apply (IH (f ∘ S)).
Qed.

(** ** [eval_model]: rendering *)

Section EvaluatorFacts.
Context {Model : Type}.
Variable forward_eval : Model → tensor → tensor → tensor.
Variable scorer : string → list string → result (Q * Q * Q).
Variable tmp_path : string.

Lemma print_sentence_lines (id2label : pydict nat string) (file text_b : list string)
    (y_b out_b : list nat) :
  renderable_sentence id2label text_b y_b out_b →
  print_sentence id2label file text_b y_b out_b
  = (Print <$> sentence_lines id2label text_b y_b out_b,
     Ok (file ++ sentence_lines id2label text_b y_b out_b)).
Proof.
  intros (Hy & Hout & Hknown_y & Hknown_out). unfold print_sentence.
  rewrite (print_loop _
             (λ kw : nat * (string * (nat * nat)),
                [format_line (kw.1 + 1) kw.2.1 (tag_name id2label kw.2.2.1)
                             (tag_name id2label kw.2.2.2)])).
  - rewrite (concat_singletons_enumerate
               (λ k (wtp : string * (nat * nat)),
                  format_line (k + 1) wtp.1 (tag_name id2label wtp.2.1)
                              (tag_name id2label wtp.2.2))).
    unfold format_line, sentence_lines.
    pose proof (imap_const
                  (λ wtp : string * (nat * nat),
                     wtp.1 +:+ " " +:+ tag_name id2label wtp.2.1 +:+ " "
                     +:+ tag_name id2label wtp.2.2)
                  (zip text_b (zip y_b out_b))) as Hconst.
    unfold const in Hconst. by rewrite Hconst.
  - intros file' [k [word [t p]]] Hin. simpl.
    apply list_elem_of_lookup in Hin as [i Hi].
    unfold enumerate in Hi. rewrite list_lookup_imap in Hi.
    destruct (zip text_b (zip y_b out_b) !! i) as [[word' [t' p']]|] eqn:Hz;
      simplify_eq/=.
    apply lookup_zip_Some in Hz as [Hword Hz].
    apply lookup_zip_Some in Hz as [Ht Hp].
    assert (Hk : k < length text_b) by eauto using lookup_lt_Some.
    assert (Htn : is_Some (dict_get t id2label)).
    { eapply (proj1 (Forall_forall _ _) Hknown_y), list_elem_of_lookup_2.
      by rewrite lookup_take_lt. }
    assert (Hpn : is_Some (dict_get p id2label)).
    { eapply (proj1 (Forall_forall _ _) Hknown_out), list_elem_of_lookup_2.
      by rewrite lookup_take_lt. }
    destruct Htn as [gold Hgold], Hpn as [pred Hpred].
    unfold dict_item, tag_name. by rewrite Hgold, Hpred.
Qed.

Lemma print_batch_lines (model : Model) (id2label : pydict nat string)
    (file : list string) (x y : tensor) (lens : list nat) (text : corpus) :
  renderable_batch id2label x text y (forward_eval model x y) →
  print_batch forward_eval model id2label file (x, (y, (lens, text)))
  = (Print <$> batch_lines id2label text y (forward_eval model x y),
     Ok (file ++ batch_lines id2label text y (forward_eval model x y))).
Proof.
  intros (Htext & Hy & Hout & Hsent). unfold print_batch, batch_lines.
  set (out := forward_eval model x y) in *.
  replace (length x) with (length (zip text (zip y out)))
    by (rewrite !length_zip; lia).
  apply (print_loop_range _
           (λ tyo : list string * (list nat * list nat),
              sentence_lines id2label tyo.1 tyo.2.1 tyo.2.2 ++ [EmptyString])).
  intros file' i [text_b [y_b out_b]] Hi. cbn [fst snd]. change (0 + i) with i.
  assert (Hr : renderable_sentence id2label text_b y_b out_b).
  { eapply (proj1 (Forall_forall _ _) Hsent (text_b, (y_b, out_b))),
      list_elem_of_lookup_2, Hi. }
  apply lookup_zip_Some in Hi as [-> Hi]. apply lookup_zip_Some in Hi as [-> ->].
  cbn [or_raise]. rewrite !eff_bind_lift_Ok, (print_sentence_lines _ _ _ _ _ Hr).
  rewrite eff_bind_Ok, eff_bind_emit. simpl.
  by rewrite fmap_app, <- app_assoc.
Qed.

Lemma sentence_lines_nonblank (id2label : pydict nat string) (text_b : list string)
    (y_b out_b : list nat) :
  Forall (λ line, line ≠ EmptyString) (sentence_lines id2label text_b y_b out_b).
Proof.
  unfold sentence_lines. apply Forall_fmap, Forall_forall.
  intros [word [t p]] _. simpl. by destruct word.
Qed.

Lemma sentence_lines_length (id2label : pydict nat string) (text_b : list string)
    (y_b out_b : list nat) :
  renderable_sentence id2label text_b y_b out_b →
  length (sentence_lines id2label text_b y_b out_b) = length text_b.
Proof.
  intros (Hy & Hout & _). unfold sentence_lines.
  rewrite length_fmap, !length_zip. lia.
Qed.

(** The lines of a token are where the token is: line [k] of a sentence
    is the word, the gold tag and the predicted tag of token [k]. *)
Lemma sentence_lines_lookup (id2label : pydict nat string) (text_b : list string)
    (y_b out_b : list nat) (k : nat) (word : string) :
  renderable_sentence id2label text_b y_b out_b →
  text_b !! k = Some word →
  ∃ t p true_tag predict_tag,
    y_b !! k = Some t ∧ out_b !! k = Some p ∧
    dict_get t id2label = Some true_tag ∧ dict_get p id2label = Some predict_tag ∧
    sentence_lines id2label text_b y_b out_b !! k
    = Some (word +:+ " " +:+ true_tag +:+ " " +:+ predict_tag).
Proof.
  intros (Hy & Hout & Hknown_y & Hknown_out) Hword.
  assert (Hk : k < length text_b) by eauto using lookup_lt_Some.
  destruct (lookup_lt_is_Some_2 y_b k) as [t Ht]; [lia|].
  destruct (lookup_lt_is_Some_2 out_b k) as [p Hp]; [lia|].
  assert (Htn : is_Some (dict_get t id2label)).
  { eapply (proj1 (Forall_forall _ _) Hknown_y), list_elem_of_lookup_2.
    by rewrite lookup_take_lt. }
  assert (Hpn : is_Some (dict_get p id2label)).
  { eapply (proj1 (Forall_forall _ _) Hknown_out), list_elem_of_lookup_2.
    by rewrite lookup_take_lt. }
  destruct Htn as [true_tag Htrue], Hpn as [predict_tag Hpred].
  exists t, p, true_tag, predict_tag. do 4 (split; [done|]).
  unfold sentence_lines. rewrite list_lookup_fmap.
  assert (Hz : zip text_b (zip y_b out_b) !! k = Some (word, (t, p))).
  { apply lookup_zip_Some. split; [done|]. by apply lookup_zip_Some. }
  rewrite Hz. simpl. unfold tag_name. by rewrite Htrue, Hpred.
Qed.

Lemma filter_Forall_all {A : Type} (P : A → Prop) `{!∀ a, Decision (P a)} (l : list A) :
  Forall P l → filter P l = l.
Proof.
  induction 1 as [|a l Ha _ IH]; [done|].
  by rewrite filter_cons_True, IH.
Qed.

Lemma filter_Forall_none {A : Type} (P : A → Prop) `{!∀ a, Decision (P a)} (l : list A) :
  Forall (λ a, ¬ P a) l → filter P l = [].
Proof.
  induction 1 as [|a l Ha _ IH]; [done|].
  by rewrite filter_cons_False, IH.
Qed.

Lemma batch_lines_count (id2label : pydict nat string) (x : tensor) (text : corpus)
    (y out : tensor) :
  renderable_batch id2label x text y out →
  length (filter (λ line, line ≠ EmptyString) (batch_lines id2label text y out))
    = sum_list (length <$> text) ∧
  length (filter (λ line, line = EmptyString) (batch_lines id2label text y out))
    = length text.
Proof.
  intros (Htext & Hy & Hout & Hsent).
  rewrite <- Htext in Hy, Hout. clear Htext x.
  unfold batch_lines. revert y out Hy Hout Hsent.
  induction text as [|text_b text IH]; intros y out Hy Hout Hsent; [done|].
  destruct y as [|y_b y]; [done|]. destruct out as [|out_b out]; [done|].
  simpl in Hy, Hout, Hsent. apply Forall_cons in Hsent as [Hr Hsent]. simpl in Hr.
  destruct (IH y out) as [IH1 IH2]; [lia | lia | done |].
  pose proof (sentence_lines_nonblank id2label text_b y_b out_b) as Hnb.
  change (zip (text_b :: text) (zip (y_b :: y) (out_b :: out)))
    with ((text_b, (y_b, out_b)) :: zip text (zip y out)).
  rewrite !fmap_cons. cbn [concat fst snd sum_list foldr length].
  rewrite !filter_app, !length_app, IH1, IH2.
  rewrite (filter_Forall_all _ _ Hnb), (sentence_lines_length _ _ _ _ Hr).
  rewrite (filter_Forall_none (λ line, line = EmptyString) (sentence_lines _ _ _ _))
    by (eapply Forall_impl; [exact Hnb | done]).
  rewrite (filter_Forall_none (λ line, line ≠ EmptyString) [EmptyString])
    by (repeat constructor; by intros H).
  rewrite (filter_Forall_all (λ line, line = EmptyString) [EmptyString]) by by repeat constructor.
  simpl. lia.
Qed.

(** C8 (as amended).  For a data set whose batches can be rendered,
    [eval_model] opens the output file, prints the lines of every
    sentence, batch by batch and row by row, each sentence followed by an
    empty line, closes the file and only then runs the scorer; the file is
    removed when the scores were parsed.  A sentence has one line per real
    token, [word true_tag predict_tag] (the token index is computed and not
    printed): the non-empty lines are as many as the tokens, the empty
    lines as many as the sentences. *)
Theorem eval_model_rendering (model : Model) (valid_x valid_y : list tensor)
    (valid_lens : list (list nat)) (valid_text : list corpus)
    (id2label : pydict nat string) (opt : options) :
  let batches := zip valid_x (zip valid_y (zip valid_lens valid_text)) in
  let lines :=
    concat ((λ b : tensor * (tensor * (list nat * corpus)),
               batch_lines id2label b.2.2.2 b.2.1 (forward_eval model b.1 b.2.1))
            <$> batches) in
  let path := default tmp_path (output opt) in
  Forall (λ b : tensor * (tensor * (list nat * corpus)),
            renderable_batch id2label b.1 b.2.2.2 b.2.1 (forward_eval model b.1 b.2.1))
         batches →
  eval_model forward_eval scorer tmp_path model valid_x valid_y valid_lens
             valid_text id2label opt
  = ([match output opt with
      | Some path => OpenWrite path
      | None => Mkstemp tmp_path
      end]
     ++ (Print <$> lines)
     ++ [Close; RunScorer (script opt) path]
     ++ (if is_ok (scorer (script opt) lines) then [Remove path] else []),
     scorer (script opt) lines) ∧
  length (filter (λ line, line ≠ EmptyString) lines)
    = sum_list ((λ b : tensor * (tensor * (list nat * corpus)),
                   sum_list (length <$> b.2.2.2)) <$> batches) ∧
  length (filter (λ line, line = EmptyString) lines)
    = sum_list ((λ b : tensor * (tensor * (list nat * corpus)),
                   length b.2.2.2) <$> batches).
Proof.
  intros batches lines path Hbatches. split.
  - unfold eval_model. fold batches path. rewrite eff_bind_emit.
    rewrite (print_loop _
               (λ b : tensor * (tensor * (list nat * corpus)),
                  batch_lines id2label b.2.2.2 b.2.1 (forward_eval model b.1 b.2.1))).
    2:{ intros file [x [y [lens text]]] Hin. apply print_batch_lines.
        apply (proj1 (Forall_forall _ _) Hbatches _ Hin). }
    fold lines. rewrite eff_bind_Ok. rewrite !eff_bind_emit.
    destruct (scorer (script opt) lines) as [scores|e] eqn:Hscore; simpl;
      rewrite Hscore; simpl; by rewrite <- ?app_assoc.
  - subst lines. induction Hbatches as [|[x [y [lens text]]] bs Hb _ [IH1 IH2]];
      [done|].
    destruct (batch_lines_count _ _ _ _ _ Hb) as [Hc1 Hc2]. cbn [fst snd] in Hc1, Hc2.
    rewrite !fmap_cons. cbn [concat fst snd sum_list foldr].
    by rewrite !filter_app, !length_app, IH1, IH2, Hc1, Hc2.
Qed.
End EvaluatorFacts.

Lemma eval_model_rendering_witness :
  eval_model (Model := unit) (λ _ _ y, y) (λ _ _, Ok (0, 0, 0)%Q) "tmp" ()
             [[[2; 3]; [2; 1]]] [[[1; 2]; [1; 0]]] [[2; 1]]
             [[["the"; "dog"]; ["the"]]]
             [(0, "<pad>"); (1, "O"); (2, "B-X")]
             (Options None "model" None "conlleval.pl" 2 1 0 EmptyString)
  = ([Mkstemp "tmp"; Print "the O O"; Print "dog B-X B-X"; Print EmptyString;
      Print "the O O"; Print EmptyString; Close; RunScorer "conlleval.pl" "tmp";
      Remove "tmp"],
     Ok (0, 0, 0)%Q).
Proof.
  destruct (eval_model_rendering (Model := unit) (λ _ _ y, y) (λ _ _, Ok (0, 0, 0)%Q)
              "tmp" () [[[2; 3]; [2; 1]]] [[[1; 2]; [1; 0]]] [[2; 1]]
              [[["the"; "dog"]; ["the"]]] [(0, "<pad>"); (1, "O"); (2, "B-X")]
              (Options None "model" None "conlleval.pl" 2 1 0 EmptyString)) as [Hrun _].
  - repeat constructor; simpl; try lia; eexists; reflexivity.
  - exact Hrun.
Defined.

(** C8, the claim as stated fails: the line of the only token of the only
    sentence is [dog O O]; no line starts with the token index. *)
Lemma eval_model_prints_no_index :
  (eval_model (Model := unit) (λ _ _ y, y) (λ _ _, Ok (0, 0, 0)%Q) "tmp" ()
              [[[2]]] [[[1]]] [[1]] [[["dog"]]] [(0, "<pad>"); (1, "O")]
              (Options None "model" None "conlleval.pl" 2 1 0 EmptyString)).1
  = [Mkstemp "tmp"; Print "dog O O"; Print EmptyString; Close;
     RunScorer "conlleval.pl" "tmp"; Remove "tmp"] ∧
  Print "1 dog O O"
  ∉ (eval_model (Model := unit) (λ _ _ y, y) (λ _ _, Ok (0, 0, 0)%Q) "tmp" ()
                [[[2]]] [[[1]]] [[1]] [[["dog"]]] [(0, "<pad>"); (1, "O")]
                (Options None "model" None "conlleval.pl" 2 1 0 EmptyString)).1.
Proof.
  split; [by vm_compute|]. intros H. vm_compute in H.
  repeat (apply elem_of_cons in H as [H|H]; [discriminate|]).
  by apply elem_of_nil in H.
Qed.

(** ** What the rendering loops leave *)

Lemma for_each_printed {A : Type} (body : list string → A → eff io_event (list string)) :
  (∀ file a, ∃ lines, printed file lines (body file a)) →
  ∀ l file, ∃ lines, printed file lines (for_each body file l).
Proof.
  intros Hbody. induction l as [|a l IH]; intros file.
  - exists []. split; [done|]. left. simpl. by rewrite app_nil_r.
  - rewrite for_each_eff_cons.
    destruct (Hbody file a) as (lines1 & Htr & Hres).
    destruct (body file a) as [tr res]. simpl in Htr, Hres. subst tr.
    destruct Hres as [-> | [-> | ->]].
    + rewrite eff_bind_Ok. destruct (IH (file ++ lines1)) as (lines2 & Htr2 & Hres2).
      exists (lines1 ++ lines2). split; simpl.
      * by rewrite Htr2, fmap_app.
      * by rewrite app_assoc.
    + exists lines1. split; [done | by right; left].
    + exists lines1. split; [done | by right; right].
Qed.

Section RenderingTrace.
Context {Model : Type}.
Variable forward_eval : Model → tensor → tensor → tensor.
Variable scorer : string → list string → result (Q * Q * Q).
Variable tmp_path : string.

Lemma print_sentence_printed (id2label : pydict nat string) (file text_b : list string)
    (y_b out_b : list nat) :
  ∃ lines, printed file lines (print_sentence id2label file text_b y_b out_b).
Proof.
  unfold print_sentence. apply for_each_printed.
  intros file' [k [word [true_tag predict_tag]]]. unfold dict_item.
  destruct (dict_get true_tag id2label) as [t|]; simpl or_raise.
  2:{ exists []. split; [done | by right; right]. }
  rewrite eff_bind_lift_Ok.
  destruct (dict_get predict_tag id2label) as [p|]; simpl or_raise.
  2:{ exists []. split; [done | by right; right]. }
  rewrite eff_bind_lift_Ok, eff_bind_emit.
  exists [format_line (k + 1) word t p]. split; [done | by left].
Qed.

Lemma print_batch_printed (model : Model) (id2label : pydict nat string)
    (file : list string) (b : tensor * (tensor * (list nat * corpus))) :
  ∃ lines, printed file lines (print_batch forward_eval model id2label file b).
Proof.
  destruct b as [x [y [lens text]]]. unfold print_batch. apply for_each_printed.
  intros file' bid.
  destruct (text !! bid) as [text_b|]; simpl or_raise.
  2:{ exists []. split; [done | by right; left]. }
  rewrite eff_bind_lift_Ok.
  destruct (y !! bid) as [y_b|]; simpl or_raise.
  2:{ exists []. split; [done | by right; left]. }
  rewrite eff_bind_lift_Ok.
  destruct (forward_eval model x y !! bid) as [out_b|]; simpl or_raise.
  2:{ exists []. split; [done | by right; left]. }
  rewrite eff_bind_lift_Ok.
  destruct (print_sentence_printed id2label file' text_b y_b out_b)
    as (lines & Htr & Hres).
  destruct (print_sentence id2label file' text_b y_b out_b) as [tr res].
  simpl in Htr, Hres. subst tr. destruct Hres as [-> | [-> | ->]].
  - rewrite eff_bind_Ok, eff_bind_emit. exists (lines ++ [EmptyString]). split; simpl.
    + by rewrite fmap_app.
    + left. by rewrite app_assoc.
  - exists lines. split; [done | by right; left].
  - exists lines. split; [done | by right; right].
Qed.

(** A call of [eval_model] opens one file for writing: the file named by
    [opt.output], or the temporary file. *)
Lemma eval_model_opened (model : Model) (valid_x valid_y : list tensor)
    (valid_lens : list (list nat)) (valid_text : list corpus)
    (id2label : pydict nat string) (opt : options) :
  opened_by (eval_model forward_eval scorer tmp_path model valid_x valid_y
                        valid_lens valid_text id2label opt).1
  = [default tmp_path (output opt)].
Proof.
  assert (Hprints : ∀ lines tl,
            (∀ ev, ev ∈ tl → ev = Close ∨ (∃ s p, ev = RunScorer s p)
                             ∨ ∃ p, ev = Remove p) →
            opened_by ((Print <$> lines) ++ tl) = []).
  { intros lines tl Htl. unfold opened_by. rewrite omap_app.
    assert (omap (λ ev, match ev with
                        | OpenWrite path => Some path
                        | Mkstemp path => Some path
                        | _ => None
                        end) (Print <$> lines) = []) as -> by by induction lines.
    induction tl as [|ev tl IH]; [done|]. simpl.
    destruct (Htl ev) as [->|[(? & ? & ->)|(? & ->)]]; [by left|..];
      apply IH; intros ev' Hev'; apply Htl; by right. }
  assert (Hcons : ∀ ev tl, opened_by (ev :: tl) = opened_by [ev] ++ opened_by tl)
    by (intros ev tl; apply (omap_app _ [ev] tl)).
  unfold eval_model. rewrite eff_bind_emit.
  destruct (for_each_printed (print_batch forward_eval model id2label)
              (print_batch_printed model id2label)
              (zip valid_x (zip valid_y (zip valid_lens valid_text))) [])
    as (lines & Htr & Hres).
  destruct (for_each _ _ _) as [tr res]. simpl in Htr, Hres. subst tr.
  assert (Hopen : opened_by [match output opt with
                             | Some path => OpenWrite path
                             | None => Mkstemp tmp_path
                             end] = [default tmp_path (output opt)])
    by by destruct (output opt).
  destruct Hres as [-> | [-> | ->]].
  - rewrite eff_bind_Ok, !eff_bind_emit. cbn [fst snd].
    destruct (scorer (script opt) lines) as [scores|e]; simpl fst;
      rewrite Hcons, Hopen, Hprints; try done.
    + intros ev Hev. rewrite !elem_of_cons in Hev.
      destruct Hev as [->|[->|[->|Hev]]]; eauto. by apply elem_of_nil in Hev.
    + intros ev Hev. rewrite !elem_of_cons in Hev.
      destruct Hev as [->|[->|Hev]]; eauto. by apply elem_of_nil in Hev.
  - rewrite eff_bind_Raise. cbn [fst].
    rewrite Hcons, Hopen, <- (app_nil_r (Print <$> lines)), Hprints; [done|].
    intros ev Hev. by apply elem_of_nil in Hev.
  - rewrite eff_bind_Raise. cbn [fst].
    rewrite Hcons, Hopen, <- (app_nil_r (Print <$> lines)), Hprints; [done|].
    intros ev Hev. by apply elem_of_nil in Hev.
Qed.
End RenderingTrace.

(** ** The epoch loop *)

(** Run a computation with effects over an outcome already known. *)
Ltac eff_ok :=
  match goal with
  | |- context [ @mbind _ _ _ _ ?k (?tr, Ok ?a) ] => rewrite (eff_bind_Ok tr a k)
  end.
Ltac eff_raise :=
  match goal with
  | |- context [ @mbind _ _ _ _ ?k (?tr, Raise ?e) ] => rewrite (eff_bind_Raise tr e k)
  end.

Lemma eff_bind_evaluated_Ok {Model A B : Type} (io : list io_event) (a : A)
    (k : A → eff (event Model) B) :
  evaluated (io, Ok a) ≫= k = (Evaluated io :: (k a).1, (k a).2).
Proof. done. Qed.

Lemma eff_bind_evaluated_Raise {Model A B : Type} (io : list io_event) (e : exn)
    (k : A → eff (event Model) B) :
  evaluated (io, Raise e) ≫= k = ([Evaluated io], Raise e).
Proof. done. Qed.

Ltac eff_evaluated :=
  match goal with
  | |- context [ @mbind _ _ _ _ ?k (evaluated (?io, Ok ?a)) ] =>
      rewrite (eff_bind_evaluated_Ok io a k)
  | |- context [ @mbind _ _ _ _ ?k (evaluated (?io, Raise ?e)) ] =>
      rewrite (eff_bind_evaluated_Raise io e k)
  end.

Lemma loop_runs_trace {E S A : Type} (body : S → A → eff E S) (s : S) (l : list A) :
  (for_each body s l).1 = concat ((λ run, run.2.1) <$> loop_runs body s l).
Proof.
  revert s. induction l as [|a l IH]; intros s; [done|].
  rewrite for_each_eff_cons. simpl. unfold mbind, eff_bind.
  destruct (body s a) as [tr [s'|e]]; simpl; [by rewrite IH | by rewrite app_nil_r].
Qed.

(** A later iteration starts a run of the rest of the loop. *)
Lemma loop_runs_drop {E S A : Type} (body : S → A → eff E S) (l : list A) :
  ∀ (s : S) (j : nat) (s_j : S) (r_j : eff E S),
    loop_runs body s l !! j = Some (s_j, r_j) →
    drop j (loop_runs body s l) = loop_runs body s_j (drop j l).
Proof.
  induction l as [|a l IH]; intros s j s_j r_j Hj; [done|].
  destruct j as [|j]; simpl in *.
  - by injection Hj as <- _.
  - destruct (body s a).2 as [s'|e]; [by eapply IH | done].
Qed.

Section OrchestratorFacts.
Context {Model : Type}.
Variable forward_eval : Model → tensor → tensor → tensor.
Variable scorer : string → list string → result (Q * Q * Q).
Variable tmp_path : string.
Variable train_step : Model → tensor → tensor → list nat → result Model.
Variable decay_lr : Model → Q → Model.

(** The training loop of lines 356-370 takes the batches in order and
    stops at the first step that raises. *)
Lemma train_loop_steps (bs : list (tensor * (tensor * list nat))) :
  ∀ (model : Model) (tr : list (event Model)) (res : result Model),
    for_each (λ model (b : tensor * (tensor * list nat)),
                let '(x, (y, lens)) := b in
                _ ← emit (Step x y); lift (train_step model x y lens))
             model bs = (tr, res) →
    ∃ done, done `prefix_of` bs ∧ tr = step_events done ∧ (is_ok res → done = bs).
Proof.
  induction bs as [|[x [y lens]] bs IH]; intros model tr res Hrun.
  - injection Hrun as <- <-. by exists [].
  - rewrite for_each_eff_cons in Hrun. simpl in Hrun.
    unfold mbind, eff_bind in Hrun. simpl in Hrun.
    destruct (train_step model x y lens) as [model'|e]; simpl in Hrun.
    + destruct (for_each _ model' bs) as [tr' res'] eqn:Hrest.
      injection Hrun as <- <-.
      destruct (IH _ _ _ Hrest) as (done & Hpre & -> & Hall).
      exists ((x, (y, lens)) :: done). split; [by apply prefix_cons|].
      split; [done|]. intros Hok. by rewrite Hall.
    + injection Hrun as <- <-. exists [(x, (y, lens))].
      split; [apply prefix_cons, prefix_nil|]. split; [done|]. by intros [].
Qed.

(** Every call of [train_model] goes one of the ways of [epoch_shape]. *)
Lemma train_model_shape (epoch : nat) (model : Model)
    (train_x train_y : list tensor) (train_lens : list (list nat))
    (valid test : dataset) (ix2label : pydict nat string)
    (best_valid test_f1_score : Q) (opt : options) (lst : list nat) :
  ∃ bs,
    (∀ tx ty tl,
       index_all train_x lst = Ok tx → index_all train_y lst = Ok ty →
       index_all train_lens lst = Ok tl → bs = zip tx (zip ty tl)) ∧
    epoch_shape epoch best_valid test_f1_score
      (path_join (model_dir opt) "model.pl") bs
      (train_model forward_eval scorer tmp_path train_step epoch model
         train_x train_y train_lens valid test ix2label best_valid
         test_f1_score opt lst).1
      (train_model forward_eval scorer tmp_path train_step epoch model
         train_x train_y train_lens valid test ix2label best_valid
         test_f1_score opt lst).2.
Proof.
  unfold train_model.
  destruct (index_all train_x lst) as [tx|e] eqn:Hx.
  2:{ exists []. split; [by intros|]. rewrite eff_bind_lift_Raise.
      apply (training_raises _ _ _ _ _ []). done. }
  rewrite eff_bind_lift_Ok.
  destruct (index_all train_y lst) as [ty|e] eqn:Hy.
  2:{ exists []. split; [by intros|]. rewrite eff_bind_lift_Raise.
      apply (training_raises _ _ _ _ _ []). done. }
  rewrite eff_bind_lift_Ok.
  destruct (index_all train_lens lst) as [tl|e] eqn:Hl.
  2:{ exists []. split; [by intros|]. rewrite eff_bind_lift_Raise.
      apply (training_raises _ _ _ _ _ []). done. }
  rewrite eff_bind_lift_Ok.
  exists (zip tx (zip ty tl)). split; [by intros ??? [= <-] [= <-] [= <-]|].
  destruct (for_each _ model (zip tx (zip ty tl))) as [tr res] eqn:Htrain.
  destruct (train_loop_steps _ _ _ _ Htrain) as (done & Hpre & -> & Hall).
  destruct res as [model'|e].
  2:{ eff_raise. by constructor. }
  rewrite (Hall I). eff_ok.
  destruct (eval_model _ _ _ model' (data_x valid) _ _ _ _ _) as [io [[[p r] f]|e]];
    eff_evaluated; cbn [fst snd].
  2:{ constructor. }
  rewrite eff_bind_emit. cbn [fst snd].
  destruct (Qgtb f best_valid) eqn:Hf.
  - rewrite eff_bind_emit.
    destruct (eval_model _ _ _ model' (data_x test) _ _ _ _ _) as [io' [[[tp tr] tf]|e]];
      eff_evaluated; cbn [fst snd].
    + rewrite eff_bind_emit. simpl. by constructor.
    + by constructor.
  - simpl. by constructor.
Qed.

(** The body of the epoch loop does what [train_model] does; the decay of
    the learning rate leaves no event. *)
Lemma epoch_body_shape (train_x train_y : list tensor) (train_lens : list (list nat))
    (valid test : dataset) (id2label : pydict nat string) (opt : options)
    (epoch_shuffle : nat → list nat) (model : Model) (best_valid test_result : Q)
    (epoch : nat) :
  ∃ bs,
    (∀ tx ty tl,
       index_all train_x (epoch_shuffle epoch) = Ok tx →
       index_all train_y (epoch_shuffle epoch) = Ok ty →
       index_all train_lens (epoch_shuffle epoch) = Ok tl → bs = zip tx (zip ty tl)) ∧
    epoch_shape epoch best_valid test_result
      (path_join (model_dir opt) "model.pl") bs
      (epoch_body forward_eval scorer tmp_path train_step decay_lr train_x train_y
         train_lens valid test id2label opt epoch_shuffle
         (model, best_valid, test_result) epoch).1
      (epoch_body forward_eval scorer tmp_path train_step decay_lr train_x train_y
         train_lens valid test id2label opt epoch_shuffle
         (model, best_valid, test_result) epoch).2.
Proof.
  destruct (train_model_shape epoch model train_x train_y train_lens valid test
              id2label best_valid test_result opt (epoch_shuffle epoch))
    as (bs & Hbs & Hshape).
  exists bs. split; [done|]. unfold epoch_body.
  destruct (train_model _ _ _ _ _ _ _ _ _ _ _ _ _ _ _ _) as [tr [[[m b] t]|e]];
    [eff_ok | eff_raise]; simpl in *.
  - rewrite app_nil_r. inversion Hshape; subst; by constructor.
  - done.
Qed.

Lemma omap_step_events {B : Type} (f : event Model → option B)
    (bs : list (tensor * (tensor * list nat))) :
  (∀ x y, f (Step x y) = None) → omap f (step_events bs) = [].
Proof. intros Hf. induction bs as [|b bs IH]; simpl; [done|]. by rewrite Hf. Qed.

Lemma steps_of_step_events (bs : list (tensor * (tensor * list nat))) :
  steps_of (Model := Model) (step_events bs) = (λ b, (b.1, b.2.1)) <$> bs.
Proof. induction bs as [|b bs IH]; [done|]. simpl. f_equal. exact IH. Qed.

(** What a call of [train_model] that returns has measured.  The model it
    returns is the one it has trained, evaluated and, on a new record,
    saved: the validation F1 it logs is the F1 that [eval_model] gives for
    this model on the validation set; on a new record the test figures it
    logs and the test F1 it returns are those that [eval_model] gives for
    the same model on the test set, and otherwise the test set is not
    evaluated and the figures it was given come back. *)
Lemma train_model_evaluations (epoch : nat) (model : Model)
    (train_x train_y : list tensor) (train_lens : list (list nat))
    (valid test : dataset) (ix2label : pydict nat string)
    (best_valid test_f1_score : Q) (opt : options) (lst : list nat)
    (tr : list (event Model)) (trained : Model) (b t : Q) :
  train_model forward_eval scorer tmp_path train_step epoch model
    train_x train_y train_lens valid test ix2label best_valid test_f1_score opt lst
  = (tr, Ok (trained, b, t)) →
  ∃ io p r f,
    eval_model forward_eval scorer tmp_path trained (data_x valid) (data_y valid)
               (data_lens valid) (data_text valid) ix2label opt
      = (io, Ok (p, r, f)) ∧
    valid_f1_of tr = [f] ∧
    if Qgtb f best_valid then
      ∃ io' test_p test_r test_f,
        eval_model forward_eval scorer tmp_path trained (data_x test) (data_y test)
                   (data_lens test) (data_text test) ix2label opt
          = (io', Ok (test_p, test_r, test_f)) ∧
        saves_of tr = [(path_join (model_dir opt) "model.pl", trained)] ∧
        evals_of tr = [io; io'] ∧
        tests_of tr = [(test_p, test_r, test_f)] ∧
        b = f ∧ t = test_f
    else
      saves_of tr = [] ∧ evals_of tr = [io] ∧ tests_of tr = [] ∧
      b = best_valid ∧ t = test_f1_score.
Proof.
  unfold train_model.
  destruct (index_all train_x lst) as [tx|e];
    [rewrite eff_bind_lift_Ok | by rewrite eff_bind_lift_Raise].
  destruct (index_all train_y lst) as [ty|e];
    [rewrite eff_bind_lift_Ok | by rewrite eff_bind_lift_Raise].
  destruct (index_all train_lens lst) as [tl|e];
    [rewrite eff_bind_lift_Ok | by rewrite eff_bind_lift_Raise].
  destruct (for_each _ model (zip tx (zip ty tl))) as [tr0 res] eqn:Htrain.
  destruct (train_loop_steps _ _ _ _ Htrain) as (done & _ & -> & _).
  destruct res as [model'|e]; [eff_ok | by eff_raise].
  destruct (eval_model _ _ _ model' (data_x valid) _ _ _ _ _)
    as [io [[[p r] f]|e]] eqn:Hdev; eff_evaluated; cbn [fst snd]; [|done].
  rewrite eff_bind_emit. cbn [fst snd].
  unfold valid_f1_of, saves_of, evals_of, tests_of.
  destruct (Qgtb f best_valid) eqn:Hf.
  - rewrite eff_bind_emit.
    destruct (eval_model _ _ _ model' (data_x test) _ _ _ _ _)
      as [io' [[[test_p test_r] test_f]|e]] eqn:Htest; eff_evaluated; cbn [fst snd];
      [|done].
    rewrite eff_bind_emit. cbn [fst snd]. intros [= <- <- <- <-].
    rewrite Hdev. exists io, p, r, f. split; [done|].
    rewrite !omap_app, !(omap_step_events _ _ (λ _ _, eq_refl)). simpl.
    split; [done|]. rewrite Hf, Htest. eauto 10.
  - cbn [fst snd]. intros [= <- <- <- <-].
    rewrite Hdev. exists io, p, r, f. split; [done|].
    rewrite !omap_app, !(omap_step_events _ _ (λ _ _, eq_refl)). simpl.
    split; [done|]. by rewrite Hf.
Qed.

(** The same for the body of the epoch loop, which returns the trained
    model after the decay of the learning rate. *)
Lemma epoch_body_evaluations (train_x train_y : list tensor)
    (train_lens : list (list nat)) (valid test : dataset)
    (id2label : pydict nat string) (opt : options)
    (epoch_shuffle : nat → list nat) (model : Model) (best_valid test_result : Q)
    (epoch : nat) (tr : list (event Model)) (model' : Model) (b t : Q) :
  epoch_body forward_eval scorer tmp_path train_step decay_lr train_x train_y
    train_lens valid test id2label opt epoch_shuffle
    (model, best_valid, test_result) epoch
  = (tr, Ok (model', b, t)) →
  ∃ trained io p r f,
    model' = (if Qgtb (lr_decay opt) 0 then decay_lr trained (lr_decay opt)
              else trained) ∧
    eval_model forward_eval scorer tmp_path trained (data_x valid) (data_y valid)
               (data_lens valid) (data_text valid) id2label opt
      = (io, Ok (p, r, f)) ∧
    valid_f1_of tr = [f] ∧
    if Qgtb f best_valid then
      ∃ io' test_p test_r test_f,
        eval_model forward_eval scorer tmp_path trained (data_x test) (data_y test)
                   (data_lens test) (data_text test) id2label opt
          = (io', Ok (test_p, test_r, test_f)) ∧
        saves_of tr = [(path_join (model_dir opt) "model.pl", trained)] ∧
        evals_of tr = [io; io'] ∧
        tests_of tr = [(test_p, test_r, test_f)] ∧
        b = f ∧ t = test_f
    else
      saves_of tr = [] ∧ evals_of tr = [io] ∧ tests_of tr = [] ∧
      b = best_valid ∧ t = test_result.
Proof.
  unfold epoch_body.
  destruct (train_model _ _ _ _ _ _ _ _ _ _ _ _ _ _ _ _) as [tr1 [[[m1 b1] t1]|e]]
    eqn:Hrun; [eff_ok | by eff_raise].
  cbn [fst snd]. rewrite app_nil_r. intros [= <- <- <- <-].
  destruct (train_model_evaluations _ _ _ _ _ _ _ _ _ _ _ _ _ _ _ _ Hrun)
    as (io & p & r & f & Hdev & Hf & Hrest).
  exists m1, io, p, r, f. done.
Qed.

(** The events of a call of [train_model], whichever way it goes: training
    steps, evaluations that open the evaluation output file, log lines and
    the checkpoint. *)
Lemma train_model_events (epoch : nat) (model : Model)
    (train_x train_y : list tensor) (train_lens : list (list nat))
    (valid test : dataset) (ix2label : pydict nat string)
    (best_valid test_f1_score : Q) (opt : options) (lst : list nat) :
  Forall (loop_event (path_join (model_dir opt) "model.pl")
                     (default tmp_path (output opt)))
         (train_model forward_eval scorer tmp_path train_step epoch model
            train_x train_y train_lens valid test ix2label best_valid
            test_f1_score opt lst).1.
Proof.
  assert (Hsteps : ∀ bs : list (tensor * (tensor * list nat)),
            Forall (loop_event (Model := Model) (path_join (model_dir opt) "model.pl")
                               (default tmp_path (output opt)))
                   (step_events bs)).
  { intros bs. by apply Forall_fmap, Forall_forall. }
  unfold train_model.
  destruct (index_all train_x lst) as [tx|e];
    [rewrite eff_bind_lift_Ok | by rewrite eff_bind_lift_Raise].
  destruct (index_all train_y lst) as [ty|e];
    [rewrite eff_bind_lift_Ok | by rewrite eff_bind_lift_Raise].
  destruct (index_all train_lens lst) as [tl|e];
    [rewrite eff_bind_lift_Ok | by rewrite eff_bind_lift_Raise].
  destruct (for_each _ model (zip tx (zip ty tl))) as [tr0 res] eqn:Htrain.
  destruct (train_loop_steps _ _ _ _ Htrain) as (done & _ & -> & _).
  destruct res as [model'|e]; [eff_ok | eff_raise; apply Hsteps].
  cbn [fst]. apply Forall_app. split; [apply Hsteps|].
  pose proof (eval_model_opened forward_eval scorer tmp_path model' (data_x valid)
                (data_y valid) (data_lens valid) (data_text valid) ix2label opt)
    as Hdev.
  destruct (eval_model _ _ _ model' (data_x valid) _ _ _ _ _)
    as [io [[[p r] f]|e]]; eff_evaluated; cbn [fst snd] in *;
    [|by repeat constructor].
  rewrite eff_bind_emit. cbn [fst snd]. do 2 (constructor; [done|]).
  destruct (Qgtb f best_valid); [|constructor].
  rewrite eff_bind_emit. cbn [fst]. constructor; [done|].
  pose proof (eval_model_opened forward_eval scorer tmp_path model' (data_x test)
                (data_y test) (data_lens test) (data_text test) ix2label opt)
    as Htest.
  destruct (eval_model _ _ _ model' (data_x test) _ _ _ _ _)
    as [io' [[[test_p test_r] test_f]|e]]; eff_evaluated; cbn [fst snd] in *;
    by repeat constructor.
Qed.

Lemma epoch_body_events (train_x train_y : list tensor)
    (train_lens : list (list nat)) (valid test : dataset)
    (id2label : pydict nat string) (opt : options)
    (epoch_shuffle : nat → list nat) (st : Model * Q * Q) (epoch : nat) :
  Forall (loop_event (path_join (model_dir opt) "model.pl")
                     (default tmp_path (output opt)))
         (epoch_body forward_eval scorer tmp_path train_step decay_lr train_x train_y
            train_lens valid test id2label opt epoch_shuffle st epoch).1.
Proof.
  destruct st as [[model best_valid] test_result]. unfold epoch_body.
  pose proof (train_model_events epoch model train_x train_y train_lens valid test
                id2label best_valid test_result opt (epoch_shuffle epoch)) as Hev.
  destruct (train_model _ _ _ _ _ _ _ _ _ _ _ _ _ _ _ _) as [tr [[[m b] t]|e]];
    [eff_ok | eff_raise]; cbn [fst snd] in *; by rewrite ?app_nil_r.
Qed.

(** What the events of one epoch say about the checkpoint decision. *)
Lemma epoch_shape_decision (epoch : nat) (best_valid test_f1_score : Q)
    (path : string) (bs : list (tensor * (tensor * list nat)))
    (tr : list (event Model)) (res : result (Model * Q * Q)) :
  epoch_shape epoch best_valid test_f1_score path bs tr res →
  (∀ f, valid_f1_of tr = [f] → (saves_of tr ≠ [] ↔ (best_valid < f)%Q)) ∧
  (saves_of tr = [] → tests_of tr = [] ∧ length (evals_of tr) ≤ 1) ∧
  (saves_of tr = [] ∨ ∃ saved, saves_of tr = [(path, saved)]) ∧
  (∀ model b t, res = Ok (model, b, t) →
     (best_valid <= b)%Q ∧
     ∃ f, valid_f1_of tr = [f] ∧
          (saves_of tr ≠ [] →
           b = f ∧ (best_valid < f)%Q ∧ ∃ p r, tests_of tr = [(p, r, t)]) ∧
          (saves_of tr = [] → b = best_valid ∧ t = test_f1_score ∧ (f <= best_valid)%Q)).
Proof.
  unfold valid_f1_of, saves_of, tests_of, evals_of.
  destruct 1 as [done e Hpre|io e|io model f Hf|io saved f io' e Hf
                 |io saved model f io' p r t Hf];
    rewrite ?omap_app, !(omap_step_events _ _ (λ _ _, eq_refl)); simpl;
    (split; [|split; [|split]]).
  - done.
  - intros _. split; [done | lia].
  - by left.
  - done.
  - done.
  - intros _. split; [done | lia].
  - by left.
  - done.
  - apply Qgtb_le in Hf. intros ? [= <-]. split; [done|].
    intros Hlt. by apply Qlt_not_le in Hlt.
  - intros _. split; [done | lia].
  - by left.
  - apply Qgtb_le in Hf. intros ??? [= <- <- <-]. split; [apply Qle_refl|].
    exists f. split; [done|]. split; done.
  - apply Qgtb_lt in Hf. intros ? [= <-]. done.
  - done.
  - right. eauto.
  - done.
  - apply Qgtb_lt in Hf. intros ? [= <-]. done.
  - done.
  - right. eauto.
  - apply Qgtb_lt in Hf. intros ??? [= <- <- <-]. split; [by apply Qlt_le_weak|].
    exists f. split; [done|]. split; [|done]. intros _. eauto.
Qed.

(** The validation F1 figures logged by a list of iterations. *)
Definition seen_f1 (runs : list ((Model * Q * Q) * eff (event Model) (Model * Q * Q)))
  : list Q :=
  concat ((λ run, valid_f1_of run.2.1) <$> runs).

Section LoopInvariant.
(** Any loop whose iterations go one of the ways of [epoch_shape]. *)
Variable body : Model * Q * Q → nat → eff (event Model) (Model * Q * Q).
Hypothesis body_shape :
  ∀ model best_valid test_result epoch,
    ∃ path bs,
      epoch_shape epoch best_valid test_result path bs
        (body (model, best_valid, test_result) epoch).1
        (body (model, best_valid, test_result) epoch).2.

(** [best_valid] is the largest validation F1 seen so far, or the sentinel
    it started from. *)
Lemma best_valid_invariant (epochs : list nat) :
  ∀ (model0 : Model) (best0 test0 : Q) (prev : list Q),
    Forall (λ g, (g <= best0)%Q) prev →
    best0 = no_score ∨ best0 ∈ prev →
    ∀ k model best_valid test_result run,
      loop_runs body (model0, best0, test0) epochs !! k
        = Some ((model, best_valid, test_result), run) →
      Forall (λ g, (g <= best_valid)%Q)
             (prev ++ seen_f1 (take k (loop_runs body (model0, best0, test0) epochs))) ∧
      (best_valid = no_score
       ∨ best_valid
         ∈ prev ++ seen_f1 (take k (loop_runs body (model0, best0, test0) epochs))) ∧
      (best0 <= best_valid)%Q.
Proof.
  induction epochs as [|epoch epochs IH];
    intros model0 best0 test0 prev Hle Hin k model best_valid test_result run Hk;
    [done|].
  destruct k as [|k]; simpl in Hk.
  - injection Hk as <- <- <- _. unfold seen_f1. simpl. rewrite app_nil_r.
    split; [done|]. split; [done | apply Qle_refl].
  - destruct (body_shape model0 best0 test0 epoch) as (path & bs & Hshape).
    destruct (epoch_shape_decision _ _ _ _ _ _ _ Hshape) as (Hiff & _ & _ & Hret).
    simpl. revert Hk Hret.
    destruct (body (model0, best0, test0) epoch) as [tr [[[model1 best1] test1]|e]];
      cbn [fst snd]; intros Hk Hret; [|done].
    destruct (Hret _ _ _ eq_refl) as (Hmono & f & Hf & Hsaved & Hnot).
    assert (Hinv1 : Forall (λ g, (g <= best1)%Q) (prev ++ [f])
                    ∧ (best1 = no_score ∨ best1 ∈ prev ++ [f])).
    { destruct (decide (saves_of tr = [])) as [Hs|Hs].
      - destruct (Hnot Hs) as (-> & _ & Hfle). split.
        + apply Forall_app. split; [done | by repeat constructor].
        + destruct Hin; [by left | right; apply elem_of_app; by left].
      - destruct (Hsaved Hs) as (-> & Hlt & _). split.
        + apply Forall_app. split; [|repeat constructor; apply Qle_refl].
          eapply Forall_impl; [exact Hle|]. intros g Hg. simpl.
          apply Qlt_le_weak. by apply (Qle_lt_trans _ best0).
        + right. apply elem_of_app. right. by apply list_elem_of_singleton. }
    destruct Hinv1 as [Hle1 Hin1].
    destruct (IH model1 best1 test1 (prev ++ [f]) Hle1 Hin1 k _ _ _ _ Hk)
      as (Hle' & Hin' & Hmono').
    unfold seen_f1 in *. cbn [take fmap list_fmap concat fst snd]. rewrite Hf.
    rewrite <- !app_assoc in Hle', Hin'.
    split; [done|]. split; [done|]. by apply (Qle_trans _ best1).
Qed.

Lemma best_valid_nondecreasing (epochs : list nat) :
  ∀ (model0 : Model) (best0 test0 : Q) k model best_valid test_result run,
    loop_runs body (model0, best0, test0) epochs !! k
      = Some ((model, best_valid, test_result), run) →
    (best0 <= best_valid)%Q.
Proof.
  intros model0 best0 test0 k model best_valid test_result run Hk.
  by destruct (best_valid_invariant epochs model0 best0 test0 [best0]
                 ltac:(repeat constructor; apply Qle_refl)
                 ltac:(right; apply list_elem_of_here) k _ _ _ _ Hk) as (_ & _ & ?).
Qed.
End LoopInvariant.

Lemma loop_runs_lookup {E S A : Type} (body : S → A → eff E S) (l : list A) :
  ∀ (s : S) (k : nat) (s_k : S) (r_k : eff E S),
    loop_runs body s l !! k = Some (s_k, r_k) →
    ∃ a, l !! k = Some a ∧ r_k = body s_k a.
Proof.
  induction l as [|a l IH]; intros s k s_k r_k Hk; [done|].
  destruct k as [|k]; simpl in Hk.
  - injection Hk as <- <-. by exists a.
  - destruct (body s a).2; [by eapply IH | done].
Qed.

(** C1.  The epochs of the loop of [train_and_test], one call of
    [train_model] each.  The best validation F1 an epoch starts from never
    decreases along the loop, and neither does the one it returns.  When the
    validation F1 of an epoch is a score (above the sentinel [-1e8]), the
    epoch writes the checkpoint if and only if that F1 is strictly greater
    than the validation F1 of every earlier epoch; the checkpoint it writes
    is [model.pl].  An epoch that writes the checkpoint and returns has
    run [eval_model] on the validation set and then on the test set, both
    with the model it has just trained and saved: the test figures it logs
    are those of that call on the test set, and it returns its validation
    F1 as the best one and the test F1 of that call as the reported one.
    An epoch that does not write it evaluates nothing but the validation
    set and returns the best validation F1 and the test F1 it was given. *)
Theorem best_checkpoint_monotone (train_x train_y : list tensor)
    (train_lens : list (list nat)) (valid test : dataset)
    (id2label : pydict nat string) (opt : options)
    (epoch_shuffle : nat → list nat) (model0 : Model)
    (k : nat) (model : Model) (best_valid test_result : Q)
    (tr : list (event Model)) (res : result (Model * Q * Q)) :
  let body :=
    epoch_body forward_eval scorer tmp_path train_step decay_lr train_x train_y
               train_lens valid test id2label opt epoch_shuffle in
  let runs := loop_runs body (model0, no_score, no_score) (seq 0 (max_epoch opt)) in
  runs !! k = Some ((model, best_valid, test_result), (tr, res)) →
  (epoch_loop forward_eval scorer tmp_path train_step decay_lr train_x train_y
              train_lens valid test id2label opt epoch_shuffle model0).1
    = concat ((λ run, run.2.1) <$> runs) ∧
  (∀ j model_j best_j test_j run_j,
     j ≤ k → runs !! j = Some ((model_j, best_j, test_j), run_j) →
     (best_j <= best_valid)%Q) ∧
  (∀ model' b t, res = Ok (model', b, t) → (best_valid <= b)%Q) ∧
  (∀ f, valid_f1_of tr = [f] → (no_score < f)%Q →
     (saves_of tr ≠ [] ↔ Forall (λ g, (g < f)%Q) (seen_f1 (take k runs)))) ∧
  (saves_of tr = []
   ∨ ∃ saved, saves_of tr = [(path_join (model_dir opt) "model.pl", saved)]) ∧
  (∀ model' b t,
     res = Ok (model', b, t) → saves_of tr ≠ [] →
     ∃ trained io p r f io' test_p test_r,
       eval_model forward_eval scorer tmp_path trained (data_x valid) (data_y valid)
                  (data_lens valid) (data_text valid) id2label opt
         = (io, Ok (p, r, f)) ∧
       eval_model forward_eval scorer tmp_path trained (data_x test) (data_y test)
                  (data_lens test) (data_text test) id2label opt
         = (io', Ok (test_p, test_r, t)) ∧
       model' = (if Qgtb (lr_decay opt) 0 then decay_lr trained (lr_decay opt)
                 else trained) ∧
       saves_of tr = [(path_join (model_dir opt) "model.pl", trained)] ∧
       evals_of tr = [io; io'] ∧
       valid_f1_of tr = [f] ∧ b = f ∧ tests_of tr = [(test_p, test_r, t)]) ∧
  (saves_of tr = [] →
   tests_of tr = [] ∧ length (evals_of tr) ≤ 1 ∧
   ∀ model' b t,
     res = Ok (model', b, t) →
     b = best_valid ∧ t = test_result ∧
     ∃ trained io p r f,
       eval_model forward_eval scorer tmp_path trained (data_x valid) (data_y valid)
                  (data_lens valid) (data_text valid) id2label opt
         = (io, Ok (p, r, f)) ∧
       model' = (if Qgtb (lr_decay opt) 0 then decay_lr trained (lr_decay opt)
                 else trained) ∧
       evals_of tr = [io] ∧ valid_f1_of tr = [f]).
Proof.
  intros body runs Hk.
  assert (Hbody : ∀ model best_valid test_result epoch,
            ∃ path bs,
              epoch_shape epoch best_valid test_result path bs
                (body (model, best_valid, test_result) epoch).1
                (body (model, best_valid, test_result) epoch).2).
  { intros m b t epoch.
    destruct (epoch_body_shape train_x train_y train_lens valid test id2label opt
                epoch_shuffle m b t epoch) as (bs & _ & Hshape). eauto. }
  destruct (loop_runs_lookup _ _ _ _ _ _ Hk) as (epoch & _ & Hrun).
  destruct (epoch_body_shape train_x train_y train_lens valid test id2label opt
              epoch_shuffle model best_valid test_result epoch) as (bs & _ & Hshape).
  fold body in Hshape. rewrite <- Hrun in Hshape. cbn [fst snd] in Hshape.
  destruct (epoch_shape_decision _ _ _ _ _ _ _ Hshape)
    as (Hiff & Hquiet & Hfile & Hret).
  destruct (best_valid_invariant body Hbody _ model0 no_score no_score [] (Forall_nil_2 _)
              (or_introl eq_refl) k _ _ _ _ Hk) as (Hle & Hin & _).
  simpl in Hle, Hin.
  split; [apply loop_runs_trace|]. split; [|split; [|split; [|split; [|split]]]].
  - intros j model_j best_j test_j run_j Hj Hrun_j.
    pose proof (loop_runs_drop _ _ _ _ _ _ Hrun_j) as Hdrop.
    assert (Hk' : loop_runs body (model_j, best_j, test_j)
                    (drop j (seq 0 (max_epoch opt))) !! (k - j)
                  = Some ((model, best_valid, test_result), (tr, res))).
    { rewrite <- Hdrop, lookup_drop. by replace (j + (k - j)) with k by lia. }
    by eapply (best_valid_nondecreasing body Hbody).
  - intros model' b t Hres. by destruct (Hret _ _ _ Hres).
  - intros f Hf Hscore. rewrite (Hiff f Hf). split.
    + intros Hlt. eapply Forall_impl; [exact Hle|]. intros g Hg. simpl.
      by apply (Qle_lt_trans _ best_valid).
    + intros Hall. destruct Hin as [->|Hin]; [done|].
      by apply (proj1 (Forall_forall _ _) Hall).
  - done.
  - intros model' b t -> Hsaved.
    destruct (epoch_body_evaluations _ _ _ _ _ _ _ _ _ _ _ _ _ _ _ _ (eq_sym Hrun))
      as (trained & io & p & r & f & Hmodel & Hdev & Hf & Hrest).
    destruct (Qgtb f best_valid); [|by destruct Hrest as (Hnone & _)].
    destruct Hrest as (io' & test_p & test_r & test_f & Htest & Hs & He & Ht & -> & ->).
    exists trained, io, p, r, f, io', test_p, test_r. done.
  - intros Hnone. destruct (Hquiet Hnone) as [Ht He]. do 2 (split; [done|]).
    intros model' b t ->.
    destruct (epoch_body_evaluations _ _ _ _ _ _ _ _ _ _ _ _ _ _ _ _ (eq_sym Hrun))
      as (trained & io & p & r & f & Hmodel & Hdev & Hf & Hrest).
    destruct (Qgtb f best_valid).
    { destruct Hrest as (? & ? & ? & ? & _ & Hs & _). by rewrite Hs in Hnone. }
    destruct Hrest as (_ & Hevals & _ & -> & ->).
    do 2 (split; [done|]). exists trained, io, p, r, f. done.
Qed.
End OrchestratorFacts.

Lemma best_checkpoint_monotone_witness :
  ∃ model best_valid test_result tr res,
    Scenario.runs !! 1 = Some ((model, best_valid, test_result), (tr, res)) ∧
    valid_f1_of tr = [(145 # 2)%Q] ∧
    tests_of tr = [(65 # 1, 65 # 1, 65 # 1)%Q] ∧
    res = Ok (2, (145 # 2)%Q, (65 # 1)%Q) ∧
    saves_of tr ≠ [].
Proof.
  eexists _, _, _, _, _. split; [vm_compute; reflexivity|].
  do 3 (split; [reflexivity|]).
  eapply (best_checkpoint_monotone Scenario.forward_eval Scenario.scorer "tmp"
            Scenario.train_step Scenario.decay_lr
            [[[2; 3]]] [[[1; 1]]] [[2]] Scenario.valid Scenario.test
            Scenario.id2label Scenario.opt (λ _, [0]) 0 1).
  - vm_compute. reflexivity.
  - reflexivity.
  - reflexivity.
  - vm_compute. repeat constructor.
Defined.

(** ** Batches across epochs *)

Section BatchOrder.
Context {Model : Type}.
Variable forward_eval : Model → tensor → tensor → tensor.
Variable scorer : string → list string → result (Q * Q * Q).
Variable tmp_path : string.
Variable train_step : Model → tensor → tensor → list nat → result Model.
Variable decay_lr : Model → Q → Model.

Lemma steps_of_app (tr1 tr2 : list (event Model)) :
  steps_of (tr1 ++ tr2) = steps_of tr1 ++ steps_of tr2.
Proof. apply omap_app. Qed.

Lemma epoch_shape_steps (epoch : nat) (best_valid test_f1_score : Q) (path : string)
    (bs : list (tensor * (tensor * list nat)))
    (tr : list (event Model)) (res : result (Model * Q * Q)) :
  epoch_shape epoch best_valid test_f1_score path bs tr res →
  steps_of tr `prefix_of` ((λ b, (b.1, b.2.1)) <$> bs) ∧
  (is_ok res → steps_of tr = (λ b, (b.1, b.2.1)) <$> bs).
Proof.
  destruct 1 as [done e [rest ->]|io e|io model f Hf|io saved f io' e Hf
                 |io saved model f io' p r t Hf];
    rewrite ?steps_of_app, ?steps_of_step_events; simpl; rewrite ?app_nil_r.
  - split; [|by intros []]. rewrite fmap_app. by eexists.
  - done.
  - done.
  - done.
  - done.
Qed.

(** C6 (as amended).  In every epoch of the loop the batches that were
    built once, before the loop, are taken in the order that epoch's
    shuffle leaves them in: the training steps of the epoch are a
    reordering of the same batches, each with the examples it was built
    with, and all of them when the epoch returns. *)
Theorem epochs_reshuffle_batch_order (train_x train_y : list tensor)
    (train_lens : list (list nat)) (valid test : dataset)
    (id2label : pydict nat string) (opt : options)
    (epoch_shuffle : nat → list nat) (model0 : Model)
    (k : nat) (st : Model * Q * Q) (tr : list (event Model))
    (res : result (Model * Q * Q)) :
  loop_runs
    (epoch_body forward_eval scorer tmp_path train_step decay_lr train_x train_y
                train_lens valid test id2label opt epoch_shuffle)
    (model0, no_score, no_score) (seq 0 (max_epoch opt)) !! k
    = Some (st, (tr, res)) →
  length train_y = length train_x → length train_lens = length train_x →
  epoch_shuffle k ≡ₚ seq 0 (length train_x) →
  ∃ order,
    index_all (zip train_x train_y) (epoch_shuffle k) = Ok order ∧
    order ≡ₚ zip train_x train_y ∧
    steps_of tr `prefix_of` order ∧
    (is_ok res → steps_of tr = order).
Proof.
  intros Hk Hy Hlens Hperm.
  destruct (loop_runs_lookup _ _ _ _ _ _ Hk) as (epoch & Hepoch & Hrun).
  apply lookup_seq in Hepoch as [-> _]. simpl in Hrun.
  destruct st as [[model best_valid] test_result].
  destruct (epoch_body_shape forward_eval scorer tmp_path train_step decay_lr
              train_x train_y train_lens valid test id2label opt epoch_shuffle
              model best_valid test_result k) as (bs & Hbs & Hshape).
  rewrite <- Hrun in Hshape. cbn [fst snd] in Hshape.
  destruct (index_all_perm train_x (epoch_shuffle k) Hperm) as (tx & Hx & Hpx).
  destruct (index_all_perm train_y (epoch_shuffle k)) as (ty & Hty & Hpy);
    [by rewrite Hy|].
  destruct (index_all_perm train_lens (epoch_shuffle k)) as (tl & Htl & Hpl);
    [by rewrite Hlens|].
  rewrite (Hbs _ _ _ Hx Hty Htl) in Hshape.
  apply epoch_shape_steps in Hshape.
  assert (Hproj : (λ b : tensor * (tensor * list nat), (b.1, b.2.1))
                  <$> zip tx (zip ty tl) = zip tx ty).
  { assert (Hlen1 : length tx = length ty) by by rewrite Hpx, Hpy.
    assert (Hlen2 : length ty = length tl) by by rewrite Hpy, Hpl, Hy.
    clear -Hlen1 Hlen2. revert ty tl Hlen1 Hlen2.
    induction tx as [|a tx IH]; intros [|b ty] [|c tl] ??; simplify_eq/=; [done|].
    f_equal. by apply IH. }
  rewrite Hproj in Hshape.
  exists (zip tx ty). split; [by apply index_all_zip|]. split; [|done].
  destruct (index_all_perm (zip train_x train_y) (epoch_shuffle k)) as (o & Ho & Hpo).
  { rewrite length_zip, Hy. by rewrite Nat.min_id. }
  rewrite (index_all_zip _ _ _ _ _ Hx Hty) in Ho. by injection Ho as ->.
Qed.
End BatchOrder.

Lemma epochs_reshuffle_batch_order_witness :
  ∃ st tr res,
    Scenario.runs !! 1 = Some (st, (tr, res)) ∧
    steps_of tr = [([[2; 3]], [[1; 1]])].
Proof.
  eexists _, _, _. split; [vm_compute; reflexivity|].
  destruct (epochs_reshuffle_batch_order Scenario.forward_eval Scenario.scorer "tmp"
              Scenario.train_step Scenario.decay_lr
              [[[2; 3]]] [[[1; 1]]] [[2]] Scenario.valid Scenario.test
              Scenario.id2label Scenario.opt (λ _, [0]) 0 1 _ _ _ eq_refl)
    as (order & Horder & _ & _ & Hall).
  - reflexivity.
  - reflexivity.
  - reflexivity.
  - injection Horder as <-. exact (Hall I).
Defined.

(** C6, the claim as stated fails.  Two epochs over four one-token
    sentences in batches of two: both epochs train on the batch of [a], [b]
    and the batch of [c], [d], in the order of their own shuffle; a new
    bucketing of reshuffled examples, here in the order 0, 2, 1, 3, would
    have put [a] with [c] and [b] with [d]. *)
Lemma epochs_keep_batch_compositions :
  steps_of (SmallRun.run 2).1
    = [([[4]; [5]], [[2]; [3]]); ([[2]; [3]], [[2]; [3]]);
       ([[2]; [3]], [[2]; [3]]); ([[4]; [5]], [[2]; [3]])] ∧
  create_batches SmallRun.x SmallRun.y 2
    [("<oov>", 0); ("<pad>", 1); ("a", 2); ("b", 3); ("c", 4); ("d", 5)]
    [("<pad>", 0); ("O", 1); ("B-A", 2); ("I-A", 3)]
    true true (Some SmallRun.x) [0; 2; 1; 3] [0; 1]
  = Ok ([[[2]; [4]]; [[3]; [5]]], [[[2]; [2]]; [[3]; [3]]], [[1; 1]; [1; 1]],
        Some [[["a"]; ["c"]]; [["b"]; ["d"]]]).
Proof. split; by vm_compute. Qed.

(** ** The artifact directory *)

Section Artifacts.
Context {Model Embedding : Type}.
Variable forward_eval : Model → tensor → tensor → tensor.
Variable scorer : string → list string → result (Q * Q * Q).
Variable tmp_path : string.
Variable train_step : Model → tensor → tensor → list nat → result Model.
Variable decay_lr : Model → Q → Model.
Variable glove_embedding : options → pydict string nat → result Embedding.
Variable build_model : options → Embedding → nat → pydict string nat → result Model.
Variable build_optimizer : options → Model → result Model.

(** What holds of every event of every iteration holds of the loop. *)
Lemma for_each_events {E S A : Type} (P : E → Prop) (body : S → A → eff E S) :
  (∀ s a, Forall P (body s a).1) → ∀ l s, Forall P (for_each body s l).1.
Proof.
  intros Hbody. induction l as [|a l IH]; intros s; [constructor|].
  rewrite for_each_eff_cons. pose proof (Hbody s a) as Ha.
  destruct (body s a) as [tr [s'|e]]; cbn [fst] in Ha.
  - rewrite eff_bind_Ok. cbn [fst]. apply Forall_app. split; [done | apply IH].
  - by rewrite eff_bind_Raise.
Qed.

(** The events of the loop dump nothing and write no file but the
    checkpoint and the evaluation output. *)
Lemma loop_event_files (checkpoint eval_file : string) (tr : list (event Model)) :
  Forall (loop_event checkpoint eval_file) tr →
  dumps_of tr = [] ∧
  Forall (λ file, file = checkpoint ∨ file = eval_file) (files_written tr) ∧
  Forall (λ save : string * Model, save.1 = checkpoint) (saves_of tr).
Proof.
  unfold dumps_of, files_written, saves_of.
  induction 1 as [|ev tr Hev _ (IHd & IHf & IHs)]; [by repeat constructor|].
  destruct ev; simpl in *; try done.
  - split; [done|]. split; [|done]. rewrite Hev. constructor; [by right | done].
  - split; [done|]. split; constructor; done || by left.
Qed.

Lemma saves_of_loop (body : Model * Q * Q → nat → eff (event Model) (Model * Q * Q))
    (epochs : list nat) (st : Model * Q * Q) :
  saves_of (for_each body st epochs).1
  = concat ((λ run, saves_of run.2.1) <$> loop_runs body st epochs).
Proof.
  rewrite loop_runs_trace. unfold saves_of.
  induction (loop_runs body st epochs) as [|run runs IH]; [done|].
  rewrite !fmap_cons. simpl. by rewrite omap_app, IH.
Qed.

(** C9 (as amended).  A run of [train_and_test] writes nothing when the
    vocabularies, the embedding layer, the batches or the network cannot
    be built.  Otherwise it creates the directory and writes the word
    vocabulary, the label vocabulary and the configuration, in this order
    and each in a write of its own, before the optimizer is built and the
    first epoch starts.  The model parameters are not part of that set:
    the epoch loop dumps nothing; the files it writes are [model.pl] and
    the output file of the evaluations; and an epoch writes [model.pl]
    once if its validation F1 is strictly greater than the best one so
    far and not at all otherwise.  So the directory holds the
    configuration without model parameters from start-up to the first
    such epoch. *)
Theorem artifacts_written (opt : options)
    (train_x train_y dev_x dev_y test_x test_y : corpus)
    (shuffled pos_shuffled : list nat) (epoch_shuffle : nat → list nat) :
  let run :=
    train_and_test forward_eval scorer tmp_path train_step decay_lr
      glove_embedding build_model build_optimizer
      opt train_x train_y dev_x dev_y test_x test_y shuffled pos_shuffled
      epoch_shuffle in
  (∃ e, run = ([], Raise e))
  ∨ ∃ word2id label2id id2label embedding train dev test model0,
      make_dict (label_file opt) train_x (Some train_y) (Some dev_y) (Some test_y)
        = Ok (word2id, label2id, id2label) ∧
      load_embedding glove_embedding opt word2id = Ok embedding ∧
      create_dataset train_x train_y (batch_size opt) word2id label2id true true
                     shuffled pos_shuffled = Ok train ∧
      create_dataset dev_x dev_y (batch_size opt) word2id label2id false false [] []
        = Ok dev ∧
      create_dataset test_x test_y (batch_size opt) word2id label2id false false [] []
        = Ok test ∧
      build_model opt embedding (dict_len label2id) label2id = Ok model0 ∧
      let start_up :=
        [Makedirs (model_dir opt);
         Dump (path_join (model_dir opt) "word2id.dict") (WordDict word2id);
         Dump (path_join (model_dir opt) "label2id.dict") (LabelDict label2id);
         Dump (path_join (model_dir opt) "config.dict") (Config opt)] in
      (∃ e, build_optimizer opt model0 = Raise e ∧ run = (start_up, Raise e))
      ∨ ∃ model1 final,
          build_optimizer opt model0 = Ok model1 ∧
          let loop :=
            epoch_loop forward_eval scorer tmp_path train_step decay_lr
                       (data_x train) (data_y train) (data_lens train) dev test
                       id2label opt epoch_shuffle model1 in
          let runs :=
            loop_runs
              (epoch_body forward_eval scorer tmp_path train_step decay_lr
                          (data_x train) (data_y train) (data_lens train) dev test
                          id2label opt epoch_shuffle)
              (model1, no_score, no_score) (seq 0 (max_epoch opt)) in
          run.1 = start_up ++ loop.1 ++ final ∧
          (final = [] ∨ ∃ best_valid test_result,
                          final = [LogFinal best_valid test_result]) ∧
          dumps_of loop.1 = [] ∧
          Forall (λ file, file = path_join (model_dir opt) "model.pl"
                          ∨ file = default tmp_path (output opt))
                 (files_written loop.1) ∧
          saves_of loop.1 = concat ((λ run, saves_of run.2.1) <$> runs) ∧
          ∀ k model best_valid test_result tr res,
            runs !! k = Some ((model, best_valid, test_result), (tr, res)) →
            (saves_of tr = []
             ∨ ∃ saved,
                 saves_of tr = [(path_join (model_dir opt) "model.pl", saved)]) ∧
            ∀ f, valid_f1_of tr = [f] → (saves_of tr ≠ [] ↔ (best_valid < f)%Q).
Proof.
  intros run. subst run. unfold train_and_test.
  destruct (make_dict _ _ _ _ _) as [[[word2id label2id] id2label]|e] eqn:Hdict;
    [rewrite eff_bind_lift_Ok; cbv beta iota zeta | left; by exists e].
  destruct (load_embedding glove_embedding opt word2id) as [embedding|e] eqn:Hemb;
    [rewrite eff_bind_lift_Ok | left; by exists e].
  destruct (create_dataset train_x _ _ _ _ _ _ _ _) as [train|e] eqn:Htrain;
    [rewrite eff_bind_lift_Ok | left; by exists e].
  destruct (create_dataset dev_x _ _ _ _ _ _ _ _) as [dev|e] eqn:Hdev;
    [rewrite eff_bind_lift_Ok | left; by exists e].
  destruct (create_dataset test_x _ _ _ _ _ _ _ _) as [test|e] eqn:Htest;
    [rewrite eff_bind_lift_Ok | left; by exists e].
  destruct (build_model opt embedding _ label2id) as [model0|e] eqn:Hmodel;
    [rewrite eff_bind_lift_Ok | left; by exists e].
  right. exists word2id, label2id, id2label, embedding, train, dev, test, model0.
  do 6 (split; [done|]). cbv zeta.
  rewrite !eff_bind_emit. cbn [fst snd].
  destruct (build_optimizer opt model0) as [model1|e] eqn:Hopt;
    [rewrite eff_bind_lift_Ok | left; by exists e].
  right.
  set (body := epoch_body forward_eval scorer tmp_path train_step decay_lr
                 (data_x train) (data_y train) (data_lens train) dev test
                 id2label opt epoch_shuffle).
  assert (Hevents : Forall (loop_event (path_join (model_dir opt) "model.pl")
                                       (default tmp_path (output opt)))
                           (for_each body (model1, no_score, no_score)
                                     (seq 0 (max_epoch opt))).1).
  { apply for_each_events. intros st epoch. apply epoch_body_events. }
  apply loop_event_files in Hevents as (Hd & Hf & _).
  assert (Hepochs : ∀ k model best_valid test_result tr res,
            loop_runs body (model1, no_score, no_score) (seq 0 (max_epoch opt)) !! k
              = Some ((model, best_valid, test_result), (tr, res)) →
            (saves_of tr = []
             ∨ ∃ saved,
                 saves_of tr = [(path_join (model_dir opt) "model.pl", saved)]) ∧
            ∀ f, valid_f1_of tr = [f] → (saves_of tr ≠ [] ↔ (best_valid < f)%Q)).
  { intros k model best_valid test_result tr res Hk.
    destruct (loop_runs_lookup _ _ _ _ _ _ Hk) as (epoch & _ & Hrun).
    destruct (epoch_body_shape forward_eval scorer tmp_path train_step decay_lr
                (data_x train) (data_y train) (data_lens train) dev test id2label
                opt epoch_shuffle model best_valid test_result epoch)
      as (bs & _ & Hshape).
    fold body in Hshape. rewrite <- Hrun in Hshape. cbn [fst snd] in Hshape.
    by destruct (epoch_shape_decision _ _ _ _ _ _ _ Hshape) as (Hiff & _ & Hfile & _). }
  unfold epoch_loop. fold no_score body.
  pose proof (saves_of_loop body (seq 0 (max_epoch opt)) (model1, no_score, no_score))
    as Hs.
  exists model1. cbv zeta. unfold epoch_loop. fold no_score body.
  revert Hd Hf Hs.
  destruct (for_each body _ _) as [tr [[[m b] t]|e]]; cbn [fst snd]; intros Hd Hf Hs.
  - rewrite eff_bind_Ok. exists [LogFinal b t].
    split; [done|]. split; [done|]. split; [eauto|]. done.
  - rewrite eff_bind_Raise. exists []. split; [done|].
    rewrite app_nil_r. split; [done|]. split; [by left|]. done.
Qed.
End Artifacts.

Lemma artifacts_written_witness :
  ∃ loop_trace final,
    (SmallRun.run 2).1
    = [Makedirs "model";
       Dump "model/word2id.dict"
         (WordDict [("<oov>", 0); ("<pad>", 1); ("a", 2); ("b", 3); ("c", 4); ("d", 5)]);
       Dump "model/label2id.dict"
         (LabelDict [("<pad>", 0); ("O", 1); ("B-A", 2); ("I-A", 3)]);
       Dump "model/config.dict" (Config (SmallRun.opt 2))]
      ++ loop_trace ++ final ∧
    dumps_of loop_trace = [] ∧
    Forall (λ file, file = "model/model.pl" ∨ file = "tmp") (files_written loop_trace).
Proof.
  destruct (artifacts_written (Model := nat) (Embedding := unit)
              (λ _ _ y, y) (λ _ _, Ok (0, 0, 0)%Q) "tmp"
              Scenario.train_step Scenario.decay_lr
              (λ _ _, Ok ()) (λ _ _ _ _, Ok 0) (λ _ model, Ok model) (SmallRun.opt 2)
              SmallRun.x SmallRun.y [["d"]] [["B-A"]] [["t"]] [["B-A"]]
              [0; 1; 2; 3] [0; 1] SmallRun.epoch_shuffle)
    as [[e Hfail]
       |(w & l & i & emb & train & dev & test & m0 & Hw & _ & Htrain & Hdev & Htest
         & Hm0 & [(e & _ & Hfail)|(m1 & final & Hm1 & Htrace & _ & Hdumps & Hfiles & _)])].
  - vm_compute in Hfail. discriminate.
  - vm_compute in Hfail. discriminate.
  - vm_compute in Hw. injection Hw as <- <- <-.
    vm_compute in Htrain, Hdev, Htest. injection Htrain as <-. injection Hdev as <-.
    injection Htest as <-. injection Hm0 as <-. injection Hm1 as <-.
    eexists _, final. split; [exact Htrace|]. split; [exact Hdumps | exact Hfiles].
Defined.

(** C9, the claim as stated fails.  A run of no epoch returns with the two
    vocabularies and the configuration written and no model parameters at
    all.  In a run of two epochs the same three files and the evaluation
    output are the only ones written during the training steps and the
    validation of the first epoch; [model.pl] is written by the ninth event
    of the run. *)
Lemma configuration_without_parameters :
  files_written (SmallRun.run 0).1
    = ["model/word2id.dict"; "model/label2id.dict"; "model/config.dict"] ∧
  (SmallRun.run 0).2 = Ok (no_score, no_score) ∧
  files_written (take 8 (SmallRun.run 2).1)
    = ["model/word2id.dict"; "model/label2id.dict"; "model/config.dict"; "tmp"] ∧
  (SmallRun.run 2).1 !! 8 = Some (Save "model/model.pl" 2).
Proof. repeat split; by vm_compute. Qed.

(** ** [make_dict]: the vocabulary *)

Section DictSetFacts.
Context {K V : Type} `{EqDecision K}.
Implicit Types (d : pydict K V) (k : K) (v : V).

(** Reading a dictionary after an assignment. *)
Lemma dict_get_set k' k v d :
  dict_get k' (dict_set k v d) = if decide (k' = k) then Some v else dict_get k' d.
Proof.
  induction d as [|[k0 v0] d IH]; simpl.
  - destruct (decide (k' = k)); done.
  - destruct (decide (k = k0)) as [->|Hne]; simpl.
    + destruct (decide (k' = k0)); done.
    + destruct (decide (k' = k0)) as [->|Hne'].
      * by rewrite decide_False by done.
      * exact IH.
Qed.

Lemma dict_set_len k v d : dict_len d ≤ dict_len (dict_set k v d).
Proof.
  unfold dict_len. induction d as [|[k0 v0] d IH]; simpl; [lia|].
  destruct (decide (k = k0)); simpl; lia.
Qed.
End DictSetFacts.

(** The loop of lines 95-96 over distinct words that are not in the
    dictionary yet appends them with consecutive ids. *)
Lemma word_loop_fresh (ws : list string) (d : pydict string nat) :
  NoDup ws → (∀ w, w ∈ ws → w ∉ d.*1) →
  fold_left (λ word2id word, dict_set word (dict_len word2id) word2id) ws d
  = d ++ imap (λ i w, (w, length d + i)) ws.
Proof.
  revert d. induction ws as [|w ws IH]; intros d Hnd Hd; simpl.
  - by rewrite app_nil_r.
  - apply NoDup_cons in Hnd as [Hw Hnd].
    rewrite dict_set_fresh by (apply Hd; left).
    rewrite IH; [|done|].
    + rewrite <- app_assoc. simpl. unfold dict_len. rewrite Nat.add_0_r. do 2 f_equal.
      apply imap_ext. intros i x _. simpl. rewrite length_app. simpl. f_equal. lia.
    + intros w' Hw'. rewrite fmap_app, elem_of_app. simpl.
      intros [H|H]; [by apply (Hd w'); [right|] |].
      apply list_elem_of_singleton in H. by subst.
Qed.

Lemma word_set_of_spec (train_x : corpus) :
  NoDup (word_set_of train_x) ∧
  Sorted (λ a b, String.leb a b = true) (word_set_of train_x) ∧
  ∀ w, w ∈ word_set_of train_x ↔ w ∈ flatten train_x.
Proof.
  unfold word_set_of. split; [|split].
  - rewrite sorted_perm. apply NoDup_elements.
  - apply sorted_Sorted, String.leb_total.
  - intros w. by rewrite sorted_perm, elem_of_elements, elem_of_list_to_set.
Qed.

Lemma make_dict_word2id label_file train_x train_y dev_y test_y word2id label2id id2label :
  make_dict label_file train_x train_y dev_y test_y = Ok (word2id, label2id, id2label) →
  word2id = build_word2id (word_set_of train_x) ∧
  ∃ label_set, label2id = build_label2id label_set ∧
               label_set_of label_file train_y dev_y test_y = Ok label_set.
Proof.
  unfold make_dict. intros H. apply bind_Ok_inv in H as (ls & Hls & H).
  injection H as <- <- <-. eauto.
Qed.

(** X1.  When neither reserved token occurs in the training sentences,
    [word2id] is ["<oov>"] at id 0, ["<pad>"] at id 1 and then the distinct
    training tokens in sorted order from id 2 on: a token has an id of 2 or
    more exactly when it occurs in the training sentences, the ids are the
    positions [0 .. len(word2id) - 1], and no two words share an id. *)
Theorem make_dict_word_ids (label_file : option (list string)) (train_x : corpus)
    (train_y dev_y test_y : option corpus)
    (word2id label2id : pydict string nat) (id2label : pydict nat string) :
  make_dict label_file train_x train_y dev_y test_y = Ok (word2id, label2id, id2label) →
  "<oov>" ∉ flatten train_x → "<pad>" ∉ flatten train_x →
  word2id = ("<oov>", 0) :: ("<pad>", 1)
            :: imap (λ i w, (w, 2 + i)) (word_set_of train_x) ∧
  Sorted (λ a b, String.leb a b = true) (word_set_of train_x) ∧
  (∀ w, w ∈ flatten train_x ↔ ∃ i, dict_get w word2id = Some i ∧ 2 ≤ i) ∧
  (∀ i, i < dict_len word2id ↔ ∃ w, dict_get w word2id = Some i) ∧
  (∀ w w' i, dict_get w word2id = Some i → dict_get w' word2id = Some i → w = w').
Proof.
  intros Hrun Hoov Hpad.
  apply make_dict_word2id in Hrun as [-> _].
  destruct (word_set_of_spec train_x) as (Hnd & Hsorted & Hin).
  set (ws := word_set_of train_x) in *.
  assert (Hall : NoDup ("<oov>" :: "<pad>" :: ws)).
  { apply NoDup_cons. split.
    - rewrite not_elem_of_cons. split; [done | by rewrite Hin].
    - apply NoDup_cons. split; [by rewrite Hin | done]. }
  assert (Heq : build_word2id ws
                = imap (λ i w, (w, i)) ("<oov>" :: "<pad>" :: ws)).
  { unfold build_word2id. rewrite word_loop_fresh; [done | done |].
    intros w _. simpl. apply not_elem_of_nil. }
  assert (Hkeys : (imap (λ i w, (w, i)) ("<oov>" :: "<pad>" :: ws)).*1
                  = "<oov>" :: "<pad>" :: ws).
  { rewrite fmap_imap. unfold compose. simpl.
    f_equal. f_equal. clear. generalize 2 as n. intros n.
    induction ws as [|w ws IH] using rev_ind; [done|].
    rewrite imap_app. simpl. by rewrite IH at 1. }
  assert (Hget : ∀ w i, dict_get w (build_word2id ws) = Some i
                        ↔ ("<oov>" :: "<pad>" :: ws) !! i = Some w).
  { intros w i. rewrite Heq. split.
    - intros H. apply dict_get_Some, list_elem_of_lookup in H as [j Hj].
      rewrite list_lookup_imap in Hj.
      destruct (_ !! j) as [w'|] eqn:Hw'; simplify_eq/=. done.
    - intros H. apply dict_get_NoDup; [by rewrite Hkeys|].
      apply list_elem_of_lookup. exists i. rewrite list_lookup_imap, H. done. }
  split; [by rewrite Heq|]. split; [done|]. split; [|split].
  - intros w. rewrite <- Hin. split.
    + intros Hw. apply list_elem_of_lookup in Hw as [j Hj].
      exists (2 + j). split; [by apply Hget | lia].
    + intros (i & Hi & Hge). apply Hget in Hi.
      destruct i as [|[|i]]; [lia | lia |]. simpl in Hi.
      by eapply list_elem_of_lookup_2.
  - intros i. unfold dict_len. rewrite Heq, length_imap. split.
    + intros Hi. destruct (lookup_lt_is_Some_2 ("<oov>" :: "<pad>" :: ws) i Hi) as [w Hw].
      exists w. rewrite <- Heq. by apply Hget.
    + intros (w & Hw). rewrite <- Heq in Hw. apply Hget in Hw.
      by eapply lookup_lt_Some.
  - intros w w' i Hw Hw'. apply Hget in Hw, Hw'. congruence.
Qed.

Lemma make_dict_word_ids_witness :
  ∃ word2id label2id id2label,
    make_dict (Some ["X"]) [["the"; "dog"]; ["a"; "dog"]] None None None
      = Ok (word2id, label2id, id2label) ∧
    word2id = [("<oov>", 0); ("<pad>", 1); ("a", 2); ("dog", 3); ("the", 4)].
Proof.
  eexists _, _, _. split; [reflexivity|].
  destruct (make_dict_word_ids (Some ["X"]) [["the"; "dog"]; ["a"; "dog"]] None None None
              _ _ _ eq_refl) as (Heq & _).
  - apply (bool_decide_unpack _). vm_compute. reflexivity.
  - apply (bool_decide_unpack _). vm_compute. reflexivity.
  - rewrite Heq. vm_compute. reflexivity.
Defined.

Lemma word_step_reserved_kept (d : pydict string nat) (w : string) :
  reserved_kept d → reserved_kept (dict_set w (dict_len d) d).
Proof.
  intros [Hlen Hres]. split.
  - pose proof (dict_set_len w (dict_len d) d). lia.
  - intros w' i. rewrite dict_get_set. destruct (decide (w' = w)) as [->|_].
    + intros [= <-] ?. lia.
    + apply Hres.
Qed.

Lemma word_step_id_free (d : pydict string nat) (w : string) (p : nat) :
  p < 2 → reserved_kept d → (∀ w', dict_get w' d ≠ Some p) →
  ∀ w', dict_get w' (dict_set w (dict_len d) d) ≠ Some p.
Proof.
  intros Hp [Hlen _] Hfree w'. rewrite dict_get_set.
  destruct (decide (w' = w)); [intros [= <-]; lia | apply Hfree].
Qed.

Lemma word_loop_id_lost (ws : list string) (r : string) (p : nat) :
  p < 2 → (∀ w i, (i = 0 ∧ w = "<oov>") ∨ (i = 1 ∧ w = "<pad>") → i = p → w = r) →
  r ∈ ws →
  ∀ d, reserved_kept d →
    ∀ w, dict_get w
           (fold_left (λ word2id word, dict_set word (dict_len word2id) word2id) ws d)
         ≠ Some p.
Proof.
  intros Hp Hr Hin.
  assert (Hfree : ∀ ws d, reserved_kept d → (∀ w, dict_get w d ≠ Some p) →
            ∀ w, dict_get w
                   (fold_left (λ word2id word, dict_set word (dict_len word2id) word2id) ws d)
                 ≠ Some p).
  { clear ws Hin. induction ws as [|w ws IH]; intros d Hd Hf; [done|]. simpl.
    apply IH; [by apply word_step_reserved_kept | by apply word_step_id_free]. }
  induction ws as [|w ws IH]; intros d Hd; [by apply elem_of_nil in Hin|].
  simpl. apply elem_of_cons in Hin as [<-|Hin].
  - apply Hfree; [by apply word_step_reserved_kept|].
    destruct Hd as [Hlen Hres]. intros w'. rewrite dict_get_set.
    destruct (decide (w' = r)) as [->|Hne]; [intros [= <-]; lia|].
    intros Hw'. apply Hne. eapply Hr; [by apply (Hres w' p) | done].
  - apply IH; [done | by apply word_step_reserved_kept].
Qed.

(** X2.  A reserved token among the training tokens is assigned a second
    time by the loop of lines 95-96 and takes the size of the dictionary as
    its new id: with ["<oov>"] in the training sentences no word has id 0,
    with ["<pad>"] in them no word has id 1, and the token itself has an id
    of 2 or more. *)
Theorem make_dict_reserved_token_in_data (label_file : option (list string))
    (train_x : corpus) (train_y dev_y test_y : option corpus)
    (word2id label2id : pydict string nat) (id2label : pydict nat string)
    (r : string) (p : nat) :
  make_dict label_file train_x train_y dev_y test_y = Ok (word2id, label2id, id2label) →
  (r = "<oov>" ∧ p = 0) ∨ (r = "<pad>" ∧ p = 1) →
  r ∈ flatten train_x →
  (∀ w, dict_get w word2id ≠ Some p) ∧
  ∃ i, dict_get r word2id = Some i ∧ 2 ≤ i.
Proof.
  intros Hrun Hr Hin.
  apply make_dict_word2id in Hrun as [-> _].
  destruct (word_set_of_spec train_x) as (_ & _ & Hws). apply Hws in Hin.
  assert (Hres : reserved_kept [("<oov>", 0); ("<pad>", 1)]).
  { split; [done|]. intros w i. simpl.
    repeat case_decide; intros; simplify_eq; auto. }
  assert (Hlost : ∀ w, dict_get w (build_word2id (word_set_of train_x)) ≠ Some p).
  { unfold build_word2id. simpl.
    apply (word_loop_id_lost _ r p); [ | | done | done].
    - destruct Hr as [[_ ->]|[_ ->]]; lia.
    - intros w i [[-> ->]|[-> ->]] <-; destruct Hr as [[-> ?]|[-> ?]]; done || lia. }
  split; [done|].
  assert (Hkept : ∀ ws d, reserved_kept d →
            reserved_kept
              (fold_left (λ word2id word, dict_set word (dict_len word2id) word2id) ws d)).
  { induction ws as [|w ws IH]; intros d Hd; [done|]. simpl.
    by apply IH, word_step_reserved_kept. }
  assert (Hhas : ∀ ws d, is_Some (dict_get r d) →
            is_Some (dict_get r
              (fold_left (λ word2id word, dict_set word (dict_len word2id) word2id) ws d))).
  { induction ws as [|w ws IH]; intros d Hd; [done|]. simpl. apply IH.
    rewrite dict_get_set. by case_decide. }
  destruct (Hhas (word_set_of train_x) [("<oov>", 0); ("<pad>", 1)]) as [i Hi].
  { destruct Hr as [[-> _]|[-> _]]; simpl; eauto. }
  exists i. split; [exact Hi|].
  destruct (Hkept (word_set_of train_x) _ Hres) as [_ Hlow].
  destruct (decide (i < 2)) as [Hi2|]; [|lia].
  destruct (Hlow _ _ Hi Hi2) as [[-> ->]|[-> ->]];
    destruct Hr as [[? ->]|[? ->]]; simplify_eq; by destruct (Hlost _ Hi).
Qed.

Lemma make_dict_reserved_token_in_data_witness :
  ∃ word2id label2id id2label,
    make_dict (Some ["X"]) [["<pad>"; "zoo"]] None None None
      = Ok (word2id, label2id, id2label) ∧
    ∀ w, dict_get w word2id ≠ Some 1.
Proof.
  eexists _, _, _. split; [reflexivity|].
  apply (make_dict_reserved_token_in_data (Some ["X"]) [["<pad>"; "zoo"]] None None None
           _ _ _ "<pad>" 1 eq_refl).
  - right. split; reflexivity.
  - apply (bool_decide_unpack _). vm_compute. reflexivity.
Defined.

(** ** [make_dict]: which tags get an id *)

(** The keys of [label2id], whatever the label set. *)
Lemma build_label2id_keys (labels : list string) (key : string) :
  key ∈ (build_label2id labels).*1 ↔
  key = "<pad>" ∨ key = "O"
  ∨ ∃ label, label ∈ labels ∧ (key = "B-" +:+ label ∨ key = "I-" +:+ label).
Proof.
  unfold build_label2id. simpl.
  assert (Hset : ∀ (d : pydict string nat) k v k',
            k' ∈ (dict_set k v d).*1 ↔ k' = k ∨ k' ∈ d.*1).
  { intros d k v k'. induction d as [|[k0 v0] d IH]; simpl.
    - rewrite elem_of_cons. tauto.
    - destruct (decide (k = k0)) as [->|Hne]; simpl.
      + rewrite !elem_of_cons. tauto.
      + rewrite !elem_of_cons, IH. tauto. }
  assert (Hloop : ∀ ls (d : pydict string nat),
            key ∈ (fold_left
                     (λ label2id label,
                        let label2id := dict_set ("B-" +:+ label) (dict_len label2id) label2id in
                        dict_set ("I-" +:+ label) (dict_len label2id) label2id)
                     ls d).*1
            ↔ key ∈ d.*1
              ∨ ∃ label, label ∈ ls ∧ (key = "B-" +:+ label ∨ key = "I-" +:+ label)).
  { induction ls as [|l ls IH]; intros d; simpl.
    - split; [by left | intros [?|(? & H & _)]; [done | by apply elem_of_nil in H]].
    - rewrite IH, !Hset. split.
      + intros [[->|[->|H]]|(l' & Hl' & Hk)]; eauto.
        * right. exists l. split; [left|]; auto.
        * right. exists l. split; [left|]; auto.
        * right. exists l'. split; [by right|]; auto.
      + intros [H|(l' & Hl' & Hk)]; [by left; right; right|].
        apply elem_of_cons in Hl' as [->|Hl'].
        * destruct Hk as [->| ->]; left; auto.
        * right. eauto. }
  rewrite Hloop. simpl. rewrite !elem_of_cons, elem_of_nil. tauto.
Qed.

(** X3.  With the label set derived from the data (no label file), every
    tag of the three splits that follows the BIO scheme has an id in
    [label2id]: ["O"], and [B-l] and [I-l] for a base label [l] that holds
    no [B-] or [I-] itself. *)
Theorem make_dict_bio_tags_known (train_x tr dv ts : corpus)
    (word2id label2id : pydict string nat) (id2label : pydict nat string) (tag : string) :
  make_dict None train_x (Some tr) (Some dv) (Some ts) = Ok (word2id, label2id, id2label) →
  tag ∈ flatten tr ++ flatten dv ++ flatten ts → bio_tag tag →
  is_Some (dict_get tag label2id).
Proof.
  intros Hrun Hin Hbio.
  apply make_dict_word2id in Hrun as (_ & ls & -> & Hls).
  simpl in Hls. injection Hls as <-.
  destruct (dict_get tag _) eqn:Hget; [eauto|]. exfalso.
  apply dict_get_None in Hget. apply Hget, build_label2id_keys.
  destruct Hbio as [->|(l & Hclean & Htag)]; [auto|].
  right; right. exists l. split; [|done].
  rewrite sorted_perm, elem_of_elements, !elem_of_union, !elem_of_purify.
  assert (Hp : l = purify_item tag).
  { destruct Htag as [-> | ->]; by rewrite ?purify_item_B, ?purify_item_I. }
  rewrite !elem_of_app in Hin.
  destruct Hin as [?|[?|?]]; [left; left | left; right | right]; by exists tag.
Qed.

Lemma make_dict_bio_tags_known_witness :
  ∃ word2id label2id id2label,
    make_dict None [["a"; "b"]] (Some [["O"; "B-LOC"]]) (Some [["I-LOC"]]) (Some [])
      = Ok (word2id, label2id, id2label) ∧
    is_Some (dict_get "I-LOC" label2id).
Proof.
  eexists _, _, _. split; [reflexivity|].
  apply (make_dict_bio_tags_known [["a"; "b"]] [["O"; "B-LOC"]] [["I-LOC"]] [] _ _ _ "I-LOC"
           eq_refl).
  - apply (bool_decide_unpack _). vm_compute. reflexivity.
  - right. exists "LOC". split; [reflexivity | by right].
Defined.

(** X4.  Whatever the source of the label set, the only labels with an id
    are ["<pad>"], ["O"] and the [B-] and [I-] variants of the base labels:
    a tag without such a prefix, like a part-of-speech tag ["NOUN"], has no
    id even when the label set was derived from data that uses it. *)
Theorem make_dict_label_keys (label_file : option (list string)) (train_x : corpus)
    (train_y dev_y test_y : option corpus)
    (word2id label2id : pydict string nat) (id2label : pydict nat string)
    (tag : string) (idx : nat) :
  make_dict label_file train_x train_y dev_y test_y = Ok (word2id, label2id, id2label) →
  dict_get tag label2id = Some idx →
  tag = "<pad>" ∨ tag = "O" ∨ ∃ label, tag = "B-" +:+ label ∨ tag = "I-" +:+ label.
Proof.
  intros Hrun Hget.
  apply make_dict_word2id in Hrun as (_ & ls & -> & _).
  assert (Hin : tag ∈ (build_label2id ls).*1).
  { destruct (decide (tag ∈ (build_label2id ls).*1)) as [|Hno]; [done|].
    apply dict_get_None in Hno. congruence. }
  apply build_label2id_keys in Hin as [?|[?|(l & _ & ?)]]; eauto.
Qed.

Lemma make_dict_label_keys_witness :
  ∃ word2id label2id id2label,
    make_dict None [["a"]] (Some [["NOUN"; "O"]]) (Some []) (Some [])
      = Ok (word2id, label2id, id2label) ∧
    dict_get "NOUN" label2id = None ∧ dict_get "B-NOUN" label2id = Some 2.
Proof.
  eexists _, _, _. split; [reflexivity|]. split.
  - destruct (dict_get "NOUN" _) as [idx|] eqn:Hget; [|reflexivity].
    destruct (make_dict_label_keys None [["a"]] (Some [["NOUN"; "O"]]) (Some []) (Some [])
                _ _ _ "NOUN" idx eq_refl Hget) as [H|[H|[l [H|H]]]]; discriminate H.
  - vm_compute. reflexivity.
Defined.

(** ** [create_one_batch]: when it returns and how it fails *)

Section ForEachFacts.
Context {S A : Type}.

(** A loop that returns has kept every invariant of its body, and every
    iteration has returned from a state that satisfied it. *)
Lemma for_each_Ok_inv (Inv : S → Prop) (body : S → A → result S) :
  (∀ s a s', Inv s → body s a = Ok s' → Inv s') →
  ∀ l s s', Inv s → for_each body s l = Ok s' →
    Inv s' ∧ Forall (λ a, ∃ s1 s2, Inv s1 ∧ body s1 a = Ok s2) l.
Proof.
  intros Hbody. induction l as [|a l IH]; intros s s' Hs Hrun.
  - injection Hrun as <-. by split.
  - rewrite for_each_result_cons in Hrun.
    apply bind_Ok_inv in Hrun as (s1 & Ha & Hrun).
    destruct (IH s1 s' (Hbody _ _ _ Hs Ha) Hrun) as [Hs' Hl].
    split; [done|]. constructor; eauto.
Qed.

(** Two loops whose bodies differ only where the first raises [e]. *)
Lemma for_each_sim (e : exn) (body body' : S → A → result S) :
  (∀ s a, body s a = body' s a ∨ body s a = Raise e) →
  ∀ l s, for_each body s l = for_each body' s l ∨ for_each body s l = Raise e.
Proof.
  intros Hbody. induction l as [|a l IH]; intros s; [by left|].
  rewrite !for_each_result_cons.
  destruct (Hbody s a) as [-> | ->]; [|by right].
  destruct (body' s a) as [s1|e1]; simpl; [apply IH | by left].
Qed.
End ForEachFacts.

Section FillTensorInv.
Context (value : string → result nat).

(** [fill_tensor] returns only if every sentence fits into a row and every
    one of its items has a value. *)
Lemma fill_tensor_Ok_inv (rows m pad : nat) (x : corpus) (t : tensor) :
  fill_tensor value (full rows m pad) x = Ok t →
  Forall (λ x_i, length x_i ≤ m ∧ Forall (λ w, is_ok (value w) = true) x_i) x.
Proof.
  unfold fill_tensor. intros Hrun.
  set (Inv := λ t : tensor, Forall (λ row : list nat, length row = m) t).
  assert (Hset : ∀ (t t' : tensor) i j v,
            Inv t → tensor_set t i j v = Ok t' → Inv t' ∧ j < m).
  { intros t0 t' i j v Ht. unfold tensor_set.
    destruct (t0 !! i) as [row|] eqn:Hrow; [|done]. simpl.
    assert (Hlen : length row = m)
      by (eapply (proj1 (Forall_forall _ _) Ht), list_elem_of_lookup_2, Hrow).
    case_decide; [|done]. intros [= <-]. split; [|lia].
    apply Forall_insert; [done|]. by rewrite length_insert. }
  assert (Hinner : ∀ (t0 t' : tensor) i (x_i : list string),
            Inv t0 →
            for_each (λ t (jx : nat * string), v ← value jx.2; tensor_set t i jx.1 v)
                     t0 (enumerate x_i) = Ok t' →
            Inv t' ∧ length x_i ≤ m ∧ Forall (λ w, is_ok (value w) = true) x_i).
  { intros t0 t' i x_i Ht0 Hin.
    assert (Hstep : ∀ s (jx : nat * string) s',
              Inv s → (v ← value jx.2; tensor_set s i jx.1 v) = Ok s' → Inv s').
    { intros s [j w] s' Hs Hb. apply bind_Ok_inv in Hb as (v & _ & Hb).
      by apply (Hset _ _ _ _ _ Hs Hb). }
    destruct (for_each_Ok_inv Inv _ Hstep _ _ _ Ht0 Hin) as [Ht' Hall].
    split; [done|].
    assert (Hjw : ∀ j w, x_i !! j = Some w → j < m ∧ is_ok (value w) = true).
    { intros j w Hj.
      assert (Hel : (j, w) ∈ enumerate x_i).
      { apply list_elem_of_lookup. exists j. unfold enumerate.
        by rewrite list_lookup_imap, Hj. }
      destruct (proj1 (Forall_forall _ _) Hall _ Hel) as (s1 & s2 & Hs1 & Hb).
      apply bind_Ok_inv in Hb as (v & Hv & Hb). simpl in Hv, Hb.
      split; [by apply (Hset _ _ _ _ _ Hs1 Hb) | by rewrite Hv]. }
    split.
    - destruct (decide (length x_i = 0)) as [->|Hne]; [lia|].
      destruct (lookup_lt_is_Some_2 x_i (length x_i - 1)) as [w Hw]; [lia|].
      apply Hjw in Hw. lia.
    - apply Forall_forall. intros w Hw. apply list_elem_of_lookup in Hw as [j Hj].
      by apply (Hjw j w). }
  assert (Hstep : ∀ s (ix : nat * list string) s',
            Inv s →
            for_each (λ t (jx : nat * string), v ← value jx.2; tensor_set t ix.1 jx.1 v)
                     s (enumerate ix.2) = Ok s' → Inv s').
  { intros s [i x_i] s' Hs Hb. by destruct (Hinner _ _ _ _ Hs Hb). }
  assert (Hfull : Inv (full rows m pad)).
  { unfold Inv, full. apply Forall_replicate. by rewrite length_replicate. }
  destruct (for_each_Ok_inv Inv _ Hstep _ _ _ Hfull Hrun) as [_ Hall].
  apply Forall_forall. intros x_i Hx_i. apply list_elem_of_lookup in Hx_i as [i Hi].
  assert (Hel : (i, x_i) ∈ enumerate x).
  { apply list_elem_of_lookup. exists i. unfold enumerate.
    by rewrite list_lookup_imap, Hi. }
  destruct (proj1 (Forall_forall _ _) Hall _ Hel) as (s1 & s2 & Hs1 & Hb).
  by destruct (Hinner _ _ _ _ Hs1 Hb) as (_ & ? & ?).
Qed.
End FillTensorInv.

(** The only exception of the label loop that is not one of the loop over
    ids that always exist is [KeyError]. *)
Lemma fill_tensor_labels (label2id : pydict string nat) (t : tensor) (y : corpus) :
  fill_tensor (λ y_ij, dict_item y_ij label2id) t y
  = fill_tensor (λ y_ij, Ok (default 0 (dict_get y_ij label2id))) t y
  ∨ fill_tensor (λ y_ij, dict_item y_ij label2id) t y = Raise KeyError.
Proof.
  unfold fill_tensor. apply for_each_sim. intros s [i y_i]. apply for_each_sim.
  intros s' [j tag]. unfold dict_item. simpl.
  destruct (dict_get tag label2id); [by left | by right].
Qed.

Lemma index_all_take {A : Type} (y : list A) (lst : list nat) (n : nat) :
  Forall (λ i, i < n) lst → index_all y lst = index_all (take n y) lst.
Proof.
  intros Hlst. unfold index_all. f_equal.
  induction Hlst as [|i lst Hi _ IH]; [done|]. simpl.
  by rewrite IH, lookup_take_lt.
Qed.

(** Indexing a list by a permutation of the first [n] positions. *)
Lemma index_all_prefix_perm {A : Type} (y : list A) (lst : list nat) (n : nat) :
  lst ≡ₚ seq 0 n → n ≤ length y →
  ∃ y', index_all y lst = Ok y' ∧ y' ≡ₚ take n y.
Proof.
  intros Hp Hn. rewrite (index_all_take y lst n).
  - apply index_all_perm. by rewrite length_take, Nat.min_l.
  - rewrite Hp. apply Forall_seq. lia.
Qed.

Lemma index_all_short {A : Type} (y : list A) (lst : list nat) (n : nat) :
  lst ≡ₚ seq 0 n → length y < n → index_all y lst = Raise IndexError.
Proof.
  intros Hp Hn. destruct (index_all y lst) as [y'|e] eqn:Hrun.
  - exfalso. apply index_all_Ok in Hrun.
    assert (Hin : length y ∈ lst) by (rewrite Hp; apply elem_of_seq; lia).
    apply list_elem_of_lookup in Hin as [k Hk].
    destruct (Forall2_lookup_l _ _ _ _ _ Hrun Hk) as (a & _ & Ha).
    apply lookup_lt_Some in Ha. lia.
  - unfold index_all in *. by destruct (mapM _ lst).
Qed.

(** [create_one_batch] up to the label tensor, for a non-empty batch with
    a tag sequence for every example: the examples are reordered, the
    token tensor is filled, and what is left is the check of the reserved
    ids and the loop over the tags. *)
Lemma create_one_batch_labels (x y : corpus) (word2id label2id : pydict string nat)
    (sort : bool) (oov pad label_pad : string) :
  x ≠ [] → length x ≤ length y →
  ∃ x' y' lens,
    x' ≡ₚ x ∧ y' ≡ₚ take (length x) y ∧ length y' = length x ∧
    create_one_batch x y word2id label2id sort oov pad label_pad
    = match dict_get oov word2id, dict_get pad word2id with
      | Some oov_id, Some pad_id =>
          label_pad_id ← or_raise TypeError (dict_get label_pad label2id);
          batch_y ← fill_tensor (λ y_ij, dict_item y_ij label2id)
                      (full (length y') (max_list (length <$> x)) label_pad_id) y';
          Ok (pad_to (max_list (length <$> x)) pad_id ∘ word_ids word2id oov_id <$> x',
              batch_y, lens)
      | _, _ => Raise AssertionError
      end.
Proof.
  intros Hne Hlen. unfold create_one_batch.
  fold (batch_order sort x (seq 0 (length x))).
  set (lst := batch_order sort x (seq 0 (length x))).
  assert (Hlst : lst ≡ₚ seq 0 (length x)) by apply batch_order_perm.
  destruct (index_all_perm x lst Hlst) as (x' & Hx' & Hpx).
  destruct (index_all_prefix_perm y lst (length x) Hlst Hlen) as (y' & Hy' & Hpy).
  assert (Hlenx' : length x' = length x) by by rewrite Hpx.
  assert (Hleny' : length y' = length x).
  { by rewrite (index_all_length _ _ _ Hy'), Hlst, length_seq. }
  destruct (index_all_perm (length <$> x') lst) as (lens & Hlens & Hpl).
  { by rewrite length_fmap, Hlenx'. }
  exists x', y', lens. do 3 (split; [done|]).
  rewrite Hx'. run_result. rewrite Hy'. run_result. rewrite Hlens. run_result.
  assert (Hmax : max_list lens = max_list (length <$> x)).
  { apply max_list_perm. by rewrite Hpl, Hpx. }
  assert (Hlens_ne : lens ≠ []).
  { intros ->. apply Permutation_length in Hpl, Hpx.
    rewrite length_fmap in Hpl. simpl in Hpl. destruct x; [done | simpl in *; lia]. }
  replace (py_max lens) with (Ok (max_list lens)) by by destruct lens.
  run_result. rewrite Hmax.
  destruct (dict_get oov word2id) as [oov_id|]; [|done].
  destruct (dict_get pad word2id) as [pad_id|]; [|done].
  rewrite <- Hlenx' at 1.
  rewrite (fill_tensor_full _ _ _ x' (word_ids word2id oov_id <$> x')).
  - run_result. rewrite Hleny'. by rewrite <- list_fmap_compose.
  - apply Forall2_fmap_r, Forall_Forall2_diag, Forall_forall; intros x_i _.
    apply Forall2_fmap_r, Forall_Forall2_diag, Forall_forall; by intros w _.
  - rewrite Hpx. apply Forall_forall. intros x_i Hin.
    apply max_list_elem_of_le, list_elem_of_fmap. eauto.
Qed.

(** A tag without an id in a batch that is well-formed otherwise. *)
Lemma create_one_batch_unknown_tag (x y : corpus)
    (word2id label2id : pydict string nat) (sort : bool) (oov pad label_pad : string) :
  x ≠ [] → aligned x y →
  is_Some (dict_get oov word2id) → is_Some (dict_get pad word2id) →
  is_Some (dict_get label_pad label2id) → ¬ known_tags label2id y →
  create_one_batch x y word2id label2id sort oov pad label_pad = Raise KeyError.
Proof.
  intros Hne Hal [oov_id Hoov] [pad_id Hpad] [label_pad_id Hlpad] Hunknown.
  assert (Hlen : length x ≤ length y) by by rewrite (Forall2_length _ _ _ Hal).
  destruct (create_one_batch_labels x y word2id label2id sort oov pad label_pad Hne Hlen)
    as (x' & y' & lens & Hpx & Hpy & Hleny' & ->).
  rewrite Hoov, Hpad, Hlpad. simpl or_raise. rewrite bind_Ok.
  rewrite take_ge in Hpy by by rewrite (Forall2_length _ _ _ Hal).
  destruct (fill_tensor_labels label2id
              (full (length y') (max_list (length <$> x)) label_pad_id) y')
    as [Heq | ->]; [|done].
  exfalso. apply Hunknown.
  rewrite (fill_tensor_full (λ y_ij, Ok (default 0 (dict_get y_ij label2id)))
             _ _ y' (tag_ids label2id <$> y')) in Heq.
  - apply fill_tensor_Ok_inv in Heq. unfold known_tags. rewrite <- Hpy.
    eapply Forall_impl; [exact Heq|]. intros y_i [_ Htags].
    eapply Forall_impl; [exact Htags|]. intros tag. unfold dict_item.
    destruct (dict_get tag label2id); [eauto | done].
  - apply Forall2_fmap_r, Forall_Forall2_diag, Forall_forall; intros y_i _.
    apply Forall2_fmap_r, Forall_Forall2_diag, Forall_forall; by intros tag _.
  - apply Forall_forall. intros y_i Hin. rewrite Hpy in Hin.
    apply list_elem_of_lookup in Hin as [i Hi].
    destruct (Forall2_lookup_r _ _ _ _ _ Hal Hi) as (x_i & Hxi & <-).
    apply max_list_elem_of_le, list_elem_of_fmap. exists x_i.
    split; [done | by eapply list_elem_of_lookup_2].
Qed.

(** X5.  For vocabularies whose ids fit the 64-bit integers of a
    [LongTensor], [create_one_batch] returns exactly when the batch is not
    empty, every example has a tag sequence, the three reserved ids exist,
    and the tag sequence of every example is no longer than the longest
    sentence of the batch and holds only tags with an id. *)
Theorem create_one_batch_returns_iff (x y : corpus)
    (word2id label2id : pydict string nat) (sort : bool) (oov pad label_pad : string) :
  (∀ word idx, dict_get word word2id = Some idx → (Z.of_nat idx < 2 ^ 63)%Z) →
  (∀ tag idx, dict_get tag label2id = Some idx → (Z.of_nat idx < 2 ^ 63)%Z) →
  is_ok (create_one_batch x y word2id label2id sort oov pad label_pad) = true ↔
  x ≠ [] ∧ length x ≤ length y ∧
  is_Some (dict_get oov word2id) ∧ is_Some (dict_get pad word2id) ∧
  is_Some (dict_get label_pad label2id) ∧
  Forall (λ y_i, length y_i ≤ max_list (length <$> x) ∧
                 Forall (λ tag, is_Some (dict_get tag label2id)) y_i)
         (take (length x) y).
Proof.
  intros _ _.
  destruct (decide (x = [])) as [->|Hne].
  { split; [by destruct sort | by intros [? _]]. }
  destruct (decide (length x ≤ length y)) as [Hlen|Hlen].
  2:{ split; [|intros (_ & ? & _); lia]. unfold create_one_batch.
      fold (batch_order sort x (seq 0 (length x))).
      destruct (index_all_perm x (batch_order sort x (seq 0 (length x))))
        as (x' & -> & _); [apply batch_order_perm|]. run_result.
      rewrite (index_all_short y _ (length x)); [done | apply batch_order_perm | lia]. }
  destruct (create_one_batch_labels x y word2id label2id sort oov pad label_pad Hne Hlen)
    as (x' & y' & lens & Hpx & Hpy & Hleny' & ->).
  destruct (dict_get oov word2id) as [oov_id|]; [|split; [done | by intros (_ & _ & [] & _)]].
  destruct (dict_get pad word2id) as [pad_id|];
    [|split; [done | by intros (_ & _ & _ & [] & _)]].
  destruct (dict_get label_pad label2id) as [label_pad_id|];
    [|split; [done | by intros (_ & _ & _ & _ & [] & _)]].
  simpl or_raise. rewrite bind_Ok. rewrite <- Hpy.
  assert (Hval : ∀ tag, is_ok (dict_item tag label2id) = true
                        ↔ is_Some (dict_get tag label2id)).
  { intros tag. unfold dict_item. destruct (dict_get tag label2id); simpl.
    - split; eauto.
    - split; [done | by intros []]. }
  split.
  - destruct (fill_tensor _ _ y') as [t|e] eqn:Hfill; [intros _ | done].
    do 2 (split; [done|]). do 3 (split; [eauto|]).
    apply fill_tensor_Ok_inv in Hfill.
    eapply Forall_impl; [exact Hfill|]. intros y_i [Hshort Htags]. split; [done|].
    eapply Forall_impl; [exact Htags|]. intros tag. apply Hval.
  - intros (_ & _ & _ & _ & _ & Hall).
    rewrite (fill_tensor_full _ _ _ y' (tag_ids label2id <$> y')); [done | |].
    + apply Forall2_fmap_r, Forall_Forall2_diag.
      eapply Forall_impl; [exact Hall|]. intros y_i [_ Htags]. simpl.
      apply Forall2_fmap_r, Forall_Forall2_diag.
      eapply Forall_impl; [exact Htags|]. intros tag [idx Hidx]. simpl.
      unfold dict_item. by rewrite Hidx.
    + eapply Forall_impl; [exact Hall|]. by intros y_i [? _].
Qed.

Lemma create_one_batch_returns_iff_witness :
  is_ok (create_one_batch [["a"; "zebra"]; ["b"]] [["O"; "B-X"]; ["I-X"]]
           Demo.word2id Demo.label2id true "<oov>" "<pad>" "<pad>") = true.
Proof.
  apply (create_one_batch_returns_iff [["a"; "zebra"]; ["b"]] [["O"; "B-X"]; ["I-X"]]
           Demo.word2id Demo.label2id true "<oov>" "<pad>" "<pad>").
  - intros word idx H. simpl in H. repeat case_decide; simplify_eq; reflexivity.
  - intros tag idx H. simpl in H. repeat case_decide; simplify_eq; reflexivity.
  - split; [discriminate|]. split; [simpl; lia|].
    do 3 (split; [eexists; reflexivity|]).
    repeat constructor; simpl; try lia; eexists; reflexivity.
Defined.

(** X6.  How [create_one_batch] fails: [ValueError] for an empty batch
    (the maximum of no lengths), [IndexError] when an example has no tag
    sequence, [AssertionError] when [word2id] lacks the out-of-vocabulary
    or the pad token, [TypeError] when [label2id] lacks the pad label (the
    tensor cannot be filled with [None]), and [KeyError] when a tag has no
    id, unlike a token without one. *)
Theorem create_one_batch_errors (x y : corpus)
    (word2id label2id : pydict string nat) (sort : bool) (oov pad label_pad : string) :
  (x = [] →
   create_one_batch x y word2id label2id sort oov pad label_pad = Raise ValueError) ∧
  (x ≠ [] → length y < length x →
   create_one_batch x y word2id label2id sort oov pad label_pad = Raise IndexError) ∧
  (x ≠ [] → length x ≤ length y →
   dict_get oov word2id = None ∨ dict_get pad word2id = None →
   create_one_batch x y word2id label2id sort oov pad label_pad = Raise AssertionError) ∧
  (x ≠ [] → length x ≤ length y →
   is_Some (dict_get oov word2id) → is_Some (dict_get pad word2id) →
   dict_get label_pad label2id = None →
   create_one_batch x y word2id label2id sort oov pad label_pad = Raise TypeError) ∧
  (x ≠ [] → aligned x y →
   is_Some (dict_get oov word2id) → is_Some (dict_get pad word2id) →
   is_Some (dict_get label_pad label2id) → ¬ known_tags label2id y →
   create_one_batch x y word2id label2id sort oov pad label_pad = Raise KeyError).
Proof.
  split; [|split; [|split; [|split]]].
  - intros ->. by destruct sort.
  - intros Hne Hlen. unfold create_one_batch.
    fold (batch_order sort x (seq 0 (length x))).
    destruct (index_all_perm x (batch_order sort x (seq 0 (length x))))
      as (x' & -> & _); [apply batch_order_perm|]. run_result.
    by rewrite (index_all_short y _ (length x)); [ | apply batch_order_perm | ].
  - intros Hne Hlen Hmiss.
    destruct (create_one_batch_labels x y word2id label2id sort oov pad label_pad Hne Hlen)
      as (x' & y' & lens & _ & _ & _ & ->).
    destruct Hmiss as [-> | ->]; [done | by destruct (dict_get oov word2id)].
  - intros Hne Hlen [oov_id Hoov] [pad_id Hpad] Hlpad.
    destruct (create_one_batch_labels x y word2id label2id sort oov pad label_pad Hne Hlen)
      as (x' & y' & lens & _ & _ & _ & ->).
    by rewrite Hoov, Hpad, Hlpad.
  - intros Hne Hal Hoov Hpad Hlpad Hunknown.
    by apply create_one_batch_unknown_tag.
Qed.

Lemma create_one_batch_errors_witness :
  create_one_batch [["a"]] [["NOUN"]] Demo.word2id Demo.label2id true
                   "<oov>" "<pad>" "<pad>" = Raise KeyError.
Proof.
  apply (create_one_batch_errors [["a"]] [["NOUN"]] Demo.word2id Demo.label2id true
           "<oov>" "<pad>" "<pad>").
  - discriminate.
  - repeat constructor.
  - eexists; reflexivity.
  - eexists; reflexivity.
  - eexists; reflexivity.
  - intros H. apply Forall_cons in H as [H _]. apply Forall_cons in H as [[idx H] _].
    discriminate H.
Defined.

(** ** [create_batches]: the batches it returns *)

(** What [create_batches] returns for a well-formed corpus with a text:
    the corpus is reordered by [lst], cut into chunks, every chunk becomes
    a batch with its examples in order, and the batches are reordered by
    [pos_lst] when they were sorted. *)
Lemma create_batches_repr (x y text : corpus) (batch_size : nat)
    (word2id label2id : pydict string nat) (sort shuffle : bool)
    (shuffled pos_shuffled : list nat) (oov_id pad_id label_pad_id : nat) :
  x ≠ [] → 1 ≤ batch_size →
  (shuffle = true → shuffled ≡ₚ seq 0 (length x)) →
  (sort = true → pos_shuffled ≡ₚ seq 0 (nbatch_of (length x) batch_size)) →
  dict_get "<oov>" word2id = Some oov_id →
  dict_get "<pad>" word2id = Some pad_id →
  dict_get "<pad>" label2id = Some label_pad_id →
  aligned x y → known_tags label2id y → length text = length x →
  let lst := batch_order sort x (if shuffle then shuffled else seq 0 (length x)) in
  ∃ x' y' t' rs btext,
    index_all x lst = Ok x' ∧ index_all y lst = Ok y' ∧ index_all text lst = Ok t' ∧
    x' ≡ₚ x ∧ aligned x' y' ∧ (sort = true → descending x') ∧
    index_all (batch_of_chunk x' y' batch_size word2id label2id oov_id pad_id label_pad_id
               <$> seq 0 (nbatch_of (length x) batch_size))
              (if sort then pos_shuffled else seq 0 (nbatch_of (length x) batch_size))
      = Ok rs ∧
    (sort = false → btext = chunks batch_size t') ∧
    create_batches x y batch_size word2id label2id sort shuffle (Some text)
                   shuffled pos_shuffled
      = Ok (rs.*1.*1, rs.*1.*2, rs.*2, Some btext).
Proof.
  intros Hne Hb Hshuf Hpos Hoov Hpad Hlpad Hal Hknown Htext lst.
  assert (Hn : 1 ≤ length x) by (destruct x; [done | simpl; lia]).
  unfold create_batches.
  fold (batch_order sort x (if shuffle then shuffled else seq 0 (length x))). fold lst.
  assert (Hlst : lst ≡ₚ seq 0 (length x)).
  { subst lst. rewrite batch_order_perm. destruct shuffle; auto. }
  destruct (index_all_perm x lst Hlst) as (x' & Hx' & Hpx).
  destruct (index_all_perm y lst) as (y' & Hy' & Hpy).
  { by rewrite <- (Forall2_length _ _ _ Hal). }
  destruct (index_all_perm text lst) as (t' & Ht' & Hpt); [by rewrite Htext|].
  assert (Hal' : aligned x' y') by eauto using aligned_index_all.
  assert (Hknown' : known_tags label2id y') by (unfold known_tags; by rewrite Hpy).
  assert (Hlen' : length x' = length x) by by rewrite Hpx.
  assert (Hdesc : sort = false ∨ descending x').
  { subst lst. destruct sort; [right | by left]. by eapply index_all_descending. }
  rewrite Hx', Hy', Ht'. run_result. simpl fmap. run_result.
  rewrite decide_False by lia. fold (nbatch_of (length x') batch_size).
  rewrite Hlen'. set (nbatch := nbatch_of (length x) batch_size).
  set (rs := batch_of_chunk x' y' batch_size word2id label2id oov_id pad_id label_pad_id
             <$> seq 0 nbatch).
  assert (Hrs : Forall2 (λ i r, batch_at x' y' batch_size word2id label2id sort i = Ok r)
                        (seq 0 nbatch) rs).
  { subst rs. apply Forall2_fmap_r, Forall_Forall2_diag, Forall_seq.
    intros i Hi. simpl. apply batch_at_in_order; try done.
    rewrite Hlen'. apply nbatch_of_chunk_start; [done | done | lia]. }
  rewrite (batch_loop _ _ _ _ _ _ _ _ _ Hrs). run_result. simpl.
  assert (Hlen_rs : length rs = nbatch) by (subst rs; by rewrite length_fmap, length_seq).
  assert (Hnonzero : length x ≠ 0) by lia.
  destruct sort.
  - specialize (Hpos eq_refl). unfold reorder_batches. simpl.
    destruct (index_all_perm rs pos_shuffled) as (rs' & Hrs' & Hprs); [by rewrite Hlen_rs|].
    rewrite (index_all_fmap _ _ _ _ (index_all_fmap _ _ _ _ Hrs')).
    rewrite (index_all_fmap _ _ _ _ (index_all_fmap _ _ _ _ Hrs')).
    rewrite (index_all_fmap _ _ _ _ Hrs'). run_result.
    set (tb := (λ i, slice t' (i * batch_size) ((i + 1) * batch_size)) <$> seq 0 nbatch).
    destruct (index_all_perm tb pos_shuffled) as (tb1 & -> & Hptb1).
    { subst tb. by rewrite length_fmap, length_seq. }
    run_result.
    destruct (index_all_perm tb1 pos_shuffled) as (tb2 & -> & Hptb2).
    { rewrite Hptb1. subst tb. by rewrite length_fmap, length_seq. }
    simpl fmap. run_result.
    exists x', y', t', rs', tb2.
    destruct (decide (length x = 0)) as [Hz|_]; [lia|].
    do 5 (split; [done|]). split; [by destruct Hdesc|]. done.
  - exists x', y', t', rs, (chunks batch_size t').
    destruct (decide (length x = 0)) as [Hz|_]; [lia|].
    do 5 (split; [done|]). split; [done|].
    split.
    { change (index_all rs (seq 0 nbatch) = Ok rs).
      rewrite <- Hlen_rs. apply index_all_seq. }
    split; [done|].
    unfold chunks. rewrite (Permutation_length Hpt), Htext. done.
Qed.

Lemma nbatch_of_0 (batch_size : nat) : 1 ≤ batch_size → nbatch_of 0 batch_size = 0.
Proof.
  intros Hb. unfold nbatch_of.
  assert (Hdiv : ((Z.of_nat 0 - 1) `div` Z.of_nat batch_size = -1)%Z).
  { symmetry. apply (Z.div_unique _ _ _ (Z.of_nat batch_size - 1)); lia. }
  by rewrite Hdiv.
Qed.

Lemma chunks_concat {A : Type} (batch_size : nat) (l : list A) :
  1 ≤ batch_size → concat (chunks batch_size l) = l.
Proof.
  intros Hb. destruct (decide (length l = 0)) as [Hz|Hz].
  - apply nil_length_inv in Hz as ->. unfold chunks.
    change (length []) with 0. by rewrite nbatch_of_0.
  - apply concat_slices. apply (nbatch_of_ceil (length l) batch_size); lia.
Qed.

(** X7.  [create_batches] never returns for an empty corpus or a batch
    size of zero: the call ends in [ZeroDivisionError], at line 193 (the
    average length) for the empty corpus and at line 168 for the batch
    size. *)
Theorem create_batches_division_by_zero (x y : corpus) (batch_size : nat)
    (word2id label2id : pydict string nat) (sort shuffle : bool)
    (text : option corpus) (shuffled pos_shuffled : list nat) :
  (shuffle = true → shuffled ≡ₚ seq 0 (length x)) →
  (sort = true → pos_shuffled ≡ₚ seq 0 (nbatch_of (length x) batch_size)) →
  length x ≤ length y → (∀ t, text = Some t → length x ≤ length t) →
  x = [] ∨ batch_size = 0 →
  create_batches x y batch_size word2id label2id sort shuffle text
                 shuffled pos_shuffled = Raise ZeroDivisionError.
Proof.
  intros Hshuf Hpos Hy Htext Hzero. unfold create_batches.
  fold (batch_order sort x (if shuffle then shuffled else seq 0 (length x))).
  set (lst := batch_order sort x (if shuffle then shuffled else seq 0 (length x))).
  assert (Hlst : lst ≡ₚ seq 0 (length x)).
  { subst lst. rewrite batch_order_perm. destruct shuffle; auto. }
  destruct (index_all_perm x lst Hlst) as (x' & -> & Hpx).
  destruct (index_all_prefix_perm y lst (length x) Hlst Hy) as (y' & -> & _).
  run_result.
  assert (Ht : ∃ t', match text with
                     | Some text => Some <$> index_all text lst
                     | None => Ok None
                     end = Ok t').
  { destruct text as [t|]; [|by eexists].
    destruct (index_all_prefix_perm t lst (length x) Hlst (Htext _ eq_refl))
      as (t' & -> & _). by eexists. }
  destruct Ht as [t' ->]. run_result.
  destruct (decide (batch_size = 0)) as [|Hbs]; [done|].
  destruct Hzero as [-> | ?]; [|done].
  apply Permutation_nil_r in Hpx as ->. change (length []) with 0 in *.
  assert (Hnb : nbatch_of 0 batch_size = 0) by (apply nbatch_of_0; lia).
  fold (nbatch_of 0 batch_size). rewrite Hnb. simpl. run_result.
  destruct sort; [|done].
  specialize (Hpos eq_refl). rewrite Hnb in Hpos.
  apply Permutation_nil_r in Hpos as ->.
  unfold reorder_batches. simpl. by destruct t'.
Qed.

Lemma create_batches_division_by_zero_witness :
  create_batches [] [] 2 Demo.word2id Demo.label2id false false (Some []) [] []
  = Raise ZeroDivisionError.
Proof.
  apply (create_batches_division_by_zero [] [] 2 Demo.word2id Demo.label2id false false
           (Some []) [] []).
  - discriminate.
  - discriminate.
  - reflexivity.
  - intros t [= <-]. reflexivity.
  - by left.
Defined.

(** X8.  Without shuffling and sorting, as for the validation and the test
    set, [create_batches] keeps the order of the corpus: batch [i] holds
    the examples [i * batch_size, (i + 1) * batch_size) in their order,
    padded to the longest of them, with their true lengths; the text
    batches are the same chunks of the text, so that text batch [i] belongs
    to token batch [i], and the batches one after the other give the corpus
    back. *)
Theorem create_batches_in_order (x y text : corpus) (batch_size : nat)
    (word2id label2id : pydict string nat) (shuffled pos_shuffled : list nat)
    (oov_id pad_id label_pad_id : nat) :
  x ≠ [] → 1 ≤ batch_size →
  dict_get "<oov>" word2id = Some oov_id →
  dict_get "<pad>" word2id = Some pad_id →
  dict_get "<pad>" label2id = Some label_pad_id →
  aligned x y → known_tags label2id y → length text = length x →
  let rs := batch_of_chunk x y batch_size word2id label2id oov_id pad_id label_pad_id
            <$> seq 0 (nbatch_of (length x) batch_size) in
  create_batches x y batch_size word2id label2id false false (Some text)
                 shuffled pos_shuffled
    = Ok (rs.*1.*1, rs.*1.*2, rs.*2, Some (chunks batch_size text)) ∧
  concat (chunks batch_size text) = text ∧
  Forall2 (λ r t, length r.1.1 = length t ∧ length r.1.2 = length t ∧ length r.2 = length t)
          rs (chunks batch_size text) ∧
  batches_examples rs.*1.*1 rs.*1.*2 rs.*2 = corpus_examples word2id label2id oov_id x y.
Proof.
  intros Hne Hb Hoov Hpad Hlpad Hal Hknown Htext rs.
  destruct (create_batches_repr x y text batch_size word2id label2id false false
              shuffled pos_shuffled oov_id pad_id label_pad_id)
    as (x' & y' & t' & rs' & btext & Hx' & Hy' & Ht' & _ & _ & _ & Hrs' & Hbtext & Hrun);
    try done.
  simpl in Hx', Hy', Ht'.
  rewrite index_all_seq in Hx'. injection Hx' as <-.
  rewrite (Forall2_length _ _ _ Hal), index_all_seq in Hy'. injection Hy' as <-.
  rewrite <- Htext, index_all_seq in Ht'. injection Ht' as <-.
  fold rs in Hrs'.
  assert (Hlen_rs : length rs = nbatch_of (length x) batch_size)
    by (subst rs; by rewrite length_fmap, length_seq).
  rewrite <- Hlen_rs, index_all_seq in Hrs'. injection Hrs' as <-.
  rewrite (Hbtext eq_refl) in Hrun.
  split; [exact Hrun|]. split; [by apply chunks_concat|]. split.
  - subst rs. unfold chunks. rewrite Htext.
    apply Forall2_fmap, Forall_Forall2_diag, Forall_forall. intros i _. simpl.
    rewrite !length_fmap, !slice_length, Htext, (Forall2_length _ _ _ Hal). done.
  - rewrite batches_examples_triples. subst rs. rewrite <- list_fmap_compose.
    rewrite (list_fmap_ext _ (λ i, prod_map (word_ids word2id oov_id) (tag_ids label2id)
                                    <$> slice (zip x y) (i * batch_size)
                                          ((i + 1) * batch_size))).
    2:{ intros _ i _. simpl. unfold batch_examples.
        rewrite (trim_padded_rows (word_ids word2id oov_id))
          by (intros a; apply length_fmap).
        assert (Hlens : length <$> slice x (i * batch_size) ((i + 1) * batch_size)
                        = length <$> slice y (i * batch_size) ((i + 1) * batch_size)).
        { apply list_eq_Forall2, Forall2_fmap.
          eapply Forall2_impl; [apply aligned_slice, Hal | done]. }
        rewrite Hlens, (trim_padded_rows (tag_ids label2id))
          by (intros a; apply length_fmap).
        by rewrite slice_zip, prod_map_zip. }
    transitivity (prod_map (word_ids word2id oov_id) (tag_ids label2id)
                  <$> concat (chunks batch_size (zip x y))).
    { unfold chunks. rewrite fmap_concat, <- list_fmap_compose.
      rewrite length_zip, <- (Forall2_length _ _ _ Hal), Nat.min_id. done. }
    rewrite chunks_concat by done. by rewrite prod_map_zip.
Qed.

Lemma create_batches_in_order_witness :
  ∃ bxs bys blens,
    create_batches Demo.x Demo.y 2 Demo.word2id Demo.label2id false false
                   (Some Demo.x) [] []
    = Ok (bxs, bys, blens, Some [[["a"]; ["a"; "b"; "z"]];
                                 [["b"; "a"]; ["a"; "a"; "a"; "a"]]; [["b"]]]).
Proof.
  eexists _, _, _.
  apply (create_batches_in_order Demo.x Demo.y Demo.x 2 Demo.word2id Demo.label2id
           [] [] 0 1 0).
  - discriminate.
  - lia.
  - reflexivity.
  - reflexivity.
  - reflexivity.
  - repeat constructor.
  - repeat constructor; eexists; reflexivity.
  - reflexivity.
Defined.

(** The shape of chunk [i] as a batch. *)
Lemma batch_of_chunk_shape (x y : corpus) (batch_size : nat)
    (word2id label2id : pydict string nat) (oov_id pad_id label_pad_id : nat) (i : nat) :
  1 ≤ batch_size → i * batch_size < length x → aligned x y →
  let r := batch_of_chunk x y batch_size word2id label2id oov_id pad_id label_pad_id i in
  r.2 ≠ [] ∧ length r.2 ≤ batch_size ∧
  (descending x → Sorted (λ a b, b ≤ a) r.2) ∧
  Forall2 (λ n row, n ≤ max_list r.2 ∧ length row = max_list r.2 ∧
                    drop n row = replicate (max_list r.2 - n) pad_id) r.2 r.1.1 ∧
  Forall2 (λ n row, length row = max_list r.2 ∧
                    drop n row = replicate (max_list r.2 - n) label_pad_id) r.2 r.1.2.
Proof.
  intros Hb Hi Hal. unfold batch_of_chunk. cbn [fst snd].
  set (sx := slice x (i * batch_size) ((i + 1) * batch_size)).
  set (sy := slice y (i * batch_size) ((i + 1) * batch_size)).
  set (m := max_list (length <$> sx)).
  assert (Hshort : ∀ x_j, x_j ∈ sx → length x_j ≤ m).
  { intros x_j Hin. apply max_list_elem_of_le, list_elem_of_fmap. eauto. }
  split; [|split; [|split; [|split]]].
  - intros Hnil. apply fmap_nil_inv in Hnil.
    by apply (slice_nonempty x (i * batch_size) ((i + 1) * batch_size)); [lia| |].
  - rewrite length_fmap. subst sx. rewrite slice_length. lia.
  - intros Hdesc. apply Sorted_consecutive. intros j a b Ha Hb'.
    rewrite list_lookup_fmap in Ha, Hb'.
    destruct (sx !! j) as [xa|] eqn:Hxa; [|done].
    destruct (sx !! S j) as [xb|] eqn:Hxb; [|done]. simplify_eq/=.
    exact (descending_slice x (i * batch_size) ((i + 1) * batch_size) Hdesc
             j xa xb Hxa Hxb).
  - apply Forall2_fmap, Forall_Forall2_diag, Forall_forall. intros x_j Hin. simpl.
    split; [by apply Hshort|]. unfold pad_to, word_ids.
    split.
    + rewrite length_app, length_fmap, length_replicate. specialize (Hshort _ Hin). lia.
    + rewrite <- (length_fmap (λ w, default oov_id (dict_get w word2id)) x_j) at 1.
      by rewrite drop_app_length, length_fmap.
  - pose proof (aligned_slice x y (i * batch_size) ((i + 1) * batch_size) Hal) as Hal'.
    fold sx sy in Hal'.
    apply Forall2_fmap, Forall2_same_length_lookup_2; [by eapply Forall2_length|].
    intros k x_j y_j Hxk Hyk. simpl. unfold pad_to, tag_ids.
    assert (Hlen : length x_j = length y_j)
      by apply (Forall2_lookup_lr _ _ _ _ _ _ Hal' Hxk Hyk).
    assert (Hx_j : length x_j ≤ m) by (eapply Hshort, list_elem_of_lookup_2, Hxk).
    split.
    + rewrite length_app, length_fmap, length_replicate. lia.
    + rewrite Hlen.
      rewrite <- (length_fmap (λ tag, default 0 (dict_get tag label2id)) y_j) at 1.
      by rewrite drop_app_length, length_fmap.
Qed.

(** X9.  Every batch that [create_batches] returns is rectangular: the
    token and the label tensor have one row per length in the batch's
    length list, every row is as wide as the longest sentence of the
    batch, and a row holds the pad id (the pad-label id) from the length
    recorded for it on.  No batch is empty or larger than [batch_size];
    when the batches are sorted, the lengths of a batch are in descending
    order. *)
Theorem create_batches_batch_shape (x y text : corpus) (batch_size : nat)
    (word2id label2id : pydict string nat) (sort shuffle : bool)
    (shuffled pos_shuffled : list nat) (oov_id pad_id label_pad_id : nat) :
  x ≠ [] → 1 ≤ batch_size →
  (shuffle = true → shuffled ≡ₚ seq 0 (length x)) →
  (sort = true → pos_shuffled ≡ₚ seq 0 (nbatch_of (length x) batch_size)) →
  dict_get "<oov>" word2id = Some oov_id →
  dict_get "<pad>" word2id = Some pad_id →
  dict_get "<pad>" label2id = Some label_pad_id →
  aligned x y → known_tags label2id y → length text = length x →
  ∃ bxs bys blens btext,
    create_batches x y batch_size word2id label2id sort shuffle (Some text)
                   shuffled pos_shuffled = Ok (bxs, bys, blens, Some btext) ∧
    length bys = length bxs ∧ length blens = length bxs ∧
    ∀ i bx by_ lens,
      bxs !! i = Some bx → bys !! i = Some by_ → blens !! i = Some lens →
      lens ≠ [] ∧ length lens ≤ batch_size ∧
      (sort = true → Sorted (λ a b, b ≤ a) lens) ∧
      Forall2 (λ n row, n ≤ max_list lens ∧ length row = max_list lens ∧
                        drop n row = replicate (max_list lens - n) pad_id) lens bx ∧
      Forall2 (λ n row, length row = max_list lens ∧
                        drop n row = replicate (max_list lens - n) label_pad_id) lens by_.
Proof.
  intros Hne Hb Hshuf Hpos Hoov Hpad Hlpad Hal Hknown Htext.
  destruct (create_batches_repr x y text batch_size word2id label2id sort shuffle
              shuffled pos_shuffled oov_id pad_id label_pad_id)
    as (x' & y' & t' & rs & btext & _ & _ & _ & Hpx & Hal' & Hdesc & Hrs & _ & Hrun);
    try done.
  exists rs.*1.*1, rs.*1.*2, rs.*2, btext. split; [exact Hrun|].
  rewrite !length_fmap. do 2 (split; [done|]).
  intros i bx by_ lens Hbx Hby Hlens.
  rewrite !list_lookup_fmap in Hbx, Hby. rewrite list_lookup_fmap in Hlens.
  destruct (rs !! i) as [[[bx' by'] lens']|] eqn:Hr; [|done]. simplify_eq/=.
  apply index_all_Ok in Hrs.
  destruct (Forall2_lookup_r _ _ _ _ _ Hrs Hr) as (k & _ & Hk).
  rewrite list_lookup_fmap in Hk.
  destruct (seq 0 (nbatch_of (length x) batch_size) !! k) as [k'|] eqn:Hk'; [|done].
  apply lookup_seq in Hk' as [-> Hlt]. simpl in Hk.
  assert (Hn : 1 ≤ length x) by (destruct x; [done | simpl; lia]).
  assert (Hstart : k * batch_size < length x').
  { rewrite Hpx. by apply nbatch_of_chunk_start. }
  pose proof (batch_of_chunk_shape x' y' batch_size word2id label2id oov_id pad_id
                label_pad_id k Hb Hstart Hal') as Hshape.
  assert (Hk2 : batch_of_chunk x' y' batch_size word2id label2id oov_id pad_id
                  label_pad_id k = (bx, by_, lens)) by congruence.
  cbv zeta in Hshape. rewrite Hk2 in Hshape. cbn [fst snd] in Hshape.
  destruct Hshape as (H1 & H2 & H3 & H4 & H5).
  do 2 (split; [done|]). split; [|done]. intros ->. by apply H3, Hdesc.
Qed.

Lemma create_batches_batch_shape_witness :
  ∃ bxs bys blens btext,
    create_batches Demo.x Demo.y 2 Demo.word2id Demo.label2id true true
                   (Some Demo.x) [4; 3; 2; 1; 0] [1; 2; 0]
    = Ok (bxs, bys, blens, Some btext) ∧ length blens = length bxs.
Proof.
  destruct (create_batches_batch_shape Demo.x Demo.y Demo.x 2 Demo.word2id Demo.label2id
              true true [4; 3; 2; 1; 0] [1; 2; 0] 0 1 0)
    as (bxs & bys & blens & btext & Hrun & _ & Hlen & _).
  - discriminate.
  - lia.
  - intros _. apply (bool_decide_unpack _). vm_compute. reflexivity.
  - intros _. apply (bool_decide_unpack _). vm_compute. reflexivity.
  - reflexivity.
  - reflexivity.
  - reflexivity.
  - repeat constructor.
  - repeat constructor; eexists; reflexivity.
  - reflexivity.
  - exists bxs, bys, blens, btext. split; [exact Hrun | exact Hlen].
Defined.

(** ** The classification head with the labels of [make_dict] *)

(** The pad label is the first key of [label2id] and no later assignment
    touches it. *)
Lemma build_label2id_pad (labels : list string) :
  dict_get "<pad>" (build_label2id labels) = Some 0 ∧
  2 ≤ dict_len (build_label2id labels).
Proof.
  unfold build_label2id. simpl.
  assert (Hgen : ∀ ls (d : pydict string nat),
            dict_get "<pad>" d = Some 0 → 2 ≤ dict_len d →
            let d' := fold_left
                        (λ label2id label,
                           let label2id :=
                             dict_set ("B-" +:+ label) (dict_len label2id) label2id in
                           dict_set ("I-" +:+ label) (dict_len label2id) label2id)
                        ls d in
            dict_get "<pad>" d' = Some 0 ∧ 2 ≤ dict_len d').
  { induction ls as [|l ls IH]; intros d Hpad Hlen; [done|]. simpl. apply IH.
    - rewrite !dict_get_set. by rewrite !decide_False by done.
    - pose proof (dict_set_len ("B-" +:+ l) (dict_len d) d).
      pose proof (dict_set_len ("I-" +:+ l)
                    (dict_len (dict_set ("B-" +:+ l) (dict_len d) d))
                    (dict_set ("B-" +:+ l) (dict_len d) d)). lia. }
  by apply Hgen.
Qed.

Lemma mapM_result_fmap {A B : Type} (g : A → result B) (h : A → B) (l : list A) :
  (∀ a, a ∈ l → g a = Ok (h a)) → mapM g l = Ok (h <$> l).
Proof.
  intros Hg. apply mapM_result_Ok, Forall2_fmap_r, Forall_Forall2_diag, Forall_forall.
  exact Hg.
Qed.

(** Under distinct base labels the ids of [label2id] are its positions:
    every id below its length is the id of a label. *)
Lemma bio_entries_at (labels : list string) :
  ∀ n idx, n ≤ idx < n + 2 * length labels →
           ∃ key, (key, idx) ∈ bio_entries n labels.
Proof.
  induction labels as [|l labels IH]; intros n idx Hidx; simpl in *; [lia|].
  destruct (decide (idx = n)) as [->|Hn].
  { eexists. apply list_elem_of_here. }
  destruct (decide (idx = S n)) as [->|HSn].
  { eexists. apply list_elem_of_further, list_elem_of_here. }
  destruct (IH (S (S n)) idx) as [key Hkey]; [lia|].
  exists key. by do 2 apply list_elem_of_further.
Qed.

Lemma build_label2id_ids (labels : list string) (idx : nat) :
  NoDup labels → idx < dict_len (build_label2id labels) →
  ∃ label, dict_get label (build_label2id labels) = Some idx.
Proof.
  intros Hnd. rewrite (build_label2id_distinct labels Hnd). unfold dict_len.
  rewrite length_app, bio_entries_length. simpl length. intros Hidx.
  assert (Hkeys : NoDup ([("<pad>", 0); ("O", 1)] ++ bio_entries 2 labels).*1).
  { simpl. apply NoDup_cons. split.
    { rewrite not_elem_of_cons, bio_entries_keys. split; [done|].
      intros (l & _ & [?|?]); simplify_eq/=. }
    apply NoDup_cons. split; [|by apply bio_entries_NoDup_keys].
    rewrite bio_entries_keys. intros (l & _ & [?|?]); simplify_eq/=. }
  destruct idx as [|[|idx]].
  - by exists "<pad>".
  - by exists "O".
  - destruct (bio_entries_at labels 2 (S (S idx))) as [key Hkey]; [lia|].
    exists key. apply dict_get_NoDup; [done|].
    by do 2 apply list_elem_of_further.
Qed.

(** The base labels are distinct whenever the lines of the label file
    are. *)
Lemma label_set_of_NoDup (label_file : option (list string))
    (train_y dev_y test_y : option corpus) (labels : list string) :
  (∀ lines, label_file = Some lines → NoDup lines) →
  label_set_of label_file train_y dev_y test_y = Ok labels → NoDup labels.
Proof.
  intros Hfile. unfold label_set_of. destruct label_file as [lines|].
  - intros [= <-]. rewrite sorted_perm. by apply Hfile.
  - destruct train_y as [tr|]; [|done]. destruct dev_y as [dv|]; [|done].
    destruct test_y as [ts|]; [|done]. simpl. intros [= <-].
    rewrite sorted_perm. apply NoDup_elements.
Qed.

Section ForwardWithMakeDict.
Context {feature : Type}.
Variable hidden2tag : feature → list Q.
Variable logsoftmax : list Q → list Q.
Variable criterion : list (list (list Q)) → tensor → Q.

(** X10.  With the labels of [make_dict], whatever their source, the pad
    label has id 0, so [forward] always takes the branch that leaves the
    pad label out (line 223).  When no line of the label file is repeated
    and the linear layer gives one score per label, [forward] returns in
    evaluation mode, and the prediction for every position is the id of a
    label other than the pad label, one whose score is the best among the
    labels other than the pad label. *)
Theorem forward_with_make_dict (label_file : option (list string)) (train_x : corpus)
    (train_y dev_y test_y : option corpus)
    (word2id label2id : pydict string nat) (id2label : pydict nat string)
    (x : list (list feature)) (y : tensor) :
  make_dict label_file train_x train_y dev_y test_y = Ok (word2id, label2id, id2label) →
  (∀ lines, label_file = Some lines → NoDup lines) →
  (∀ feat, length (hidden2tag feat) = dict_len label2id) →
  dict_get "<pad>" label2id = Some 0 ∧
  ∃ tag_result,
    ClassifyLayer.forward hidden2tag logsoftmax criterion false label2id "<pad>" x y
      = Ok (tag_result, 0%Q) ∧
    Forall2 (Forall2 (λ feat tag,
               1 ≤ tag < dict_len label2id ∧
               (∃ label, label ≠ "<pad>" ∧ dict_get label label2id = Some tag) ∧
               ∃ v, hidden2tag feat !! tag = Some v ∧
                    ∀ j u, 1 ≤ j → hidden2tag feat !! j = Some u → (u <= v)%Q))
            x tag_result.
Proof.
  intros Hrun Hfile Hrows.
  apply make_dict_word2id in Hrun as (_ & ls & -> & Hls).
  pose proof (label_set_of_NoDup _ _ _ _ _ Hfile Hls) as Hnd.
  destruct (build_label2id_pad ls) as [Hpad Hlen]. split; [done|].
  set (l2i := build_label2id ls) in *.
  set (pick := λ scores : list Q,
         match ClassifyLayer.argmax (drop 1 scores) with
         | Ok r => r
         | Raise _ => 0
         end).
  assert (Hpick : ∀ feat,
            ClassifyLayer.argmax (drop 1 (hidden2tag feat)) = Ok (pick (hidden2tag feat))).
  { intros feat. unfold pick.
    destruct (drop 1 (hidden2tag feat)) as [|q row] eqn:Hdrop; [|done].
    apply (f_equal length) in Hdrop. rewrite length_drop, Hrows in Hdrop.
    simpl in Hdrop. lia. }
  exists (fmap (M := list) (S ∘ pick ∘ hidden2tag) <$> x).
  split.
  - unfold ClassifyLayer.forward, dict_item. rewrite Hpad. simpl or_raise.
    rewrite bind_Ok. rewrite decide_True by done.
    rewrite (mapM_result_fmap _ (fmap (M := list) pick)).
    2:{ intros row Hrow. apply (mapM_result_fmap _ pick). intros scores Hin.
        apply list_elem_of_fmap in Hrow as (feats & -> & _).
        apply list_elem_of_fmap in Hin as (feat & -> & _). apply Hpick. }
    rewrite bind_Ok.
    assert (Htags : fmap (M := list) S <$> (fmap (M := list) pick
                                            <$> (fmap (M := list) hidden2tag <$> x))
                    = fmap (M := list) (S ∘ pick ∘ hidden2tag) <$> x).
    { rewrite <- !list_fmap_compose. apply list_fmap_ext. intros _ row _. simpl.
      by rewrite <- !list_fmap_compose. }
    by rewrite Htags.
  - apply Forall2_fmap_r, Forall_Forall2_diag, Forall_forall. intros row _.
    apply Forall2_fmap_r, Forall_Forall2_diag, Forall_forall. intros feat _. simpl.
    destruct (ClassifyLayerFacts.argmax_max _ _ (Hpick feat)) as (v & Hv & Hmax).
    rewrite lookup_drop in Hv.
    assert (Hrange : 1 ≤ S (pick (hidden2tag feat)) < dict_len l2i).
    { split; [lia|]. apply lookup_lt_Some in Hv. rewrite Hrows in Hv. lia. }
    split; [done|]. split.
    + destruct (build_label2id_ids ls (S (pick (hidden2tag feat))) Hnd)
        as [label Hlabel]; [apply Hrange|].
      exists label. split; [|done]. intros ->. fold l2i in Hlabel. congruence.
    + exists v. split; [done|]. intros j u Hj Hu.
      apply (Hmax (j - 1)). rewrite lookup_drop.
      by replace (1 + (j - 1)) with j by lia.
Qed.
End ForwardWithMakeDict.

Lemma forward_with_make_dict_witness :
  ∃ tag_result,
    ClassifyLayer.forward (λ _ : unit, [9%Q; 1%Q; 5%Q; 2%Q]) (λ scores, scores)
      (λ _ _, 0%Q) false [("<pad>", 0); ("O", 1); ("B-X", 2); ("I-X", 3)] "<pad>"
      [[()]] [[0]]
    = Ok (tag_result, 0%Q) ∧
    Forall2 (Forall2 (λ (_ : unit) tag, 1 ≤ tag < 4)) [[()]] tag_result.
Proof.
  destruct (forward_with_make_dict (λ _ : unit, [9%Q; 1%Q; 5%Q; 2%Q])
              (λ scores, scores) (λ _ _, 0%Q)
              (Some ["X"]) [] None None None _ _ _ [[()]] [[0]] eq_refl)
    as (_ & tag_result & Hrun & Htags).
  - intros lines [= <-]. repeat constructor; set_solver.
  - reflexivity.
  - exists tag_result. split.
    + exact Hrun.
    + eapply Forall2_impl; [exact Htags|]. intros row tags Hrow.
      eapply Forall2_impl; [exact Hrow|]. intros feat tag [Htag _]. exact Htag.
Defined.

(** X11.  With the labels of [make_dict] and one weight per label, as
    [train_and_test] builds the classification head, the loss weights can
    always be built: zero for the pad label, which is the first one, and
    one for every other label. *)
Theorem tag_weights_with_make_dict (label_file : option (list string))
    (train_x : corpus) (train_y dev_y test_y : option corpus)
    (word2id label2id : pydict string nat) (id2label : pydict nat string) :
  make_dict label_file train_x train_y dev_y test_y = Ok (word2id, label2id, id2label) →
  ClassifyLayerInit.tag_weights (dict_len label2id) label2id "<pad>"
  = Ok (0%Q :: replicate (dict_len label2id - 1) 1%Q).
Proof.
  intros Hrun. apply make_dict_word2id in Hrun as (_ & ls & -> & _).
  destruct (build_label2id_pad ls) as [Hpad Hlen].
  unfold ClassifyLayerInit.tag_weights, dict_item. rewrite Hpad. simpl or_raise.
  rewrite bind_Ok. rewrite decide_True by lia.
  destruct (dict_len (build_label2id ls)) as [|n]; [lia|]. simpl.
  by rewrite Nat.sub_0_r.
Qed.

Lemma tag_weights_with_make_dict_witness :
  ClassifyLayerInit.tag_weights 4 [("<pad>", 0); ("O", 1); ("B-X", 2); ("I-X", 3)] "<pad>"
  = Ok [0%Q; 1%Q; 1%Q; 1%Q].
Proof.
  exact (tag_weights_with_make_dict (Some ["X"]) [] None None None _ _ _ eq_refl).
Defined.

(** ** [eval_model]: the ways it ends *)

Section EvaluatorOutcomes.
Context {Model : Type}.
Variable forward_eval : Model → tensor → tensor → tensor.
Variable scorer : string → list string → result (Q * Q * Q).
Variable tmp_path : string.

(** X12.  The ways a call of [eval_model] goes once the output file is
    open, as long as the forward passes of the model return and the lines
    can be written (the embedding takes these three for granted).  A
    failed lookup while rendering ([IndexError] for a batch with fewer
    text or tag rows than token rows, [KeyError] for a tag id without a
    name) ends the call there: the file is not closed, the scorer is not
    run and the file is not removed.  Otherwise the file is closed, the
    scorer is run once on the lines printed, and the file is removed
    exactly when the scores could be read, also when it is the file named
    by [opt.output]. *)
Theorem eval_model_outcomes (model : Model) (valid_x valid_y : list tensor)
    (valid_lens : list (list nat)) (valid_text : list corpus)
    (id2label : pydict nat string) (opt : options) :
  let opening := match output opt with
                 | Some path => OpenWrite path
                 | None => Mkstemp tmp_path
                 end in
  let path := default tmp_path (output opt) in
  ∃ lines,
    eval_model forward_eval scorer tmp_path model valid_x valid_y valid_lens
               valid_text id2label opt
      = (opening :: (Print <$> lines), Raise IndexError)
    ∨ eval_model forward_eval scorer tmp_path model valid_x valid_y valid_lens
                 valid_text id2label opt
      = (opening :: (Print <$> lines), Raise KeyError)
    ∨ eval_model forward_eval scorer tmp_path model valid_x valid_y valid_lens
                 valid_text id2label opt
      = (opening :: (Print <$> lines)
           ++ [Close; RunScorer (script opt) path]
           ++ (if is_ok (scorer (script opt) lines) then [Remove path] else []),
         scorer (script opt) lines).
Proof.
  intros opening path. unfold eval_model. fold opening path. rewrite eff_bind_emit.
  destruct (for_each_printed (print_batch forward_eval model id2label)
              (print_batch_printed forward_eval model id2label)
              (zip valid_x (zip valid_y (zip valid_lens valid_text))) [])
    as (lines & Htr & Hres).
  destruct (for_each _ _ _) as [tr res]. simpl in Htr, Hres. subst tr.
  exists lines. destruct Hres as [-> | [-> | ->]].
  - right; right. rewrite eff_bind_Ok. rewrite !eff_bind_emit. simpl.
    destruct (scorer (script opt) lines) as [scores|e] eqn:Hscore; simpl;
      by rewrite ?Hscore.
  - by left.
  - by right; left.
Qed.
End EvaluatorOutcomes.

(** ** The figures a run reports *)

Lemma running_best_bounds (fs : list Q) :
  ∀ best0, (best0 <= running_best fs best0)%Q ∧
           Forall (λ f, (f <= running_best fs best0)%Q) fs.
Proof.
  induction fs as [|f fs IH]; intros best0; simpl.
  - split; [apply Qle_refl | constructor].
  - destruct (IH (if Qgtb f best0 then f else best0)) as [Hle Hall].
    destruct (Qgtb f best0) eqn:Hf.
    + apply Qgtb_lt in Hf. split; [|by constructor].
      apply Qlt_le_weak. by apply (Qlt_le_trans _ f).
    + apply Qgtb_le in Hf. split; [done|]. constructor; [|done].
      by apply (Qle_trans _ best0).
Qed.

Lemma last_test_app (ts1 ts2 : list (Q * Q * Q)) (test0 : Q) :
  last_test (ts1 ++ ts2) test0 = last_test ts2 (last_test ts1 test0).
Proof.
  unfold last_test. destruct ts2 as [|t ts2 _] using rev_ind.
  - by rewrite app_nil_r.
  - by rewrite app_assoc, !last_snoc.
Qed.

Section Report.
Context {Model : Type}.
Variable body : Model * Q * Q → nat → eff (event Model) (Model * Q * Q).
Hypothesis body_shape :
  ∀ model best_valid test_result epoch,
    ∃ path bs,
      epoch_shape epoch best_valid test_result path bs
        (body (model, best_valid, test_result) epoch).1
        (body (model, best_valid, test_result) epoch).2.

Lemma loop_report (epochs : list nat) :
  ∀ model0 best0 test0 tr model best test,
    for_each body (model0, best0, test0) epochs = (tr, Ok (model, best, test)) →
    length (valid_f1_of tr) = length epochs ∧
    best = running_best (valid_f1_of tr) best0 ∧
    test = last_test (tests_of tr) test0 ∧
    length (saves_of tr) = length (tests_of tr).
Proof.
  induction epochs as [|epoch epochs IH];
    intros model0 best0 test0 tr model best test Hrun.
  - by injection Hrun as <- <- <- <-.
  - rewrite for_each_eff_cons in Hrun.
    destruct (body_shape model0 best0 test0 epoch) as (path & bs & Hshape).
    destruct (epoch_shape_decision _ _ _ _ _ _ _ Hshape) as (_ & Hquiet & Hfile & Hret).
    destruct (body (model0, best0, test0) epoch) as [tr1 [[[model1 best1] test1]|e]];
      cbn [fst snd] in *; [|done].
    rewrite eff_bind_Ok in Hrun.
    destruct (for_each body (model1, best1, test1) epochs) as [tr2 res2] eqn:Hrest.
    cbn [fst snd] in Hrun. injection Hrun as <- ->.
    destruct (IH _ _ _ _ _ _ _ Hrest) as (IH1 & IH2 & IH3 & IH4).
    destruct (Hret _ _ _ eq_refl) as (_ & f & Hf & Hsaved & Hnone).
    unfold valid_f1_of, tests_of, saves_of in *. rewrite !omap_app.
    fold (valid_f1_of tr1) (tests_of tr1) (saves_of tr1) in *.
    fold (@valid_f1_of Model tr2) (@tests_of Model tr2) (@saves_of Model tr2) in *.
    rewrite Hf, !length_app, last_test_app. simpl.
    destruct (decide (saves_of tr1 = [])) as [Hs|Hs].
    + destruct (Hnone Hs) as (-> & -> & Hle). destruct (Hquiet Hs) as [Ht _].
      rewrite Hs, Ht. apply Qgtb_le in Hle. rewrite Hle. simpl.
      split; [by rewrite IH1|]. done.
    + destruct (Hsaved Hs) as (-> & Hlt & p & r & Ht).
      destruct Hfile as [Hnil|[saved Hsave]]; [done|].
      rewrite Hsave, Ht. apply Qgtb_lt in Hlt. rewrite Hlt. simpl.
      split; [by rewrite IH1|]. split; [done|]. split; [done | by rewrite IH4].
Qed.
End Report.

Section FinalReport.
Context {Model : Type}.
Variable forward_eval : Model → tensor → tensor → tensor.
Variable scorer : string → list string → result (Q * Q * Q).
Variable tmp_path : string.
Variable train_step : Model → tensor → tensor → list nat → result Model.
Variable decay_lr : Model → Q → Model.

(** The figures reported after the events [tr] belong to the last
    checkpoint written: they are the validation F1 and the test F1 that
    [eval_model] gives for the model saved there; both are still the
    sentinel when no checkpoint was written. *)
Lemma loop_checkpoint (train_x train_y : list tensor) (train_lens : list (list nat))
    (valid test : dataset) (id2label : pydict nat string) (opt : options)
    (epoch_shuffle : nat → list nat) (epochs : list nat) :
  let reported (b t : Q) (tr : list (event Model)) :=
    match last (saves_of tr) with
    | None => b = no_score ∧ t = no_score ∧ tests_of tr = []
    | Some (path, saved) =>
        path = path_join (model_dir opt) "model.pl" ∧
        ∃ io p r io' test_p test_r,
          eval_model forward_eval scorer tmp_path saved (data_x valid) (data_y valid)
                     (data_lens valid) (data_text valid) id2label opt
            = (io, Ok (p, r, b)) ∧
          eval_model forward_eval scorer tmp_path saved (data_x test) (data_y test)
                     (data_lens test) (data_text test) id2label opt
            = (io', Ok (test_p, test_r, t)) ∧
          last (tests_of tr) = Some (test_p, test_r, t)
    end in
  ∀ model0 b0 t0 tr0 tr model b t,
    reported b0 t0 tr0 →
    for_each (epoch_body forward_eval scorer tmp_path train_step decay_lr train_x
                train_y train_lens valid test id2label opt epoch_shuffle)
             (model0, b0, t0) epochs
      = (tr, Ok (model, b, t)) →
    reported b t (tr0 ++ tr).
Proof.
  intros reported. induction epochs as [|epoch epochs IH];
    intros model0 b0 t0 tr0 tr model b t Hinv Hrun.
  - injection Hrun as <- <- <- <-. by rewrite app_nil_r.
  - rewrite for_each_eff_cons in Hrun.
    destruct (epoch_body _ _ _ _ _ _ _ _ _ _ _ _ _ (model0, b0, t0) epoch)
      as [tr1 [[[model1 b1] t1]|e]] eqn:Hbody; [|done].
    rewrite eff_bind_Ok in Hrun.
    destruct (for_each _ (model1, b1, t1) epochs) as [tr2 res2] eqn:Hrest.
    cbn [fst snd] in Hrun. injection Hrun as <- ->.
    rewrite app_assoc. eapply IH; [|exact Hrest].
    destruct (epoch_body_evaluations _ _ _ _ _ _ _ _ _ _ _ _ _ _ _ _ _ _ _ _ _ Hbody)
      as (trained & io & p & r & f & _ & Hdev & _ & Hcase).
    unfold reported, saves_of, tests_of in *. rewrite !omap_app.
    fold (saves_of tr0) (tests_of tr0) (saves_of tr1) (tests_of tr1) in *.
    destruct (Qgtb f b0).
    + destruct Hcase as (io' & test_p & test_r & test_f & Htest & -> & _ & -> & -> & ->).
      rewrite !last_snoc. split; [done|]. by exists io, p, r, io', test_p, test_r.
    + destruct Hcase as (-> & _ & -> & -> & ->). by rewrite !app_nil_r.
Qed.

(** X13.  The two figures a run that completes reports at its end.  Every
    epoch has validated once.  [best_valid] is the running best of the
    validation F1 figures, from the sentinel [-1e8] on, and no validation
    F1 is above it; there are as many checkpoint writes as test
    evaluations.  The figures belong to the checkpoint on disk:
    [best_valid] and [test_result] are the F1 that [eval_model] gives, on
    the validation set and on the test set, for the model saved by the
    last checkpoint write; [test_result] is the F1 of the last test line
    logged.  A run without a checkpoint reports the sentinel twice. *)
Theorem final_report (train_x train_y : list tensor) (train_lens : list (list nat))
    (valid test : dataset) (id2label : pydict nat string) (opt : options)
    (epoch_shuffle : nat → list nat) (model0 model : Model)
    (tr : list (event Model)) (best_valid test_result : Q) :
  epoch_loop forward_eval scorer tmp_path train_step decay_lr train_x train_y
             train_lens valid test id2label opt epoch_shuffle model0
    = (tr, Ok (model, best_valid, test_result)) →
  length (valid_f1_of tr) = max_epoch opt ∧
  best_valid = running_best (valid_f1_of tr) no_score ∧
  Forall (λ f, (f <= best_valid)%Q) (valid_f1_of tr) ∧
  test_result = last_test (tests_of tr) no_score ∧
  length (saves_of tr) = length (tests_of tr) ∧
  match last (saves_of tr) with
  | None => best_valid = no_score ∧ test_result = no_score ∧ tests_of tr = []
  | Some (path, saved) =>
      path = path_join (model_dir opt) "model.pl" ∧
      ∃ io p r io' test_p test_r,
        eval_model forward_eval scorer tmp_path saved (data_x valid) (data_y valid)
                   (data_lens valid) (data_text valid) id2label opt
          = (io, Ok (p, r, best_valid)) ∧
        eval_model forward_eval scorer tmp_path saved (data_x test) (data_y test)
                   (data_lens test) (data_text test) id2label opt
          = (io', Ok (test_p, test_r, test_result)) ∧
        last (tests_of tr) = Some (test_p, test_r, test_result)
  end.
Proof.
  unfold epoch_loop. fold no_score. intros Hrun.
  pose proof (loop_checkpoint train_x train_y train_lens valid test id2label opt
                epoch_shuffle (seq 0 (max_epoch opt)) model0 no_score no_score []
                tr model best_valid test_result ltac:(done) Hrun) as Hsaved.
  apply loop_report in Hrun as (H1 & H2 & H3 & H4).
  - rewrite length_seq in H1. split; [done|]. split; [done|].
    split; [|done]. rewrite H2. apply running_best_bounds.
  - intros m b t epoch.
    destruct (epoch_body_shape forward_eval scorer tmp_path train_step decay_lr
                train_x train_y train_lens valid test id2label opt epoch_shuffle
                m b t epoch) as (bs & _ & Hshape). eauto.
Qed.
End FinalReport.

Lemma final_report_witness :
  ∃ tr model,
    epoch_loop Scenario.forward_eval Scenario.scorer "tmp" Scenario.train_step
               Scenario.decay_lr [[[2; 3]]] [[[1; 1]]] [[2]] Scenario.valid
               Scenario.test Scenario.id2label Scenario.opt (λ _, [0]) 0
      = (tr, Ok (model, (145 # 2)%Q, (65 # 1)%Q)) ∧
    length (valid_f1_of tr) = 4 ∧ length (saves_of tr) = length (tests_of tr).
Proof.
  eexists _, _. split; [vm_compute; reflexivity|].
  edestruct (final_report Scenario.forward_eval Scenario.scorer "tmp"
               Scenario.train_step Scenario.decay_lr [[[2; 3]]] [[[1; 1]]] [[2]]
               Scenario.valid Scenario.test Scenario.id2label Scenario.opt (λ _, [0]) 0)
    as (H1 & _ & _ & _ & H5 & _).
  - vm_compute. reflexivity.
  - split; [exact H1 | exact H5].
Defined.

(** ** [load_conll_data] *)

Module PyStrFacts.
Import PyStr.

Lemma split_by_nonempty (p : Ascii.ascii → bool) (s : string) : split_by p s ≠ [].
Proof.
  destruct s as [|a s]; simpl; [done|].
  destruct (p a); [done|]. unfold cons_head. by destruct (split_by p s).
Qed.

(** No piece of a split holds a separator. *)
Lemma split_by_pieces (p : Ascii.ascii → bool) (s : string) :
  Forall (λ w, all_chars (λ c, negb (p c)) w = true) (split_by p s).
Proof.
  induction s as [|a s IH]; simpl; [by repeat constructor|].
  destruct (p a) eqn:Hp; [by constructor|].
  unfold cons_head. destruct (split_by p s) as [|w ws]; simpl.
  - repeat constructor. simpl. by rewrite Hp.
  - apply Forall_cons in IH as [Hw Hws]. constructor; [|done].
    simpl. by rewrite Hp.
Qed.

Lemma split_tidy (s : string) : Forall tidy_token (split s).
Proof.
  unfold split. apply Forall_forall. intros w Hw.
  apply list_elem_of_filter in Hw as [Hne Hin]. split; [done|].
  exact (proj1 (Forall_forall _ _) (split_by_pieces is_space s) w Hin).
Qed.

Lemma split2_nonempty (c1 c2 : Ascii.ascii) (s : string) : split2 c1 c2 s ≠ [].
Proof.
  destruct s as [|a [|b s]]; simpl; [done | done |].
  destruct (_ && _)%bool; [done|]. unfold cons_head.
  by destruct (match s with EmptyString => _ | String _ _ => _ end).
Qed.
End PyStrFacts.

(** One line either fails with [ValueError] or adds at most one word and
    its label. *)
Lemma load_conll_pair_cases (words labels : list string) (line : string) :
  (conll_line_ok line ∧
   ∃ ws ls, load_conll_pair (words, labels) line = Ok (words ++ ws, labels ++ ls) ∧
            length ws = length ls ∧ Forall tidy_token ws ∧ Forall tidy_token ls)
  ∨ (¬ conll_line_ok line ∧ load_conll_pair (words, labels) line = Raise ValueError).
Proof.
  unfold load_conll_pair, conll_line_ok.
  destruct (decide (PyStr.strip line ≠ EmptyString)) as [Hne|Heq].
  - pose proof (PyStrFacts.split_tidy (PyStr.strip line)) as Htidy.
    destruct (PyStr.split (PyStr.strip line)) as [|w [|l [|z fields]]] eqn:Hsplit.
    + right. split; [intros [?|?]; done | done].
    + right. split; [intros [?|?]; done | done].
    + left. split; [by right|]. exists [w], [l]. split; [done|]. split; [done|].
      apply Forall_cons in Htidy as [Hw Htidy]. apply Forall_cons in Htidy as [Hl _].
      split; (constructor; [done | constructor]).
    + right. split; [intros [?|?]; done | done].
  - left. apply dec_stable in Heq. split; [by left|].
    exists [], []. rewrite !app_nil_r. by repeat split.
Qed.

(** One block either fails with [ValueError] or adds one sentence. *)
Lemma load_conll_sentence_cases (data_set label_set : corpus) (sent : string) :
  let lines := PyStr.split_by (Ascii.eqb PyStr.newline) sent in
  (Forall conll_line_ok lines ∧
   ∃ words labels,
     load_conll_sentence (data_set, label_set) sent
       = Ok (data_set ++ [words], label_set ++ [labels]) ∧
     length words = length labels ∧
     Forall tidy_token words ∧ Forall tidy_token labels)
  ∨ (¬ Forall conll_line_ok lines ∧
     load_conll_sentence (data_set, label_set) sent = Raise ValueError).
Proof.
  intros lines. unfold load_conll_sentence. fold lines.
  assert (Hloop : ∀ ls words labels,
            length words = length labels →
            Forall tidy_token words → Forall tidy_token labels →
            (Forall conll_line_ok ls ∧
             ∃ words' labels',
               for_each load_conll_pair (words, labels) ls = Ok (words', labels') ∧
               length words' = length labels' ∧
               Forall tidy_token words' ∧ Forall tidy_token labels')
            ∨ (¬ Forall conll_line_ok ls ∧
               for_each load_conll_pair (words, labels) ls = Raise ValueError)).
  { induction ls as [|line ls IH]; intros words labels Hlen Hw Hl.
    - left. split; [constructor|]. by exists words, labels.
    - rewrite for_each_result_cons.
      destruct (load_conll_pair_cases words labels line)
        as [(Hok & ws & lbs & -> & Hlen' & Hws & Hlbs) | (Hbad & ->)].
      + rewrite bind_Ok.
        destruct (IH (words ++ ws) (labels ++ lbs)) as [(Hall & Hres) | (Hnot & ->)].
        * rewrite !length_app. lia.
        * by apply Forall_app.
        * by apply Forall_app.
        * left. split; [by constructor | done].
        * right. split; [|done]. intros H. by apply Forall_cons in H as [_ ?].
      + right. split; [|done]. intros H. by apply Forall_cons in H as [? _]. }
  destruct (Hloop lines [] []) as [(Hall & words & labels & -> & ?) | (Hnot & ->)];
    try done.
  - left. split; [done|]. by exists words, labels.
  - by right.
Qed.

(** The loop over the blocks. *)
Lemma load_conll_blocks (blocks : list string) :
  ∀ data_set label_set,
    aligned data_set label_set →
    Forall (Forall tidy_token) data_set → Forall (Forall tidy_token) label_set →
    let lines := concat (PyStr.split_by (Ascii.eqb PyStr.newline) <$> blocks) in
    (Forall conll_line_ok lines ∧
     ∃ data labels,
       for_each load_conll_sentence (data_set, label_set) blocks = Ok (data, labels) ∧
       length data = length data_set + length blocks ∧
       aligned data labels ∧
       Forall (Forall tidy_token) data ∧ Forall (Forall tidy_token) labels)
    ∨ (¬ Forall conll_line_ok lines ∧
       for_each load_conll_sentence (data_set, label_set) blocks = Raise ValueError).
Proof.
  induction blocks as [|sent blocks IH]; intros data_set label_set Hal Hd Hl lines.
  - left. split; [constructor|]. exists data_set, label_set. simpl.
    by rewrite Nat.add_0_r.
  - rewrite for_each_result_cons. subst lines. rewrite fmap_cons. simpl concat.
    destruct (load_conll_sentence_cases data_set label_set sent)
      as [(Hok & words & labels & -> & Hlen & Hws & Hls) | (Hbad & ->)].
    + rewrite bind_Ok.
      destruct (IH (data_set ++ [words]) (label_set ++ [labels]))
        as [(Hall & data & lbs & -> & Hn & Hres) | (Hnot & ->)].
      * apply Forall2_app; [done | constructor; [done | constructor]].
      * apply Forall_app. split; [done | constructor; [done | constructor]].
      * apply Forall_app. split; [done | constructor; [done | constructor]].
      * left. split; [by apply Forall_app|]. exists data, lbs. split; [done|].
        split; [|done]. rewrite Hn, length_app. simpl. lia.
      * right. split; [|done]. intros H. by apply Forall_app in H as [_ ?].
    + right. split; [|done]. intros H. by apply Forall_app in H as [? _].
Qed.

(** X14.  What [load_conll_data] returns.  The corpus is never empty (a
    file without any blank line is one sentence, and an empty file is one
    empty sentence): it has one sentence per block of the file.  Every
    sentence has as many labels as words, and no word or label is empty or
    holds whitespace. *)
Theorem load_conll_data_aligned (content : string) (data_set label_set : corpus) :
  load_conll_data content = Ok (data_set, label_set) →
  data_set ≠ [] ∧
  length data_set = length (PyStr.split2 PyStr.newline PyStr.newline content) ∧
  aligned data_set label_set ∧
  Forall (Forall tidy_token) data_set ∧ Forall (Forall tidy_token) label_set.
Proof.
  unfold load_conll_data. intros Hrun.
  pose proof (load_conll_blocks (PyStr.split2 PyStr.newline PyStr.newline content)
                [] [] (Forall2_nil_2 _ _ _) (Forall_nil_2 _) (Forall_nil_2 _)) as Hblocks.
  cbv zeta in Hblocks.
  destruct Hblocks as [(_ & data & labels & Hres & Hn & Hal & Hd & Hl) | (_ & Hres)];
    rewrite Hres in Hrun; [|done].
  injection Hrun as <- <-. simpl in Hn. split; [|done].
  intros ->. simpl in Hn.
  by destruct (PyStrFacts.split2_nonempty PyStr.newline PyStr.newline content);
    apply nil_length_inv.
Qed.

(** X15.  [load_conll_data] returns exactly when every line of the file is
    blank or has two fields separated by whitespace; any other line ends
    the call in [ValueError], the failed unpacking of line 35. *)
Theorem load_conll_data_returns_iff (content : string) :
  (is_ok (load_conll_data content) = true ↔ Forall conll_line_ok (conll_lines content)) ∧
  (is_ok (load_conll_data content) = false →
   load_conll_data content = Raise ValueError).
Proof.
  unfold load_conll_data, conll_lines.
  pose proof (load_conll_blocks (PyStr.split2 PyStr.newline PyStr.newline content)
                [] [] (Forall2_nil_2 _ _ _) (Forall_nil_2 _) (Forall_nil_2 _)) as Hblocks.
  cbv zeta in Hblocks.
  destruct Hblocks as [(Hall & data & labels & -> & _) | (Hnot & ->)]; simpl.
  - split; [done | discriminate].
  - split; [split; [discriminate | done] | done].
Qed.

(** *** Reading back a file that was written from a corpus *)

Module PyStrRoundTrip.
Import PyStr.

#[local] Arguments Ascii.eqb : simpl never.
#[local] Arguments newline : simpl never.

Lemma append_nil_l (t : string) : EmptyString +:+ t = t.
Proof. done. Qed.

Lemma append_cons (a : Ascii.ascii) (s t : string) :
  String a s +:+ t = String a (s +:+ t).
Proof. done. Qed.

Ltac str_simpl := rewrite ?append_cons, ?append_nil_l; simpl.

Lemma append_nil_r (s : string) : s +:+ EmptyString = s.
Proof. induction s as [|a s IH]; str_simpl; [done | by rewrite IH]. Qed.

Lemma append_assoc (s t u : string) : (s +:+ t) +:+ u = s +:+ t +:+ u.
Proof. induction s as [|a s IH]; str_simpl; [done | by rewrite IH]. Qed.

Lemma all_chars_app (p : Ascii.ascii → bool) (s t : string) :
  all_chars p (s +:+ t) = all_chars p s && all_chars p t.
Proof. induction s as [|a s IH]; str_simpl; [done|]. by rewrite IH, andb_assoc. Qed.

Lemma all_chars_impl (p q : Ascii.ascii → bool) (s : string) :
  (∀ c, p c = true → q c = true) → all_chars p s = true → all_chars q s = true.
Proof.
  intros Hpq. induction s as [|a s IH]; simpl; [done|].
  intros [Ha Hs]%andb_prop. by rewrite (Hpq _ Ha), IH.
Qed.

(** Splitting a string without separators, and one that starts with such
    a string and a separator. *)
Lemma split_by_none (p : Ascii.ascii → bool) (w : string) :
  all_chars (λ c, negb (p c)) w = true → split_by p w = [w].
Proof.
  induction w as [|a w IH]; simpl; [done|].
  intros [Ha Hw]%andb_prop. apply negb_true_iff in Ha. by rewrite Ha, IH.
Qed.

Lemma split_by_sep (p : Ascii.ascii → bool) (w rest : string) (c : Ascii.ascii) :
  all_chars (λ c, negb (p c)) w = true → p c = true →
  split_by p (w +:+ String c rest) = w :: split_by p rest.
Proof.
  intros Hw Hc. induction w as [|a w IH]; str_simpl.
  - by rewrite Hc.
  - simpl in Hw. apply andb_prop in Hw as [Ha Hw]. apply negb_true_iff in Ha.
    by rewrite Ha, IH.
Qed.

Lemma lstrip_tidy (w rest : string) : tidy_token w → lstrip (w +:+ rest) = w +:+ rest.
Proof.
  intros [Hne Hw]. destruct w as [|a w]; [done|]. str_simpl. simpl in Hw.
  apply andb_prop in Hw as [Ha _]. apply negb_true_iff in Ha. by rewrite Ha.
Qed.

Lemma rstrip_tidy (w : string) : tidy_token w → rstrip w = w.
Proof.
  intros [Hne Hw]. induction w as [|a w IH]; [done|]. simpl in *.
  apply andb_prop in Hw as [Ha Hw]. apply negb_true_iff in Ha.
  destruct w as [|b w]; [by rewrite Ha|].
  rewrite IH by done. done.
Qed.

Lemma rstrip_app (s t : string) :
  rstrip t ≠ EmptyString → rstrip (s +:+ t) = s +:+ rstrip t.
Proof.
  intros Ht. induction s as [|a s IH]; str_simpl; [done|]. rewrite IH.
  destruct (s +:+ rstrip t) eqn:Happ; [|done].
  destruct s; [done | discriminate].
Qed.

Lemma rstrip_space_tidy (l : string) : tidy_token l → rstrip (String " " l) = String " " l.
Proof.
  intros Hl. simpl rstrip. rewrite (rstrip_tidy l Hl).
  destruct Hl as [Hne _]. by destruct l.
Qed.

Lemma strip_line (w l : string) :
  tidy_token w → tidy_token l → strip (w +:+ " " +:+ l) = w +:+ " " +:+ l.
Proof.
  intros Hw Hl. unfold strip. rewrite lstrip_tidy by done.
  change (" " +:+ l) with (String " " l).
  rewrite rstrip_app; by rewrite rstrip_space_tidy.
Qed.

Lemma split_line (w l : string) :
  tidy_token w → tidy_token l → split (w +:+ " " +:+ l) = [w; l].
Proof.
  intros [Hw1 Hw2] [Hl1 Hl2]. unfold split.
  change (" " +:+ l) with (String " " l).
  rewrite split_by_sep, split_by_none by done.
  rewrite !filter_cons, filter_nil. by rewrite !decide_True by done.
Qed.

Lemma tidy_no_newline (w : string) :
  tidy_token w → all_chars (λ c, negb (Ascii.eqb newline c)) w = true.
Proof.
  intros [_ Hw]. eapply all_chars_impl; [|exact Hw].
  intros c Hc. apply negb_true_iff. apply negb_true_iff in Hc.
  destruct (Ascii.eqb newline c) eqn:Heq; [|done].
  apply Ascii.eqb_eq in Heq as <-. done.
Qed.

Lemma eqb_newline_sym (c : Ascii.ascii) : Ascii.eqb c newline = Ascii.eqb newline c.
Proof.
  destruct (Ascii.eqb newline c) eqn:H.
  - apply Ascii.eqb_eq in H as <-. apply Ascii.eqb_refl.
  - apply Ascii.eqb_neq. apply Ascii.eqb_neq in H. congruence.
Qed.

(** A line [word label] of tidy tokens. *)
Lemma line_no_newline (w l : string) :
  tidy_token w → tidy_token l →
  w +:+ " " +:+ l ≠ EmptyString ∧
  all_chars (λ c, negb (Ascii.eqb newline c)) (w +:+ " " +:+ l) = true.
Proof.
  intros Hw Hl. split.
  - destruct Hw as [Hne _]. by destruct w.
  - rewrite !all_chars_app, (tidy_no_newline w Hw), (tidy_no_newline l Hl). done.
Qed.

Lemma join_cons (sep p q : string) (ps : list string) :
  join sep (p :: q :: ps) = p +:+ sep +:+ join sep (q :: ps).
Proof. done. Qed.

Lemma split_by_join (lines : list string) :
  lines ≠ [] →
  Forall (λ line, all_chars (λ c, negb (Ascii.eqb newline c)) line = true) lines →
  split_by (Ascii.eqb newline) (join (String newline EmptyString) lines) = lines.
Proof.
  induction lines as [|p [|q ps] IH]; intros Hne Hall; [done | |].
  - apply Forall_cons in Hall as [Hp _]. simpl. by apply split_by_none.
  - apply Forall_cons in Hall as [Hp Hall]. rewrite join_cons.
    rewrite append_cons, append_nil_l.
    rewrite split_by_sep; [|done | apply Ascii.eqb_refl].
    by rewrite IH.
Qed.

(** A string without line feeds is a block, and so is such a string, a
    line feed and a block that does not start with a line feed. *)
Lemma block_ok_line (w : string) :
  all_chars (λ c, negb (Ascii.eqb newline c)) w = true → block_ok w = true.
Proof.
  induction w as [|a w IH]; simpl; [done|].
  intros [Ha Hw]%andb_prop. apply negb_true_iff in Ha.
  by rewrite eqb_newline_sym, Ha, IH.
Qed.

Lemma block_ok_app (w rest : string) :
  all_chars (λ c, negb (Ascii.eqb newline c)) w = true →
  block_ok (String newline rest) = true →
  block_ok (w +:+ String newline rest) = true.
Proof.
  intros Hw Hrest. induction w as [|a w IH]; str_simpl; [done|].
  simpl in Hw. apply andb_prop in Hw as [Ha Hw]. apply negb_true_iff in Ha.
  rewrite eqb_newline_sym, Ha. simpl. by apply IH.
Qed.

Lemma block_ok_join (lines : list string) :
  Forall (λ line, line ≠ EmptyString ∧
                  all_chars (λ c, negb (Ascii.eqb newline c)) line = true) lines →
  block_ok (join (String newline EmptyString) lines) = true.
Proof.
  induction lines as [|p [|q ps] IH]; intros Hall; [done | |].
  - apply Forall_cons in Hall as [[_ Hp] _]. simpl. by apply block_ok_line.
  - apply Forall_cons in Hall as [[_ Hp] Hall]. rewrite join_cons.
    rewrite append_cons, append_nil_l. apply block_ok_app; [done|].
    specialize (IH Hall). cbn [block_ok]. rewrite Ascii.eqb_refl, IH, andb_true_r.
    apply Forall_cons in Hall as [[Hq1 Hq2] _].
    destruct q as [|b q]; [done|].
    assert (Hstart : ∃ t, join (String newline EmptyString) (String b q :: ps)
                          = String b t).
    { destruct ps; simpl; [by eexists|]. rewrite append_cons. by eexists. }
    destruct Hstart as [t ->]. simpl in Hq2. apply andb_prop in Hq2 as [Hb _].
    by rewrite eqb_newline_sym.
Qed.

Lemma split2_cons2 (c1 c2 a b : Ascii.ascii) (s : string) :
  split2 c1 c2 (String a (String b s))
  = if (Ascii.eqb a c1 && Ascii.eqb b c2)%bool then EmptyString :: split2 c1 c2 s
    else cons_head a (split2 c1 c2 (String b s)).
Proof. done. Qed.

Lemma split2_block (b : string) :
  block_ok b = true → split2 newline newline b = [b].
Proof.
  induction b as [|a b IH]; [done|]. intros Hb. cbn [block_ok] in Hb.
  apply andb_prop in Hb as [Ha Hb]. specialize (IH Hb).
  destruct b as [|c b]; [done|]. rewrite split2_cons2.
  assert (Htest : (Ascii.eqb a newline && Ascii.eqb c newline)%bool = false).
  { destruct (Ascii.eqb a newline); [|done]. simpl. by apply negb_true_iff. }
  by rewrite Htest, IH.
Qed.

Lemma split2_sep (b rest : string) :
  block_ok b = true →
  split2 newline newline (b +:+ String newline (String newline rest))
  = b :: split2 newline newline rest.
Proof.
  induction b as [|a b IH]; intros Hb.
  - rewrite append_nil_l, split2_cons2. by rewrite Ascii.eqb_refl.
  - cbn [block_ok] in Hb. apply andb_prop in Hb as [Ha Hb]. specialize (IH Hb).
    rewrite append_cons.
    destruct b as [|c b].
    + rewrite append_nil_l in *.
      assert (Hane : Ascii.eqb a newline = false) by by destruct (Ascii.eqb a newline).
      rewrite split2_cons2. by rewrite Hane, IH.
    + rewrite append_cons in *.
      assert (Htest : (Ascii.eqb a newline && Ascii.eqb c newline)%bool = false).
      { destruct (Ascii.eqb a newline); [|done]. simpl. by apply negb_true_iff. }
      rewrite split2_cons2. by rewrite Htest, IH.
Qed.

Lemma split2_join (blocks : list string) :
  blocks ≠ [] → Forall (λ b, block_ok b = true) blocks →
  split2 newline newline
         (join (String newline (String newline EmptyString)) blocks) = blocks.
Proof.
  induction blocks as [|p [|q ps] IH]; intros Hne Hall; [done | |].
  - apply Forall_cons in Hall as [Hp _]. simpl. by apply split2_block.
  - apply Forall_cons in Hall as [Hp Hall]. rewrite join_cons.
    rewrite !append_cons, append_nil_l.
    rewrite split2_sep by done. by rewrite IH.
Qed.
End PyStrRoundTrip.

(** The lines of a sentence that was written out are read back. *)
Lemma load_conll_pairs_written (words labels : list string) :
  length words = length labels →
  Forall tidy_token words → Forall tidy_token labels →
  ∀ words0 labels0,
    for_each load_conll_pair (words0, labels0)
             (zip_with (λ word label, word +:+ " " +:+ label) words labels)
    = Ok (words0 ++ words, labels0 ++ labels).
Proof.
  revert labels. induction words as [|w words IH]; intros [|l labels] Hlen Hw Hl;
    intros words0 labels0; simplify_eq/=.
  - by rewrite !app_nil_r.
  - apply Forall_cons in Hw as [Hw Hws]. apply Forall_cons in Hl as [Hl Hls].
    unfold load_conll_pair at 1.
    rewrite PyStrRoundTrip.strip_line, PyStrRoundTrip.split_line by done.
    rewrite decide_True by by destruct (PyStrRoundTrip.line_no_newline w l Hw Hl).
    rewrite bind_Ok, IH by done. by rewrite <- !app_assoc.
Qed.

Lemma load_conll_sentence_written (words labels : list string)
    (data_set label_set : corpus) :
  length words = length labels →
  Forall tidy_token words → Forall tidy_token labels →
  load_conll_sentence (data_set, label_set)
    (join (String PyStr.newline EmptyString)
          (zip_with (λ word label, word +:+ " " +:+ label) words labels))
  = Ok (data_set ++ [words], label_set ++ [labels]).
Proof.
  intros Hlen Hw Hl. unfold load_conll_sentence.
  destruct words as [|w words].
  { destruct labels; [done | discriminate]. }
  destruct labels as [|l labels]; [discriminate|].
  rewrite PyStrRoundTrip.split_by_join.
  - by rewrite (load_conll_pairs_written (w :: words) (l :: labels)).
  - done.
  - clear Hlen. revert Hw Hl. generalize (w :: words) (l :: labels). clear.
    intros ws ls Hw. revert ls.
    induction Hw as [|w ws Hw _ IH]; intros [|l ls] Hl; simpl; try constructor.
    + apply Forall_cons in Hl as [Hl _]. by apply PyStrRoundTrip.line_no_newline.
    + apply Forall_cons in Hl as [_ Hl]. by apply IH.
Qed.

Lemma sentence_block_ok (words labels : list string) :
  Forall tidy_token words → Forall tidy_token labels →
  block_ok (join (String PyStr.newline EmptyString)
                 (zip_with (λ word label, word +:+ " " +:+ label) words labels)) = true.
Proof.
  intros Hw Hl. apply PyStrRoundTrip.block_ok_join.
  revert labels Hl. induction Hw as [|w words Hw _ IH]; intros [|l labels] Hl;
    simpl; try constructor.
  - apply Forall_cons in Hl as [Hl _]. by apply PyStrRoundTrip.line_no_newline.
  - apply Forall_cons in Hl as [_ Hl]. by apply IH.
Qed.

Lemma load_conll_written (x y : corpus) :
  aligned x y → Forall (Forall tidy_token) x → Forall (Forall tidy_token) y →
  ∀ data_set label_set,
    for_each load_conll_sentence (data_set, label_set)
      (zip_with (λ words labels,
                   join (String PyStr.newline EmptyString)
                        (zip_with (λ word label, word +:+ " " +:+ label) words labels))
                x y)
    = Ok (data_set ++ x, label_set ++ y).
Proof.
  induction 1 as [|ws ls x y Hlen _ IH]; intros Hx Hy data_set label_set.
  - simpl. by rewrite !app_nil_r.
  - apply Forall_cons in Hx as [Hws Hx]. apply Forall_cons in Hy as [Hls Hy].
    cbn [zip_with].
    rewrite for_each_result_cons, load_conll_sentence_written by done.
    rewrite bind_Ok, IH by done. by rewrite <- !app_assoc.
Qed.

(** X16.  Reading back what was written.  A non-empty corpus of tokens
    without whitespace, written as a CoNLL file (one line [word label] per
    token, an empty line between sentences), is read back by
    [load_conll_data] as it was, empty sentences included. *)
Theorem load_conll_data_round_trip (x y : corpus) :
  x ≠ [] → aligned x y →
  Forall (Forall tidy_token) x → Forall (Forall tidy_token) y →
  load_conll_data (conll_render x y) = Ok (x, y).
Proof.
  intros Hne Hal Hx Hy. unfold load_conll_data, conll_render.
  rewrite PyStrRoundTrip.split2_join.
  - by rewrite load_conll_written.
  - destruct Hal; [done | simpl; done].
  - clear Hne. induction Hal as [|ws ls x y _ _ IH]; simpl; [constructor|].
    apply Forall_cons in Hx as [Hws Hx]. apply Forall_cons in Hy as [Hls Hy].
    constructor; [by apply sentence_block_ok | by apply IH].
Qed.

Lemma load_conll_data_round_trip_witness :
  load_conll_data (conll_render [["the"; "dog"]; []; ["barks"]]
                                [["O"; "B-X"]; []; ["O"]])
  = Ok ([["the"; "dog"]; []; ["barks"]], [["O"; "B-X"]; []; ["O"]]).
Proof.
  apply load_conll_data_round_trip.
  - discriminate.
  - repeat constructor.
  - repeat constructor; discriminate.
  - repeat constructor; discriminate.
Defined.

Lemma load_conll_data_aligned_witness :
  ∃ data_set label_set,
    load_conll_data (conll_render [["the"; "dog"]; ["barks"]] [["O"; "B-X"]; ["O"]])
      = Ok (data_set, label_set) ∧ aligned data_set label_set.
Proof.
  eexists _, _. split; [vm_compute; reflexivity|].
  eapply (load_conll_data_aligned
            (conll_render [["the"; "dog"]; ["barks"]] [["O"; "B-X"]; ["O"]])).
  vm_compute. reflexivity.
Defined.

(** ** The set-up of [train_and_test] *)

(** The two reserved tokens always have an id. *)
Lemma build_word2id_reserved (word_set : list string) :
  is_Some (dict_get "<oov>" (build_word2id word_set)) ∧
  is_Some (dict_get "<pad>" (build_word2id word_set)).
Proof.
  unfold build_word2id. simpl.
  assert (Hhas : ∀ r ws (d : pydict string nat), is_Some (dict_get r d) →
            is_Some (dict_get r
              (fold_left (λ word2id word, dict_set word (dict_len word2id) word2id) ws d))).
  { intros r. induction ws as [|w ws IH]; intros d Hd; [done|]. simpl. apply IH.
    rewrite dict_get_set. by case_decide. }
  split; apply Hhas; simpl; eauto.
Qed.

Lemma elem_of_concat {A : Type} (a : A) (ls : list (list A)) :
  a ∈ concat ls ↔ ∃ l, a ∈ l ∧ l ∈ ls.
Proof.
  induction ls as [|l ls IH]; simpl.
  - split; [intros H; by apply elem_of_nil in H|].
    intros (l & _ & H). by apply elem_of_nil in H.
  - rewrite elem_of_app, IH. split.
    + intros [H|(l' & H1 & H2)]; [exists l | exists l']; split; auto;
        [apply list_elem_of_here | by apply list_elem_of_further].
    + intros (l' & H1 & H2). apply elem_of_cons in H2 as [->|H2]; eauto.
Qed.



Section SetUp.
Context {Model Embedding : Type}.
Variable forward_eval : Model → tensor → tensor → tensor.
Variable scorer : string → list string → result (Q * Q * Q).
Variable tmp_path : string.
Variable train_step : Model → tensor → tensor → list nat → result Model.
Variable decay_lr : Model → Q → Model.
Variable glove_embedding : options → pydict string nat → result Embedding.
Variable build_model : options → Embedding → nat → pydict string nat → result Model.
Variable build_optimizer : options → Model → result Model.

End SetUp.


(** ** Tags without an id *)

(** A loop whose iterations return or raise [e], one of them raising
    whatever the state, raises [e]. *)
Lemma for_each_raises {S A : Type} (e : exn) (body : S → A → result S) (l : list A) :
  (∀ s a, a ∈ l → body s a = Raise e ∨ ∃ s', body s a = Ok s') →
  (∃ a, a ∈ l ∧ ∀ s, body s a = Raise e) →
  ∀ s, for_each body s l = Raise e.
Proof.
  induction l as [|a l IH]; intros Hbody (a0 & Hin & Hraise) s.
  - by apply elem_of_nil in Hin.
  - rewrite for_each_result_cons.
    destruct (Hbody s a) as [Hb | [s' Hb]]; [left | by rewrite Hb |].
    rewrite Hb, bind_Ok. apply elem_of_cons in Hin as [->|Hin].
    + specialize (Hraise s). congruence.
    + apply IH; [|eauto]. intros s1 a1 Ha1. apply Hbody. by right.
Qed.

(** [create_batches] on a corpus that is well-formed but for a tag
    without an id. *)
Lemma create_batches_unknown_tag (x y : corpus) (batch_size : nat)
    (word2id label2id : pydict string nat) (sort shuffle : bool)
    (text : corpus) (shuffled pos_shuffled : list nat) :
  x ≠ [] → 1 ≤ batch_size →
  (shuffle = true → shuffled ≡ₚ seq 0 (length x)) →
  reserved_ids word2id label2id → aligned x y → length text = length x →
  ¬ known_tags label2id y →
  create_batches x y batch_size word2id label2id sort shuffle (Some text)
                 shuffled pos_shuffled = Raise KeyError.
Proof.
  intros Hne Hb Hshuf Hres Hal Htext Hunknown.
  assert (Hn : 1 ≤ length x) by (destruct x; [done | simpl; lia]).
  unfold create_batches.
  fold (batch_order sort x (if shuffle then shuffled else seq 0 (length x))).
  set (lst := batch_order sort x (if shuffle then shuffled else seq 0 (length x))).
  assert (Hlst : lst ≡ₚ seq 0 (length x)).
  { subst lst. rewrite batch_order_perm. destruct shuffle; auto. }
  destruct (index_all_perm x lst Hlst) as (x' & Hx' & Hpx).
  destruct (index_all_perm y lst) as (y' & Hy' & Hpy).
  { by rewrite <- (Forall2_length _ _ _ Hal). }
  destruct (index_all_perm text lst) as (t' & Ht' & Hpt); [by rewrite Htext|].
  assert (Hal' : aligned x' y') by eauto using aligned_index_all.
  assert (Hlen' : length x' = length x) by by rewrite Hpx.
  rewrite Hx', Hy', Ht'. run_result. simpl fmap. run_result.
  rewrite decide_False by lia. fold (nbatch_of (length x') batch_size).
  rewrite Hlen'.
  assert (Hunknown' : ¬ known_tags label2id y').
  { unfold known_tags in *. by rewrite Hpy. }
  rewrite (for_each_raises KeyError); [done | |].
  - intros b i Hi. apply elem_of_seq in Hi as [_ Hi]. simpl in Hi.
    assert (Hstart : i * batch_size < length x').
    { rewrite Hlen'. by apply nbatch_of_chunk_start. }
    destruct (decide (known_tags label2id
                        (slice y' (i * batch_size) ((i + 1) * batch_size))))
      as [Hk|Hk].
    + right.
      destruct (create_one_batch_Ok
                  (slice x' (i * batch_size) ((i + 1) * batch_size))
                  (slice y' (i * batch_size) ((i + 1) * batch_size))
                  word2id label2id sort "<oov>" "<pad>" "<pad>")
        with (oov_id := default 0 (dict_get "<oov>" word2id))
             (pad_id := default 0 (dict_get "<pad>" word2id))
             (label_pad_id := default 0 (dict_get "<pad>" label2id))
        as (x'' & y'' & lens & _ & _ & _ & _ & Hrun).
      * apply slice_nonempty; [lia | done].
      * by destruct Hres as ([? ->] & _).
      * by destruct Hres as (_ & [? ->] & _).
      * by destruct Hres as (_ & _ & [? ->]).
      * by apply aligned_slice.
      * done.
      * unfold batch_step. rewrite Hrun. by eexists.
    + left. unfold batch_step.
      rewrite create_one_batch_unknown_tag; try done.
      * apply slice_nonempty; [lia | done].
      * by apply aligned_slice.
      * by destruct Hres as (? & _).
      * by destruct Hres as (_ & ? & _).
      * by destruct Hres as (_ & _ & ?).
  - assert (Hex : Exists (λ y_j, ¬ Forall (λ tag, is_Some (dict_get tag label2id)) y_j) y').
    { apply not_Forall_Exists; [|done]. intros y_j. apply _. }
    apply Exists_exists in Hex as (y_j & Hin & Hbad).
    apply list_elem_of_lookup in Hin as [j Hj].
    assert (Hjlt : j < length x).
    { rewrite <- Hlen', (Forall2_length _ _ _ Hal'). eauto using lookup_lt_Some. }
    exists (j / batch_size).
    pose proof (Nat.div_mod j batch_size ltac:(lia)) as Hdm.
    pose proof (Nat.mod_upper_bound j batch_size ltac:(lia)) as Hmod.
    pose proof (nbatch_of_ceil (length x) batch_size Hn Hb) as Hceil.
    assert (Hchunk : j / batch_size < nbatch_of (length x) batch_size) by nia.
    split; [apply elem_of_seq; lia|].
    intros b. unfold batch_step.
    rewrite create_one_batch_unknown_tag; try done.
    + apply slice_nonempty; [lia|]. rewrite Hlen'. nia.
    + by apply aligned_slice.
    + by destruct Hres as (? & _).
    + by destruct Hres as (_ & ? & _).
    + by destruct Hres as (_ & _ & ?).
    + intros Hk. apply Hbad.
      eapply (proj1 (Forall_forall _ _) Hk), list_elem_of_lookup_2.
      rewrite (slice_lookup _ _ _ (j `mod` batch_size)) by lia.
      rewrite <- Hj. f_equal. lia.
Qed.

Section UnknownTag.
Context {Model Embedding : Type}.
Variable forward_eval : Model → tensor → tensor → tensor.
Variable scorer : string → list string → result (Q * Q * Q).
Variable tmp_path : string.
Variable train_step : Model → tensor → tensor → list nat → result Model.
Variable decay_lr : Model → Q → Model.
Variable glove_embedding : options → pydict string nat → result Embedding.
Variable build_model : options → Embedding → nat → pydict string nat → result Model.
Variable build_optimizer : options → Model → result Model.

(** X18.  A tag of the training data that is neither ["<pad>"] nor ["O"]
    nor starts with [B-] or [I-] (a part-of-speech tag, say) stops
    [train_and_test] before anything is written: whatever the label source,
    [make_dict] gives the tag no id, so that the run ends where
    [load_embedding] raises or, when the embedding layer is built, in the
    [KeyError] of the first call of [create_batches]. *)
Theorem train_and_test_unknown_tag (opt : options)
    (train_x train_y dev_x dev_y test_x test_y : corpus)
    (shuffled pos_shuffled : list nat) (epoch_shuffle : nat → list nat)
    (tag : string) :
  1 ≤ batch_size opt → train_x ≠ [] → aligned train_x train_y →
  shuffled ≡ₚ seq 0 (length train_x) →
  tag ∈ flatten train_y →
  tag ≠ "<pad>" → tag ≠ "O" →
  (∀ label, tag ≠ "B-" +:+ label) → (∀ label, tag ≠ "I-" +:+ label) →
  let run :=
    train_and_test forward_eval scorer tmp_path train_step decay_lr
      glove_embedding build_model build_optimizer
      opt train_x train_y dev_x dev_y test_x test_y shuffled pos_shuffled
      epoch_shuffle in
  run.1 = [] ∧ is_ok run.2 = false ∧
  match load_embedding glove_embedding opt (build_word2id (word_set_of train_x)) with
  | Raise e => run = ([], Raise e)
  | Ok _ => run = ([], Raise KeyError)
  end.
Proof.
  intros Hb Hne Hal Hshuf Htag Hpad HO HB HI run.
  assert (Hrun : match load_embedding glove_embedding opt
                         (build_word2id (word_set_of train_x)) with
                 | Raise e => run = ([], Raise e)
                 | Ok _ => run = ([], Raise KeyError)
                 end).
  2:{ destruct (load_embedding _ _ _); by rewrite Hrun. }
  subst run. unfold train_and_test.
  destruct (make_dict (label_file opt) train_x (Some train_y) (Some dev_y) (Some test_y))
    as [[[word2id label2id] id2label]|e] eqn:Hdict.
  2:{ unfold make_dict in Hdict. by destruct (label_file opt). }
  rewrite eff_bind_lift_Ok. cbv beta iota zeta.
  apply make_dict_word2id in Hdict as (-> & ls & -> & _).
  destruct (load_embedding glove_embedding opt _) as [embedding|e];
    [rewrite eff_bind_lift_Ok | done].
  assert (Hres : reserved_ids (build_word2id (word_set_of train_x)) (build_label2id ls)).
  { destruct (build_word2id_reserved (word_set_of train_x)) as [Hoov Hp].
    destruct (build_label2id_pad ls) as [Hlpad _].
    split; [done|]. split; [done|]. rewrite Hlpad. eauto. }
  assert (Hunknown : ¬ known_tags (build_label2id ls) train_y).
  { intros Hk. apply elem_of_concat in Htag as (y_i & Ht & Hy_i).
    pose proof (proj1 (Forall_forall _ _) (proj1 (Forall_forall _ _) Hk _ Hy_i) _ Ht)
      as [idx Hidx].
    assert (Hin : tag ∈ (build_label2id ls).*1).
    { destruct (decide (tag ∈ (build_label2id ls).*1)) as [|Hno]; [done|].
      apply dict_get_None in Hno. congruence. }
    apply build_label2id_keys in Hin as [?|[?|(l & _ & [?|?])]]; try done.
    - by apply (HB l).
    - by apply (HI l). }
  unfold create_dataset.
  rewrite (create_batches_unknown_tag train_x train_y (batch_size opt) _ _ true true
             train_x shuffled pos_shuffled) by done.
  reflexivity.
Qed.
End UnknownTag.

Lemma train_and_test_unknown_tag_witness :
  train_and_test (Model := nat) (Embedding := unit)
    (λ _ _ y, y) (λ _ _, Ok (0, 0, 0)%Q) "tmp"
    Scenario.train_step Scenario.decay_lr
    (λ _ _, Ok ()) (λ _ _ _ _, Ok 0) (λ _ model, Ok model)
    (Options None "model" None "conlleval.pl" 2 1 0 EmptyString)
    [["the"; "dog"]] [["DET"; "NOUN"]] [["a"]] [["DET"]] [["a"]] [["DET"]]
    [0] [0] (λ _, [0])
  = ([], Raise KeyError).
Proof.
  apply (train_and_test_unknown_tag (Model := nat) (Embedding := unit)
           (λ _ _ y, y) (λ _ _, Ok (0, 0, 0)%Q)
           "tmp" Scenario.train_step Scenario.decay_lr
           (λ _ _, Ok ()) (λ _ _ _ _, Ok 0) (λ _ model, Ok model)
           (Options None "model" None "conlleval.pl" 2 1 0 EmptyString)
           [["the"; "dog"]] [["DET"; "NOUN"]] [["a"]] [["DET"]] [["a"]] [["DET"]]
           [0] [0] (λ _, [0]) "NOUN").
  - simpl. lia.
  - discriminate.
  - repeat constructor.
  - reflexivity.
  - apply (bool_decide_unpack _). vm_compute. reflexivity.
  - discriminate.
  - discriminate.
  - discriminate.
  - discriminate.
Defined.

(** ** From the corpus to the lines the scorer reads *)

Section ZipFacts.
Context {A B C D : Type}.

Lemma zip_fmap_same (f : A → B) (g : A → C) (l : list A) :
  zip (f <$> l) (g <$> l) = (λ a, (f a, g a)) <$> l.
Proof. induction l as [|a l IH]; [done|]. rewrite !fmap_cons. simpl. f_equal. exact IH. Qed.

Lemma zip_with_fmap_same (h : B → C → D) (f : A → B) (g : A → C) (l : list A) :
  zip_with h (f <$> l) (g <$> l) = (λ a, h (f a) (g a)) <$> l.
Proof. induction l as [|a l IH]; [done|]. rewrite !fmap_cons. simpl. f_equal. exact IH. Qed.

Lemma zip_concat_same (f : A → list B) (g : A → list C) (l : list A) :
  (∀ a, a ∈ l → length (f a) = length (g a)) →
  zip (concat (f <$> l)) (concat (g <$> l)) = concat ((λ a, zip (f a) (g a)) <$> l).
Proof.
  induction l as [|a l IH]; intros Hlen; [done|]. rewrite !fmap_cons. simpl.
  rewrite zip_with_app by (apply Hlen; left). f_equal.
  apply IH. intros a' Ha'. apply Hlen. by right.
Qed.

(** What lies beyond the shorter list does not show in a zip. *)
Lemma zip_app_beyond (l : list A) (k k' : list B) (o : list C) :
  length l ≤ length k → zip l (zip (k ++ k') o) = zip l (zip k o).
Proof.
  revert k o. induction l as [|a l IH]; intros k o Hlen; [done|].
  destruct k as [|b k]; [simpl in Hlen; lia|].
  destruct o as [|c o]; [done|]. simpl. f_equal. apply IH. simpl in Hlen. lia.
Qed.

Lemma length_concat_same (f : A → list B) (g : A → list C) (l : list A) :
  (∀ a, a ∈ l → length (f a) = length (g a)) →
  length (concat (f <$> l)) = length (concat (g <$> l)).
Proof.
  induction l as [|a l IH]; intros Hlen; [done|]. rewrite !fmap_cons. simpl.
  rewrite !length_app, (Hlen a) by left. f_equal.
  apply IH. intros a' Ha'. apply Hlen. by right.
Qed.

Lemma zip_fmap_mid (f : B → D) (l : list A) (k : list B) (o : list C) :
  zip l (zip (f <$> k) o)
  = (λ s : A * (B * C), (s.1, (f s.2.1, s.2.2))) <$> zip l (zip k o).
Proof.
  revert k o. induction l as [|a l IH]; intros k o; [done|].
  destruct k as [|b k]; [done|]. destruct o as [|c o]; [done|].
  rewrite fmap_cons. simpl. f_equal. apply IH.
Qed.
End ZipFacts.

(** The gold tags of a sentence come back by name: the lines of a sentence
    rendered from the padded row of its tag ids are the lines with the
    tags themselves. *)
Lemma sentence_lines_gold (label2id : pydict string nat) (id2label : pydict nat string)
    (m pad : nat) (x_j y_j : list string) (out_j : list nat) :
  (∀ tag idx, dict_get tag label2id = Some idx → dict_get idx id2label = Some tag) →
  length x_j = length y_j →
  Forall (λ tag, is_Some (dict_get tag label2id)) y_j →
  sentence_lines id2label x_j (pad_to m pad (tag_ids label2id y_j)) out_j
  = (λ wtp : string * (string * nat),
       wtp.1 +:+ " " +:+ wtp.2.1 +:+ " " +:+ tag_name id2label wtp.2.2)
    <$> zip x_j (zip y_j out_j).
Proof.
  intros Hinv Hlen Hknown. unfold sentence_lines, pad_to, tag_ids.
  rewrite zip_app_beyond by by rewrite length_fmap, Hlen.
  rewrite zip_fmap_mid, <- list_fmap_compose.
  apply Forall_fmap_ext, Forall_forall. intros [w [tag p]] Hin. simpl.
  assert (Htag : tag ∈ y_j).
  { apply list_elem_of_lookup in Hin as [k Hk].
    apply lookup_zip_Some in Hk as [_ Hk]. apply lookup_zip_Some in Hk as [Hk _].
    by eapply list_elem_of_lookup_2. }
  destruct (proj1 (Forall_forall _ _) Hknown _ Htag) as [idx Hidx].
  rewrite Hidx. simpl. unfold tag_name at 1. by rewrite (Hinv _ _ Hidx).
Qed.

Lemma concat_concat_fmap {A B C : Type} (G : B → list C) (Z : A → list B) (l : list A) :
  concat ((λ a, concat (G <$> Z a)) <$> l) = concat (G <$> concat (Z <$> l)).
Proof.
  induction l as [|a l IH]; [done|]. rewrite !fmap_cons. simpl.
  by rewrite fmap_app, concat_app, IH.
Qed.

Section DevEvaluation.
Context {Model : Type}.
Variable forward_eval : Model → tensor → tensor → tensor.
Variable scorer : string → list string → result (Q * Q * Q).
Variable tmp_path : string.

(** One chunk of a corpus as a batch can be rendered, and its lines are
    the lines of its sentences with their own tags. *)
Lemma chunk_batch_lines (x y : corpus) (batch_size : nat)
    (word2id label2id : pydict string nat) (id2label : pydict nat string)
    (oov_id pad_id label_pad_id : nat) (model : Model) (i : nat) :
  aligned x y → known_tags label2id y →
  (∀ tag idx, dict_get tag label2id = Some idx → dict_get idx id2label = Some tag) →
  (∀ bx by_,
     Forall2 (λ (row out : list nat),
                length out = length row ∧
                Forall (λ p, is_Some (dict_get p id2label)) out)
             bx (forward_eval model bx by_)) →
  let r := batch_of_chunk x y batch_size word2id label2id oov_id pad_id label_pad_id i in
  let sx := slice x (i * batch_size) ((i + 1) * batch_size) in
  let sy := slice y (i * batch_size) ((i + 1) * batch_size) in
  let out := forward_eval model r.1.1 r.1.2 in
  length out = length sx ∧ length sy = length sx ∧
  renderable_batch id2label r.1.1 sx r.1.2 out ∧
  batch_lines id2label sx r.1.2 out
  = concat ((λ s : list string * (list string * list nat),
               ((λ wtp : string * (string * nat),
                   wtp.1 +:+ " " +:+ wtp.2.1 +:+ " " +:+ tag_name id2label wtp.2.2)
                <$> zip s.1 (zip s.2.1 s.2.2)) ++ [EmptyString])
            <$> zip sx (zip sy out)).
Proof.
  intros Hal Hknown Hinv Hpred r sx sy out.
  pose proof (aligned_slice x y (i * batch_size) ((i + 1) * batch_size) Hal) as Hal'.
  pose proof (known_tags_slice label2id y (i * batch_size) ((i + 1) * batch_size) Hknown)
    as Hknown'.
  fold sx sy in Hal', Hknown'.
  set (m := max_list (length <$> sx)).
  assert (Hr1 : r.1.1 = pad_to m pad_id ∘ word_ids word2id oov_id <$> sx) by done.
  assert (Hr2 : r.1.2 = pad_to m label_pad_id ∘ tag_ids label2id <$> sy) by done.
  pose proof (Hpred r.1.1 r.1.2) as Hout. fold out in Hout.
  assert (Hlen_out : length out = length sx).
  { rewrite <- (Forall2_length _ _ _ Hout), Hr1. by rewrite length_fmap. }
  assert (Hlen_sy : length sy = length sx) by (symmetry; by eapply Forall2_length).
  assert (Hshort : ∀ x_j, x_j ∈ sx → length x_j ≤ m).
  { intros x_j Hin. apply max_list_elem_of_le, list_elem_of_fmap. eauto. }
  do 2 (split; [done|]). split.
  - split; [by rewrite Hr1, length_fmap|].
    split; [by rewrite Hr1, Hr2, !length_fmap|].
    split; [by rewrite Hr1, length_fmap|].
    apply Forall_forall. intros [t_j [row_j out_j]] Hin. cbn [fst snd].
    apply list_elem_of_lookup in Hin as [j Hj].
    apply lookup_zip_Some in Hj as [Ht Hj]. apply lookup_zip_Some in Hj as [Hrow Ho].
    rewrite Hr2, list_lookup_fmap in Hrow.
    destruct (sy !! j) as [y_j|] eqn:Hy_j; [|done]. simpl in Hrow.
    injection Hrow as <-.
    assert (Hlen_j : length t_j = length y_j)
      by apply (Forall2_lookup_lr _ _ _ _ _ _ Hal' Ht Hy_j).
    assert (Hm : length t_j ≤ m) by (eapply Hshort, list_elem_of_lookup_2, Ht).
    assert (Hrow_x : r.1.1 !! j = Some (pad_to m pad_id (word_ids word2id oov_id t_j))).
    { by rewrite Hr1, list_lookup_fmap, Ht. }
    destruct (Forall2_lookup_lr _ _ _ _ _ _ Hout Hrow_x Ho) as [Hlen_o Hnamed].
    rewrite pad_to_length in Hlen_o by by unfold word_ids; rewrite length_fmap.
    split; [|split; [|split]].
    + rewrite pad_to_length; [done|]. unfold tag_ids. rewrite length_fmap. lia.
    + lia.
    + unfold pad_to. rewrite take_app_length' by by unfold tag_ids; rewrite length_fmap.
      unfold tag_ids. apply Forall_fmap, Forall_forall. intros tag Htag. simpl.
      assert (Hk : is_Some (dict_get tag label2id)).
      { assert (Hyk : Forall (λ t, is_Some (dict_get t label2id)) y_j)
          by (eapply (proj1 (Forall_forall _ _) Hknown'), list_elem_of_lookup_2, Hy_j).
        exact (proj1 (Forall_forall _ _) Hyk tag Htag). }
      destruct Hk as [idx Hidx]. rewrite Hidx. simpl. rewrite (Hinv _ _ Hidx). eauto.
    + by apply Forall_take.
  - unfold batch_lines. rewrite Hr2, zip_fmap_mid, <- list_fmap_compose.
    f_equal. apply Forall_fmap_ext, Forall_forall. intros [x_j [y_j out_j]] Hin.
    cbn [fst snd compose]. f_equal.
    apply list_elem_of_lookup in Hin as [j Hj].
    apply lookup_zip_Some in Hj as [Hx_j Hj]. apply lookup_zip_Some in Hj as [Hy_j _].
    apply sentence_lines_gold; [done | |].
    + apply (Forall2_lookup_lr _ _ _ _ _ _ Hal' Hx_j Hy_j).
    + eapply (proj1 (Forall_forall _ _) Hknown'), list_elem_of_lookup_2, Hy_j.
Qed.

(** X19.  A validation or test corpus goes through [create_batches] and
    [eval_model] unchanged: when the tags of the corpus have ids, the
    names of the ids are the tags and the model gives every row of a batch
    a row of named tag ids of the same length, the file the scorer reads
    holds the sentences of the corpus in their order, every token with its
    own tag as it was loaded and the name of the tag predicted for it,
    whatever the batch size. *)
Theorem eval_model_on_corpus (x y : corpus) (batch_size : nat)
    (word2id label2id : pydict string nat) (id2label : pydict nat string)
    (shuffled pos_shuffled : list nat) (oov_id pad_id label_pad_id : nat)
    (model : Model) (opt : options) :
  x ≠ [] → 1 ≤ batch_size →
  dict_get "<oov>" word2id = Some oov_id →
  dict_get "<pad>" word2id = Some pad_id →
  dict_get "<pad>" label2id = Some label_pad_id →
  aligned x y → known_tags label2id y →
  (∀ tag idx, dict_get tag label2id = Some idx → dict_get idx id2label = Some tag) →
  (∀ bx by_,
     Forall2 (λ (row out : list nat),
                length out = length row ∧
                Forall (λ p, is_Some (dict_get p id2label)) out)
             bx (forward_eval model bx by_)) →
  ∃ dev,
    create_dataset x y batch_size word2id label2id false false shuffled pos_shuffled
      = Ok dev ∧
    let outs := concat (zip_with (forward_eval model) (data_x dev) (data_y dev)) in
    let lines := corpus_lines id2label x y outs in
    let path := default tmp_path (output opt) in
    length outs = length x ∧
    eval_model forward_eval scorer tmp_path model (data_x dev) (data_y dev)
               (data_lens dev) (data_text dev) id2label opt
    = ((match output opt with
        | Some path => OpenWrite path
        | None => Mkstemp tmp_path
        end)
       :: (Print <$> lines)
       ++ [Close; RunScorer (script opt) path]
       ++ (if is_ok (scorer (script opt) lines) then [Remove path] else []),
       scorer (script opt) lines).
Proof.
  intros Hne Hb Hoov Hpad Hlpad Hal Hknown Hinv Hpred.
  destruct (create_batches_repr x y x batch_size word2id label2id false false
              shuffled pos_shuffled oov_id pad_id label_pad_id)
    as (x' & y' & t' & rs' & btext & Hx' & Hy' & Ht' & _ & _ & _ & Hrs' & Hbtext & Hrun);
    try done.
  simpl in Hx', Hy', Ht'.
  rewrite index_all_seq in Hx'. injection Hx' as <-.
  rewrite (Forall2_length _ _ _ Hal), index_all_seq in Hy'. injection Hy' as <-.
  rewrite index_all_seq in Ht'. injection Ht' as <-.
  set (r := batch_of_chunk x y batch_size word2id label2id oov_id pad_id label_pad_id)
    in *.
  set (nb := nbatch_of (length x) batch_size) in *.
  pose proof (index_all_seq (r <$> seq 0 nb)) as Hidx.
  rewrite length_fmap, length_seq in Hidx.
  pose proof (eq_trans (eq_sym Hrs') Hidx) as Hrs. injection Hrs as ->.
  rewrite (Hbtext eq_refl) in Hrun. clear Hbtext Hidx Hrs'.
  eexists. split; [unfold create_dataset; rewrite Hrun; reflexivity|].
  cbn [data_x data_y data_lens data_text default]. unfold id, chunks. fold nb.
  set (sx := λ i, slice x (i * batch_size) ((i + 1) * batch_size)).
  set (sy := λ i, slice y (i * batch_size) ((i + 1) * batch_size)).
  set (out := λ i, forward_eval model (r i).1.1 (r i).1.2).
  assert (Hchunk : ∀ i,
            length (out i) = length (sx i) ∧ length (sy i) = length (sx i) ∧
            renderable_batch id2label (r i).1.1 (sx i) (r i).1.2 (out i) ∧
            batch_lines id2label (sx i) (r i).1.2 (out i)
            = concat ((λ s : list string * (list string * list nat),
                         ((λ wtp : string * (string * nat),
                             wtp.1 +:+ " " +:+ wtp.2.1 +:+ " "
                             +:+ tag_name id2label wtp.2.2)
                          <$> zip s.1 (zip s.2.1 s.2.2)) ++ [EmptyString])
                      <$> zip (sx i) (zip (sy i) (out i))))
    by (intros i; by apply chunk_batch_lines).
  assert (Hx : concat (sx <$> seq 0 nb) = x) by by apply (chunks_concat batch_size x).
  assert (Hy : concat (sy <$> seq 0 nb) = y).
  { subst nb. rewrite (Forall2_length _ _ _ Hal). by apply (chunks_concat batch_size y). }
  assert (H1 : (r <$> seq 0 nb).*1.*1 = (λ i, (r i).1.1) <$> seq 0 nb)
    by by rewrite <- !list_fmap_compose.
  assert (H2 : (r <$> seq 0 nb).*1.*2 = (λ i, (r i).1.2) <$> seq 0 nb)
    by by rewrite <- !list_fmap_compose.
  assert (H3 : (r <$> seq 0 nb).*2 = (λ i, (r i).2) <$> seq 0 nb)
    by by rewrite <- !list_fmap_compose.
  rewrite H1, H2, H3. clear H1 H2 H3.
  rewrite (zip_with_fmap_same (forward_eval model) (λ i, (r i).1.1) (λ i, (r i).1.2)).
  fold out.
  split.
  { transitivity (length (concat (sx <$> seq 0 nb))); [|by rewrite Hx].
    apply length_concat_same. intros i _. apply Hchunk. }
  unfold eval_model. rewrite eff_bind_emit.
  rewrite (zip_fmap_same (λ i, (r i).2) sx).
  rewrite (zip_fmap_same (λ i, (r i).1.2) (λ i, ((r i).2, sx i))).
  rewrite (zip_fmap_same (λ i, (r i).1.1) (λ i, ((r i).1.2, ((r i).2, sx i)))).
  rewrite (print_loop _
             (λ b : tensor * (tensor * (list nat * corpus)),
                batch_lines id2label b.2.2.2 b.2.1 (forward_eval model b.1 b.2.1))).
  2:{ intros file b Hin. apply list_elem_of_fmap in Hin as (i & -> & _).
      apply print_batch_lines. apply Hchunk. }
  assert (Hlines :
            concat ((λ b : tensor * (tensor * (list nat * corpus)),
                       batch_lines id2label b.2.2.2 b.2.1 (forward_eval model b.1 b.2.1))
                    <$> ((λ i, ((r i).1.1, ((r i).1.2, ((r i).2, sx i))))
                         <$> seq 0 nb))
            = corpus_lines id2label x y (concat (out <$> seq 0 nb))).
  { rewrite <- list_fmap_compose. unfold corpus_lines.
    rewrite <- Hx at 1. rewrite <- Hy at 1.
    rewrite (zip_concat_same sy out) by (intros i _; destruct (Hchunk i); lia).
    rewrite (zip_concat_same sx (λ i, zip (sy i) (out i))).
    2:{ intros i _. rewrite length_zip. destruct (Hchunk i) as (? & ? & _). lia. }
    rewrite <- concat_concat_fmap. f_equal.
    apply Forall_fmap_ext, Forall_forall. intros i _. cbn [compose fst snd].
    apply Hchunk. }
  rewrite Hlines. rewrite eff_bind_Ok, !eff_bind_emit.
  change ([] ++ corpus_lines id2label x y (concat (out <$> seq 0 nb)))
    with (corpus_lines id2label x y (concat (out <$> seq 0 nb))).
  destruct (scorer (script opt) (corpus_lines id2label x y (concat (out <$> seq 0 nb))))
    as [scores|e] eqn:Hscore; simpl; rewrite ?Hscore; simpl; by rewrite <- ?app_assoc.
Qed.
End DevEvaluation.

Lemma eval_model_on_corpus_witness :
  ∃ dev,
    create_dataset [["a"; "b"]; ["c"]] [["O"; "B-X"]; ["O"]] 2
                   [("<oov>", 0); ("<pad>", 1); ("a", 2)]
                   [("<pad>", 0); ("O", 1); ("B-X", 2)] false false [] [] = Ok dev ∧
    (eval_model (Model := unit)
                (λ (_ : unit) (bx _ : tensor), (λ row : list nat, (λ _, 1) <$> row) <$> bx)
                (λ _ _, Ok (0, 0, 0)%Q) "tmp" ()
                (data_x dev) (data_y dev) (data_lens dev) (data_text dev)
                [(0, "<pad>"); (1, "O"); (2, "B-X")]
                (Options None "model" None "conlleval.pl" 2 1 0 EmptyString)).1
    = [Mkstemp "tmp"; Print "a O O"; Print "b B-X O"; Print EmptyString;
       Print "c O O"; Print EmptyString; Close; RunScorer "conlleval.pl" "tmp";
       Remove "tmp"].
Proof.
  destruct (eval_model_on_corpus (Model := unit)
              (λ (_ : unit) (bx _ : tensor), (λ row : list nat, (λ _, 1) <$> row) <$> bx)
              (λ _ _, Ok (0, 0, 0)%Q) "tmp"
              [["a"; "b"]; ["c"]] [["O"; "B-X"]; ["O"]] 2
              [("<oov>", 0); ("<pad>", 1); ("a", 2)]
              [("<pad>", 0); ("O", 1); ("B-X", 2)]
              [(0, "<pad>"); (1, "O"); (2, "B-X")] [] [] 0 1 0 ()
              (Options None "model" None "conlleval.pl" 2 1 0 EmptyString))
    as (dev & Hdev & _ & Hrun).
  - discriminate.
  - lia.
  - reflexivity.
  - reflexivity.
  - reflexivity.
  - repeat constructor.
  - repeat constructor; simpl; eauto.
  - intros tag idx H. simpl in H. repeat case_decide; simplify_eq; reflexivity.
  - intros bx _. apply Forall2_fmap_r, Forall_Forall2_diag, Forall_forall.
    intros row _. split; [by rewrite length_fmap|].
    apply Forall_fmap, Forall_forall. intros p _. simpl. eauto.
  - exists dev. split; [exact Hdev|]. rewrite Hrun.
    vm_compute in Hdev. injection Hdev as <-. reflexivity.
Defined.
